(** * Query-support layer of the medical-practice SQL assistant (sqlAgent.py)

    A shallow embedding of the text-processing and caching functions of
    [sqlAgent.py], and the properties of its specification checked on it.

    Text.  A Python [str] is a sequence of Unicode code points.  A
    character of the model is a code point: [Ch a] for U+0000 to U+00FF,
    [Uni n] for U+0100 + n.  White space ([str.isspace], [str.strip], the
    class [\s]) is the set of 29 code points Python takes for it.  Word
    characters ([\w], [\b]) and case are those of Python on U+0000 to
    U+00FF; for the characters beyond, they are read from the Unicode
    database of the interpreter, which is a parameter ([Unicode]) of
    everything that depends on it.  Matching under [re.IGNORECASE] is
    written out for ASCII literals, the only ones the patterns of the source
    have: beyond the two cases of a letter, [i] also matches U+0130 and
    U+0131, [s] matches U+017F and [k] matches U+212A.

    Regular expressions.  The patterns of the source are kept as pattern
    text and compiled by [Re.compile], a parser for the fragment of Python's
    [re] syntax the source uses, into a flat program (groups become marks,
    as in [sre]); [Re.run] is a backtracking matcher for such programs.  A
    pattern [re.compile] rejects makes the call raise [re_error]. *)

From Stdlib Require Import Ascii String List Bool Arith ZArith NArith Lia.
From Stdlib Require Import Numbers.DecimalString.
Import ListNotations.

Set Implicit Arguments.

(** ** Text *)

Inductive uchar : Type :=
| Ch (a : ascii)    (** U+0000 .. U+00FF *)
| Uni (n : N).      (** U+0100 + n *)

Bind Scope char_scope with uchar.
Coercion Ch : ascii >-> uchar.

Definition str := list uchar.

Definition py (s : string) : str := map Ch (list_ascii_of_string s).

Definition chr (n : nat) : uchar := Ch (ascii_of_nat n).

(** [ord(c)] *)
Definition ord (c : uchar) : N :=
  match c with
  | Ch a => N_of_ascii a
  | Uni n => 256 + n
  end.

Definition NL : uchar := chr 10.
Definition DQUOTE : uchar := chr 34.
Definition SQUOTE : uchar := chr 39.
Definition BACKSLASH : uchar := chr 92.

Definition within (lo hi k : N) : bool := ((lo <=? k) && (k <=? hi))%N.

(** [str.isspace] on one character, also the class [\s] and what
    [str.strip] removes: TAB LF VT FF CR, FS GS RS US, the space, NEL, the
    no-break space and the spaces of the general punctuation. *)
Definition isspace (c : uchar) : bool :=
  let k := ord c in
  within 9 13 k || within 28 32 k || (k =? 0x85)%N || (k =? 0xA0)%N
  || (k =? 0x1680)%N || within 0x2000 0x200A k || (k =? 0x2028)%N || (k =? 0x2029)%N
  || (k =? 0x202F)%N || (k =? 0x205F)%N || (k =? 0x3000)%N.

(** The ASCII digits and letters, which the syntax of patterns knows. *)
Definition digit (c : uchar) : bool := within 48 57 (ord c).
Definition capital (c : uchar) : bool := within 65 90 (ord c).
Definition small (c : uchar) : bool := within 97 122 (ord c).
Definition ascii_alnum (c : uchar) : bool := digit c || capital c || small c.

(** [int(c)] for a digit *)
Definition digit_value (c : uchar) : nat := N.to_nat (ord c - 48).

(** The letters of U+0080 .. U+00FF and the digits and fractions there
    ([str.isalnum]). *)
Definition latin1_alnum (k : N) : bool :=
  (k =? 0xAA)%N || (k =? 0xB2)%N || (k =? 0xB3)%N || (k =? 0xB5)%N || (k =? 0xB9)%N
  || (k =? 0xBA)%N || within 0xBC 0xBE k || within 0xC0 0xD6 k || within 0xD8 0xF6 k
  || within 0xF8 0xFF k.

(** The four letters beyond U+00FF that match an ASCII letter when case is
    ignored: the dotted capital I, the dotless small i, the long s and the
    Kelvin sign. *)
Definition DOTTED_I : uchar := Uni 0x30.
Definition DOTLESS_I : uchar := Uni 0x31.
Definition LONG_S : uchar := Uni 0x7F.
Definition KELVIN : uchar := Uni 0x202A.

Definition ceqb (a b : uchar) : bool :=
  match a, b with
  | Ch x, Ch y => Ascii.eqb x y
  | Uni n, Uni m => (n =? m)%N
  | _, _ => false
  end.

(** What [sre] compares when case is ignored and the literal is ASCII: the
    small letter for the two cases of an ASCII letter and for the letters
    that are taken for it, the character itself otherwise. *)
Definition fold (c : uchar) : uchar :=
  if capital c then Ch (ascii_of_N (ord c + 32))
  else if ceqb c DOTTED_I || ceqb c DOTLESS_I then Ch "i"
  else if ceqb c LONG_S then Ch "s"
  else if ceqb c KELVIN then Ch "k"
  else c.

Fixpoint str_eqb (a b : str) : bool :=
  match a, b with
  | [], [] => true
  | x :: a', y :: b' => ceqb x y && str_eqb a' b'
  | _, _ => false
  end.

(** [a.startswith(b)] read the other way round: [b] begins [a]. *)
Fixpoint starts_with (b a : str) : bool :=
  match b, a with
  | [], _ => true
  | x :: b', y :: a' => ceqb x y && starts_with b' a'
  | _ :: _, [] => false
  end.

(** [needle in hay] *)
Fixpoint contains (needle hay : str) : bool :=
  starts_with needle hay ||
  match hay with
  | [] => false
  | _ :: hay' => contains needle hay'
  end.

Definition ends_with (b a : str) : bool := starts_with (rev b) (rev a).

(** [s.split("\n")] *)
Fixpoint lines_aux (cur : str) (s : str) : list str :=
  match s with
  | [] => [rev cur]
  | c :: s' => if ceqb c NL then rev cur :: lines_aux [] s' else lines_aux (c :: cur) s'
  end.

Definition lines (s : str) : list str := lines_aux [] s.

(** [str.strip] *)
Fixpoint lstrip (s : str) : str :=
  match s with
  | c :: s' => if isspace c then lstrip s' else s
  | [] => []
  end.

Definition rstrip (s : str) : str := rev (lstrip (rev s)).

Definition strip (s : str) : str := rstrip (lstrip s).

(** [str(n)] for an integer *)
Definition str_of_Z (z : Z) : str := py (NilEmpty.string_of_int (Z.to_int z)).

(** ** The Unicode database

    What the interpreter knows of the characters beyond U+00FF: which are
    alphanumeric, and what [str.lower] and [str.upper] make of them.  The
    lower case of a character can depend on what stands around it (the
    capital sigma), so [lower_wide] is given the text before and the text
    after. *)
Class Unicode : Type := {
  alnum_wide : N -> bool;
  lower_wide : str -> N -> str -> str;
  upper_wide : N -> str
}.

(** A database with no letter beyond U+00FF, for examples on texts that
    have none. *)
Definition latin1_only : Unicode :=
  {| alnum_wide := fun _ => false;
     lower_wide := fun _ k _ => [Uni (k - 256)];
     upper_wide := fun k => [Uni (k - 256)] |}.

Section Classes.
Context {U : Unicode}.

(** [str.isalnum] on one character.  No white-space character is
    alphanumeric, and the four letters of [fold] are, in every version of
    the database. *)
Definition isalnum (c : uchar) : bool :=
  match c with
  | Ch _ => ascii_alnum c || latin1_alnum (ord c)
  | Uni _ =>
      if isspace c then false
      else ceqb c DOTTED_I || ceqb c DOTLESS_I || ceqb c LONG_S || ceqb c KELVIN
           || alnum_wide (ord c)
  end.

(** The class [\w]: alphanumeric or underscore. *)
Definition isword (c : uchar) : bool := isalnum c || (ord c =? 95)%N.

(** [str.lower] and [str.upper] on one character of U+0000 .. U+00FF. *)
Definition latin1_lower (c : uchar) : str :=
  if capital c || within 0xC0 0xD6 (ord c) || within 0xD8 0xDE (ord c)
  then [Ch (ascii_of_N (ord c + 32))] else [c].

Definition latin1_upper (c : uchar) : str :=
  if small c || within 0xE0 0xF6 (ord c) || within 0xF8 0xFE (ord c)
  then [Ch (ascii_of_N (ord c - 32))]
  else if (ord c =? 0xB5)%N then [Uni 0x29C]
  else if (ord c =? 0xDF)%N then [Ch "S"; Ch "S"]
  else if (ord c =? 0xFF)%N then [Uni 0x78]
  else [c].

(** [str.lower]; [before] is the text already passed. *)
Fixpoint lower_from (before s : str) : str :=
  match s with
  | [] => []
  | c :: after =>
      match c with
      | Ch _ => latin1_lower c
      | Uni _ => lower_wide before (ord c) after
      end ++ lower_from (before ++ [c]) after
  end.

Definition str_lower (s : str) : str := lower_from [] s.

(** [str.upper] *)
Definition upper_of (c : uchar) : str :=
  match c with
  | Ch _ => latin1_upper c
  | Uni _ => upper_wide (ord c)
  end.

Definition str_upper (s : str) : str := flat_map upper_of s.

End Classes.

(** ** Exceptions *)

Inductive exn : Type :=
| re_error (msg : string) (pos : nat)
    (** [re.error]: the pattern does not compile *)
| not_modelled (what : string)
    (** pattern syntax outside the fragment embedded here *)
| Exception (msg : string).
    (** any other exception (a failed statement, a lost connection) *)

Inductive result (A : Type) : Type :=
| Ok (a : A)
| Raise (e : exn).

Arguments Ok {A} a.
Arguments Raise {A} e.

Definition bind {A B : Type} (c : result A) (k : A -> result B) : result B :=
  match c with
  | Ok a => k a
  | Raise e => Raise e
  end.

Notation "x <- c ;; k" := (bind c (fun x => k))
  (at level 61, c at next level, right associativity).

(** [try: c  except Exception: return d] *)
Definition try_except {A : Type} (c : result A) (d : A) : A :=
  match c with
  | Ok a => a
  | Raise _ => d
  end.

(** ** The [re] module *)

Module Re.

Record flags : Type := Flags {
  IGNORECASE : bool;
  MULTILINE : bool;
  DOTALL : bool
}.

Definition NOFLAG : flags := Flags false false false.
Definition I : flags := Flags true false false.
Definition M : flags := Flags false true false.
Definition S_ : flags := Flags false false true.

(** A pattern item that consumes exactly one character. *)
Inductive cclass : Type :=
| CLit (c : uchar)          (** the character itself *)
| CAny                      (** [.] *)
| CSpace                    (** [\s] *)
| CWord                     (** [\w] *)
| CSet (cs : list uchar).   (** a set of literals *)

(** The compiled program: a sequence of items; a group is a pair of marks
    around its body. *)
Inductive item : Type :=
| One (c : cclass)
| Star (c : cclass)         (** [c*], greedy *)
| Plus (c : cclass)         (** [c+], greedy *)
| LazyStar (c : cclass)     (** [c*?] *)
| WordB                     (** [\b] *)
| Eol                       (** [$] *)
| Open (g : nat)
| Close (g : nat)
| Backref (g : nat).

Record program : Type := Program {
  code_of : list item;
  groups_of : nat
}.

(** *** Compiling a pattern *)

Inductive mode : Type :=
| Normal
| Escaped
| InSet (acc : list uchar)
| InSetEscaped (acc : list uchar).

Record pstate : Type := PState {
  ps_items : list item;     (** items so far, last first *)
  ps_open : list nat;       (** groups not closed yet, innermost first *)
  ps_groups : nat;          (** groups opened so far *)
  ps_mode : mode;
  ps_pos : nat
}.

Definition emit (st : pstate) (i : item) : pstate :=
  PState (i :: ps_items st) (ps_open st) (ps_groups st) Normal (S (ps_pos st)).

Definition set_mode (st : pstate) (m : mode) : pstate :=
  PState (ps_items st) (ps_open st) (ps_groups st) m (S (ps_pos st)).

Definition replace_last (st : pstate) (i : item) : pstate :=
  PState (i :: tl (ps_items st)) (ps_open st) (ps_groups st) Normal (S (ps_pos st)).

Definition repeat_item (st : pstate) (mk : cclass -> item) : result pstate :=
  match ps_items st with
  | One c :: _ => Ok (replace_last st (mk c))
  | [] | Open _ :: _ => Raise (re_error "nothing to repeat" (ps_pos st))
  | Star _ :: _ | Plus _ :: _ | LazyStar _ :: _ =>
      Raise (re_error "multiple repeat" (ps_pos st))
  | _ => Raise (not_modelled "repeated group or assertion")
  end.

Definition step_normal (st : pstate) (ch : uchar) : result pstate :=
  if ceqb ch BACKSLASH then Ok (set_mode st Escaped)
  else if ceqb ch "[" then Ok (set_mode st (InSet []))
  else if ceqb ch "(" then
    let g := S (ps_groups st) in
    Ok (PState (Open g :: ps_items st) (g :: ps_open st) g Normal (S (ps_pos st)))
  else if ceqb ch ")" then
    match ps_open st with
    | g :: rest =>
        Ok (PState (Close g :: ps_items st) rest (ps_groups st) Normal (S (ps_pos st)))
    | [] => Raise (re_error "unbalanced parenthesis" (ps_pos st))
    end
  else if ceqb ch "*" then repeat_item st Star
  else if ceqb ch "+" then repeat_item st Plus
  else if ceqb ch "?" then
    match ps_items st with
    | Star c :: _ => Ok (replace_last st (LazyStar c))
    | _ => Raise (not_modelled "? other than after *")
    end
  else if ceqb ch "." then Ok (emit st (One CAny))
  else if ceqb ch "$" then Ok (emit st Eol)
  else if ceqb ch "^" || ceqb ch "|" || ceqb ch "{" then
    Raise (not_modelled "anchor, alternation or counted repeat")
  else
    match ps_items st with
    | Backref _ :: _ =>
        if digit ch then Raise (not_modelled "two-digit group reference")
        else Ok (emit st (One (CLit ch)))
    | _ => Ok (emit st (One (CLit ch)))
    end.

Definition step_escaped (st : pstate) (ch : uchar) : result pstate :=
  if ceqb ch "b" then Ok (emit st WordB)
  else if ceqb ch "s" then Ok (emit st (One CSpace))
  else if ceqb ch "w" then Ok (emit st (One CWord))
  else if within 49 57 (ord ch) then
    let g := digit_value ch in
    if ps_groups st <? g then Raise (re_error "invalid group reference" (ps_pos st))
    else if existsb (Nat.eqb g) (ps_open st)
    then Raise (re_error "cannot refer to an open group" (ps_pos st))
    else Ok (emit st (Backref g))
  else if ascii_alnum ch then Raise (not_modelled "escape")
  else Ok (emit st (One (CLit ch))).

Definition step_set (st : pstate) (acc : list uchar) (ch : uchar) : result pstate :=
  if ceqb ch "]" then
    match acc with
    | [] => Raise (not_modelled "] first in a set")
    | _ => Ok (emit st (One (CSet (rev acc))))
    end
  else if ceqb ch BACKSLASH then Ok (set_mode st (InSetEscaped acc))
  else if ceqb ch "^" || ceqb ch "-" then Raise (not_modelled "negated set or range")
  else Ok (set_mode st (InSet (ch :: acc))).

Definition step_set_escaped (st : pstate) (acc : list uchar) (ch : uchar)
  : result pstate :=
  if ascii_alnum ch then Raise (not_modelled "escape in a set")
  else Ok (set_mode st (InSet (ch :: acc))).

Definition step (st : pstate) (ch : uchar) : result pstate :=
  match ps_mode st with
  | Normal => step_normal st ch
  | Escaped => step_escaped st ch
  | InSet acc => step_set st acc ch
  | InSetEscaped acc => step_set_escaped st acc ch
  end.

Fixpoint parse (st : pstate) (pattern : str) : result pstate :=
  match pattern with
  | [] => Ok st
  | ch :: pattern' => st' <- step st ch ;; parse st' pattern'
  end.

Definition finish (st : pstate) : result program :=
  match ps_mode st with
  | Escaped | InSetEscaped _ => Raise (re_error "bad escape (end of pattern)" (ps_pos st))
  | InSet _ => Raise (re_error "unterminated character set" (ps_pos st))
  | Normal =>
      match ps_open st with
      | [] => Ok (Program (rev (ps_items st)) (ps_groups st))
      | _ :: _ => Raise (re_error "missing ), unterminated subpattern" (ps_pos st))
      end
  end.

(** What [cmatch] writes out of [re.IGNORECASE]: ASCII literals, and no
    back-reference. *)
Definition ascii_only (c : cclass) : bool :=
  match c with
  | CLit x => (ord x <? 128)%N
  | CSet cs => forallb (fun x => (ord x <? 128)%N) cs
  | CAny | CSpace | CWord => true
  end.

Definition plain (i : item) : bool :=
  match i with
  | One c | Star c | Plus c | LazyStar c => ascii_only c
  | Backref _ => false
  | WordB | Eol | Open _ | Close _ => true
  end.

(** [re.compile(pattern, flags)] *)
Definition compile (pattern : str) (f : flags) : result program :=
  st <- parse (PState [] [] 0 Normal 0) pattern ;;
  prog <- finish st ;;
  if negb (IGNORECASE f) || forallb plain (code_of prog) then Ok prog
  else Raise (not_modelled "IGNORECASE with a back-reference or a literal beyond ASCII").

(** *** Matching *)

Section Matching.
Context {U : Unicode}.

Definition cmatch (f : flags) (c : cclass) (ch : uchar) : bool :=
  match c with
  | CLit x => if IGNORECASE f then ceqb (fold ch) (fold x) else ceqb ch x
  | CAny => DOTALL f || negb (ceqb ch NL)
  | CSpace => isspace ch
  | CWord => isword ch
  | CSet cs =>
      if IGNORECASE f then existsb (fun x => ceqb (fold ch) (fold x)) cs
      else existsb (ceqb ch) cs
  end.

Definition word_opt (c : option uchar) : bool :=
  match c with
  | Some ch => isword ch
  | None => false
  end.

(** [\b] between the character before ([prev]) and the text ahead. *)
Definition at_boundary (prev : option uchar) (rest : str) : bool :=
  xorb (word_opt prev) (word_opt (hd_error rest)).

(** [$]: at the end, or before the newline that ends the text; with
    MULTILINE before any newline. *)
Definition at_eol (f : flags) (rest : str) : bool :=
  match rest with
  | [] => true
  | ch :: t => ceqb ch NL && (MULTILINE f || match t with [] => true | _ => false end)
  end.

(** Marks: group [g] opens at mark [2g] and closes at mark [2g+1]; each
    records the number of characters matched so far. *)
Definition marks := list (nat * nat).

Fixpoint mark_at (m : nat) (mk : marks) : option nat :=
  match mk with
  | [] => None
  | (m', n) :: mk' => if m =? m' then Some n else mark_at m mk'
  end.

(** The text of group [g], cut from [start], the text at which the match
    began. *)
Definition group_text (start : str) (mk : marks) (g : nat) : option str :=
  match mark_at (2 * g) mk, mark_at (2 * g + 1) mk with
  | Some a, Some b => Some (firstn (b - a) (skipn a start))
  | _, _ => None
  end.

Section Loops.
Variable R : Type.
Variable test : uchar -> bool.
Variable k : option uchar -> nat -> str -> option R.

(** [c*]: as many characters as possible, giving back one at a time. *)
Fixpoint greedy (prev : option uchar) (n : nat) (rest : str) : option R :=
  match rest with
  | ch :: t =>
      if test ch then
        match greedy (Some ch) (S n) t with
        | Some r => Some r
        | None => k prev n rest
        end
      else k prev n rest
  | [] => k prev n rest
  end.

(** [c*?]: as few characters as possible, taking one more at a time. *)
Fixpoint lazy (prev : option uchar) (n : nat) (rest : str) : option R :=
  match k prev n rest with
  | Some r => Some r
  | None =>
      match rest with
      | ch :: t => if test ch then lazy (Some ch) (S n) t else None
      | [] => None
      end
  end.

(** A back-reference: the text [txt] again. *)
Fixpoint eat (same : uchar -> uchar -> bool) (txt : str)
         (prev : option uchar) (n : nat) (rest : str) : option R :=
  match txt with
  | [] => k prev n rest
  | x :: txt' =>
      match rest with
      | ch :: t => if same ch x then eat same txt' (Some ch) (S n) t else None
      | [] => None
      end
  end.
End Loops.

Definition same_char (f : flags) (a b : uchar) : bool :=
  if IGNORECASE f then ceqb (fold a) (fold b) else ceqb a b.

(** [run f start p prev n rest mk]: match program [p] against [rest], the
    text [n] characters into [start]; [prev] is the character just before
    [rest].  The result is the length of the match and its marks. *)
Fixpoint run (f : flags) (start : str) (p : list item)
         (prev : option uchar) (n : nat) (rest : str) (mk : marks)
  : option (nat * marks) :=
  match p with
  | [] => Some (n, mk)
  | One c :: p' =>
      match rest with
      | ch :: t => if cmatch f c ch then run f start p' (Some ch) (S n) t mk else None
      | [] => None
      end
  | Star c :: p' =>
      greedy (cmatch f c) (fun prev' n' rest' => run f start p' prev' n' rest' mk)
             prev n rest
  | Plus c :: p' =>
      match rest with
      | ch :: t =>
          if cmatch f c ch
          then greedy (cmatch f c) (fun prev' n' rest' => run f start p' prev' n' rest' mk)
                      (Some ch) (S n) t
          else None
      | [] => None
      end
  | LazyStar c :: p' =>
      lazy (cmatch f c) (fun prev' n' rest' => run f start p' prev' n' rest' mk)
           prev n rest
  | WordB :: p' =>
      if at_boundary prev rest then run f start p' prev n rest mk else None
  | Eol :: p' =>
      if at_eol f rest then run f start p' prev n rest mk else None
  | Open g :: p' => run f start p' prev n rest ((2 * g, n) :: mk)
  | Close g :: p' => run f start p' prev n rest ((2 * g + 1, n) :: mk)
  | Backref g :: p' =>
      match group_text start mk g with
      | Some txt =>
          eat (fun prev' n' rest' => run f start p' prev' n' rest' mk)
              (same_char f) txt prev n rest
      | None => None
      end
  end.

(** A match of the whole program where [rest] begins. *)
Definition match_here (f : flags) (p : list item) (prev : option uchar) (rest : str)
  : option (nat * marks) :=
  run f rest p prev 0 rest [].

(** A match object: where the match starts and ends in the subject, and the
    text of its groups. *)
Record Match : Type := MkMatch {
  m_start : nat;
  m_end : nat;
  m_group : nat -> option str
}.

Fixpoint search_from (f : flags) (p : list item)
         (prev : option uchar) (pos : nat) (rest : str) : option Match :=
  match match_here f p prev rest with
  | Some (n, mk) => Some (MkMatch pos (pos + n) (group_text rest mk))
  | None =>
      match rest with
      | [] => None
      | ch :: t => search_from f p (Some ch) (S pos) t
      end
  end.

(** [re.search(pattern, string, flags)] *)
Definition search (pattern : str) (s : str) (f : flags) : result (option Match) :=
  prog <- compile pattern f ;;
  Ok (search_from f (code_of prog) None 0 s).

(** *** Substitution *)

Inductive tpart : Type :=
| TLit (c : uchar)
| TGroup (g : nat).

(** The replacement template: [\1] ... [\9] stand for groups. *)
Fixpoint parse_template (groups : nat) (pos : nat) (repl : str) : result (list tpart) :=
  match repl with
  | [] => Ok []
  | ch :: repl' =>
      if ceqb ch BACKSLASH then
        match repl' with
        | [] => Raise (re_error "bad escape (end of pattern)" pos)
        | d :: repl'' =>
            if within 49 57 (ord d) then
              match repl'' with
              | d' :: _ =>
                  if digit d' then Raise (not_modelled "two-digit group reference")
                  else
                    if groups <? digit_value d
                    then Raise (re_error "invalid group reference" (S pos))
                    else t <- parse_template groups (S (S pos)) repl'' ;;
                         Ok (TGroup (digit_value d) :: t)
              | [] =>
                  if groups <? digit_value d
                  then Raise (re_error "invalid group reference" (S pos))
                  else Ok [TGroup (digit_value d)]
              end
            else Raise (not_modelled "escape in a template")
        end
      else t <- parse_template groups (S pos) repl' ;; Ok (TLit ch :: t)
  end.

(** A group that did not take part in the match expands to nothing. *)
Fixpoint expand (tpl : list tpart) (start : str) (mk : marks) : str :=
  match tpl with
  | [] => []
  | TLit c :: tpl' => c :: expand tpl' start mk
  | TGroup g :: tpl' =>
      match group_text start mk g with
      | Some txt => txt
      | None => []
      end ++ expand tpl' start mk
  end.

(** The replacement loop.  [budget] is the number of replacements still
    allowed ([None]: no limit); [skip] counts the characters of the last
    match that are still to be passed over. *)
Fixpoint sub_loop (f : flags) (p : list item) (tpl : list tpart)
         (budget : option nat) (prev : option uchar) (rest : str) (skip : nat) : str :=
  match skip with
  | S skip' =>
      match rest with
      | [] => []
      | ch :: t => sub_loop f p tpl budget (Some ch) t skip'
      end
  | O =>
      match (match budget with
             | Some O => None
             | _ => match_here f p prev rest
             end) with
      | Some (n, mk) =>
          expand tpl rest mk ++
          match rest with
          | [] => []
          | ch :: t =>
              match n with
              | O => ch :: sub_loop f p tpl (option_map pred budget) (Some ch) t 0
              | S n' => sub_loop f p tpl (option_map pred budget) (Some ch) t n'
              end
          end
      | None =>
          match rest with
          | [] => []
          | ch :: t => ch :: sub_loop f p tpl budget (Some ch) t 0
          end
      end
  end.

(** [re.sub(pattern, repl, string, count, flags)]; [count = 0] replaces
    every match. *)
Definition sub (pattern repl : str) (s : str) (count : nat) (f : flags) : result str :=
  prog <- compile pattern f ;;
  tpl <- parse_template (groups_of prog) 0 repl ;;
  Ok (sub_loop f (code_of prog) tpl
               (match count with O => None | _ => Some count end) None s 0).

End Matching.

End Re.

(** ** functools.lru_cache *)

Module Functools.
Section LruCache.
Variables K V St : Type.
Variable key_eqb : K -> K -> bool.
Variable maxsize : nat.

(** The entries, most recently used first, and the two counters of
    [cache_info()]. *)
Record cache : Type := Cache {
  entries : list (K * V);
  hits : nat;
  misses : nat
}.

Definition empty : cache := Cache [] 0 0.

Fixpoint find (k : K) (l : list (K * V)) : option V :=
  match l with
  | [] => None
  | (k', v) :: l' => if key_eqb k k' then Some v else find k l'
  end.

Fixpoint drop (k : K) (l : list (K * V)) : list (K * V) :=
  match l with
  | [] => []
  | (k', v) :: l' => if key_eqb k k' then l' else (k', v) :: drop k l'
  end.

(** One call of the wrapper around [f].  A hit returns the stored value
    and moves its entry to the front; a miss runs [f], stores what it
    returns and drops the entry used least recently when the cache is
    full.  A call of [f] that raises stores nothing. *)
Definition lru_cache (f : K -> St -> result V * St) (k : K) (c : cache) (s : St)
  : result V * cache * St :=
  match find k (entries c) with
  | Some v => (Ok v, Cache ((k, v) :: drop k (entries c)) (S (hits c)) (misses c), s)
  | None =>
      let (r, s') := f k s in
      match r with
      | Ok v =>
          (Ok v, Cache (firstn maxsize ((k, v) :: entries c)) (hits c) (S (misses c)), s')
      | Raise e => (Raise e, Cache (entries c) (hits c) (S (misses c)), s')
      end
  end.
End LruCache.
End Functools.

Section Program.
Context {U : Unicode}.

(** ** sqlAgent.py: the SQL rewriter *)

Definition truthy {A : Type} (m : option A) : bool :=
  match m with
  | Some _ => true
  | None => false
  end.

(** The two quote characters of the patterns, ['] and the double quote. *)
Definition QUOTES : str := [SQUOTE; DQUOTE].

Definition ADDED_DISTINCT : str :=
  py "Added DISTINCT to prevent duplicate rows from joins".

Definition MODIFIED_MATCHING : str :=
  py "Modified for case-insensitive and partial string matching".

(** [detect_and_handle_duplicates], lines 160-179 *)
Definition detect_and_handle_duplicates (query_text : str) : result (str * option str) :=
  has_joins <- Re.search (py "\bjoin\b") query_text Re.I ;;
  has_group_by <- Re.search (py "\bgroup\s+by\b") query_text Re.I ;;
  has_distinct <- Re.search (py "\bdistinct\b") query_text Re.I ;;
  if truthy has_joins && negb (truthy has_group_by) && negb (truthy has_distinct) then
    modified_query <- Re.sub (py "(SELECT\s+)") (py "\1DISTINCT ") query_text 1 Re.I ;;
    Ok (modified_query, Some ADDED_DISTINCT)
  else Ok (query_text, None).

(** [improve_string_matching], lines 181-199.  The pattern of the second
    substitution is the text of line 193, as it stands in the source. *)
Definition improve_string_matching (query_text : str) : result (str * option str) :=
  modified_query <-
    Re.sub (py "(\w+)\s*=\s*([\" ++ QUOTES ++ py "])(.*?)(\2)")
           (py "LOWER(\1) = LOWER(\2\3\4)")
           query_text 0 Re.NOFLAG ;;
  partial <-
    (if negb (contains (py "LIKE") (str_upper modified_query)) then
       m <- Re.search (py "\w+\s*=\s*[\" ++ QUOTES ++ py "]") modified_query Re.NOFLAG ;;
       Ok (truthy m)
     else Ok false) ;;
  if partial then
    modified_query <-
      Re.sub (py "LOWER\((\w+)\)\s*=\s*LOWER\([\" ++ QUOTES ++ py "])(.*?)([\"
                ++ QUOTES ++ py "])\)")
             (py "LOWER(\1) LIKE LOWER(\2%\3)")
             modified_query 0 Re.NOFLAG ;;
    Ok (modified_query, Some MODIFIED_MATCHING)
  else Ok (modified_query, None).

(** The fenced block of the agent's answer, [sql_agent] lines 317-319. *)
Definition extract_sql (content : str) : result (option str) :=
  sql_query_match <- Re.search (py "```sql\s+(.*?)\s+```") content Re.S_ ;;
  Ok (match sql_query_match with
      | Some m => option_map strip (Re.m_group m 1)
      | None => None
      end).

(** What the rewriter gives back: the SQL and the descriptions of the
    rewrites that fired. *)
Record RewriteResult : Type := MkRewrite {
  original_sql : str;
  rewritten_sql : str;
  transformations : list str
}.

Definition descriptions (a b : option str) : list str :=
  match a with Some x => [x] | None => [] end ++
  match b with Some x => [x] | None => [] end.

(** The two rewrites in sequence, [sql_agent] lines 321-322. *)
Definition rewrite (extracted_sql : str) : result RewriteResult :=
  r1 <- detect_and_handle_duplicates extracted_sql ;;
  r2 <- improve_string_matching (fst r1) ;;
  Ok (MkRewrite extracted_sql (fst r2) (descriptions (snd r1) (snd r2))).

(** ** sqlAgent.py: the query preprocessor *)

(** [preprocess_user_query], lines 201-210 *)
Definition preprocess_user_query (query : str) : result str :=
  let query := strip query in
  query <- Re.sub (py "\s+") (py " ") query 0 Re.NOFLAG ;;
  query <- Re.sub (py "--.*$") (py "") query 0 Re.M ;;
  query <- Re.sub (py "/\*.*?\*/") (py "") query 0 Re.S_ ;;
  Ok query.

(** ** The store and the process *)

(** A row of [PRAGMA table_info(t)]. *)
Record ColumnRow : Type := MkColumnRow {
  col_name : str;
  col_type : str;
  col_notnull : Z;
  col_dflt_value : option str;
  col_pk : Z
}.

(** A row of [PRAGMA foreign_key_list(t)]. *)
Record ForeignKeyRow : Type := MkForeignKeyRow {
  fk_from : str;
  fk_table : str;
  fk_to : option str
}.

(** A row of data.  The code only ever prints such a row; the model keeps
    the text [str(row)] gives. *)
Record Row : Type := MkRow { row_text : str }.

(** [sql_tool]: what [run_sql] answers, statement by statement. *)
Record SQLTools : Type := MkSQLTools {
  sqlite_master : result (list str);
    (** the [name]s of [SELECT name FROM sqlite_master WHERE type='table';] *)
  table_info : str -> result (list ColumnRow);
  foreign_key_list : str -> result (list ForeignKeyRow);
  run_sql : str -> result (list Row)
    (** any other statement *)
}.

(** The world outside the process at the time of a call. *)
Record World : Type := MkWorld {
  sql_tool : option SQLTools;
    (** [None]: SQLTools was not initialised *)
  sqlite3_count : str -> result Z;
    (** [SELECT COUNT( * ) FROM t] over a connection of its own *)
  agent_run : str -> result str * list str
    (** the language-model agent, which is given [sql_tool]: its answer to
        a prompt (or the exception it raises), and the statements its tool
        calls send to the store, in order *)
}.

Record ColumnInfo : Type := MkColumnInfo {
  name : str;
  type : str;
  primary_key : bool;
  nullable : bool;
  default_value : option str
}.

Record ForeignKeyInfo : Type := MkForeignKeyInfo {
  from : str;
  to_table : str;
  to_column : option str
}.

(** The value of one table in [schema_info]; the key ["sample_data"] is
    absent until the second loop of the builder adds it. *)
Record TableInfo : Type := MkTableInfo {
  columns : list ColumnInfo;
  foreign_keys : list ForeignKeyInfo;
  row_count : Z;
  sample_data : option (list Row)
}.

(** A dict from table names to table values, in insertion order. *)
Definition Snapshot := list (str * TableInfo).

Fixpoint dict_get (k : str) (d : Snapshot) : option TableInfo :=
  match d with
  | [] => None
  | (k', v) :: d' => if str_eqb k k' then Some v else dict_get k d'
  end.

(** [d[k] = v]: a key already there keeps its place. *)
Fixpoint dict_set (k : str) (v : TableInfo) (d : Snapshot) : Snapshot :=
  match d with
  | [] => [(k, v)]
  | (k', v') :: d' => if str_eqb k k' then (k, v) :: d' else (k', v') :: dict_set k v d'
  end.

(** A dict object: its identity and its contents. *)
Record SnapshotRef : Type := MkRef {
  ref_id : nat;
  ref_dict : Snapshot
}.

(** What the process has done to the outside so far. *)
Record Runtime : Type := MkRuntime {
  statements : list str;   (** statements sent to the store, last first *)
  allocated : nat          (** snapshot dicts created *)
}.

Definition IO (A : Type) : Type := Runtime -> result A * Runtime.

Definition ret {A : Type} (a : A) : IO A := fun rt => (Ok a, rt).

Definition io_bind {A B : Type} (c : IO A) (k : A -> IO B) : IO B :=
  fun rt =>
    match c rt with
    | (Ok a, rt') => k a rt'
    | (Raise e, rt') => (Raise e, rt')
    end.

Notation "x <~ c ;; k" := (io_bind c (fun x => k))
  (at level 61, c at next level, right associativity).

(** [try: c  except Exception as e: handler] *)
Definition attempt {A : Type} (c : IO A) (handler : exn -> IO A) : IO A :=
  fun rt =>
    match c rt with
    | (Ok a, rt') => (Ok a, rt')
    | (Raise e, rt') => handler e rt'
    end.

Definition logged (statement : str) (rt : Runtime) : Runtime :=
  MkRuntime (statement :: statements rt) (allocated rt).

(** Send [statement] to the store, which answers [answer]. *)
Definition exec {A : Type} (statement : str) (answer : result A) : IO A :=
  fun rt => (answer, logged statement rt).

(** A computation that sends nothing. *)
Definition pure {A : Type} (r : result A) : IO A := fun rt => (r, rt).

(** [agent.run(prompt)]: the statements of the agent reach the store, then
    its answer comes back or its exception is raised. *)
Definition agent (w : World) (prompt : str) : IO str :=
  fun rt =>
    (fst (agent_run w prompt),
     fold_left (fun rt' statement => logged statement rt') (snd (agent_run w prompt)) rt).

(** A new dict object for a snapshot. *)
Definition new_dict (d : Snapshot) : IO SnapshotRef :=
  fun rt => (Ok (MkRef (allocated rt) d), MkRuntime (statements rt) (S (allocated rt))).

Definition no_tool {A : Type} : result A :=
  Raise (Exception "'NoneType' object has no attribute 'run_sql'").

(** ** sqlAgent.py: the schema builder *)

(** [get_table_row_count], lines 138-150 *)
Definition get_table_row_count (w : World) (table_name : str) : IO Z :=
  attempt
    (exec (py "SELECT COUNT(*) FROM " ++ table_name) (sqlite3_count w table_name))
    (fun _ => ret 0%Z).

(** [get_table_sample_data], lines 152-158 *)
Definition get_table_sample_data (w : World) (table_name : str) (limit : nat)
  : IO (list Row) :=
  attempt
    (match sql_tool w with
     | Some tool =>
         let statement :=
           py "SELECT * FROM " ++ table_name ++ py " LIMIT " ++ str_of_Z (Z.of_nat limit) in
         exec statement (run_sql tool statement)
     | None => fun rt => (no_tool, rt)
     end)
    (fun _ => ret []).

Definition column_info (col : ColumnRow) : ColumnInfo :=
  MkColumnInfo (col_name col) (col_type col)
               (negb (col_pk col =? 0)%Z)
               (negb (negb (col_notnull col =? 0)%Z))
               (col_dflt_value col).

Definition foreign_key_info (fk : ForeignKeyRow) : ForeignKeyInfo :=
  MkForeignKeyInfo (fk_from fk) (fk_table fk) (fk_to fk).

(** The first loop of [get_table_schema], lines 100-126. *)
Fixpoint introspect_tables (w : World) (tool : SQLTools) (tables : list str)
         (schema_info : Snapshot) : IO Snapshot :=
  match tables with
  | [] => ret schema_info
  | table_name :: tables' =>
      columns <~ exec (py "PRAGMA table_info(" ++ table_name ++ py ")")
                      (table_info tool table_name) ;;
      foreign_keys <~ exec (py "PRAGMA foreign_key_list(" ++ table_name ++ py ")")
                           (foreign_key_list tool table_name) ;;
      count <~ get_table_row_count w table_name ;;
      introspect_tables w tool tables'
        (dict_set table_name
                  (MkTableInfo (map column_info columns)
                               (map foreign_key_info foreign_keys)
                               count None)
                  schema_info)
  end.

(** The second loop, lines 129-130: every table gets its sample data. *)
Fixpoint add_sample_data (w : World) (schema_info : Snapshot) : IO Snapshot :=
  match schema_info with
  | [] => ret []
  | (table_name, info) :: rest =>
      rows <~ get_table_sample_data w table_name 3 ;;
      rest' <~ add_sample_data w rest ;;
      ret ((table_name,
            MkTableInfo (columns info) (foreign_keys info) (row_count info) (Some rows))
             :: rest')
  end.

(** The body of [get_table_schema], lines 91-136; [cache_key] is not used
    by it. *)
Definition build_schema (w : World) (cache_key : option Z) : IO SnapshotRef :=
  match sql_tool w with
  | None => new_dict []
  | Some tool =>
      attempt
        (tables <~ exec (py "SELECT name FROM sqlite_master WHERE type='table';")
                        (sqlite_master tool) ;;
         schema_info <~ introspect_tables w tool tables [] ;;
         schema_info <~ add_sample_data w schema_info ;;
         new_dict schema_info)
        (fun _ => new_dict [])
  end.

(** ** The process-wide caches *)

Definition key_eqb (a b : option Z) : bool :=
  match a, b with
  | None, None => true
  | Some x, Some y => (x =? y)%Z
  | _, _ => false
  end.

Definition args_eqb (a b : str * str) : bool :=
  str_eqb (fst a) (fst b) && str_eqb (snd a) (snd b).

Definition SchemaCache := Functools.cache (option Z) SnapshotRef.
Definition ResultCache := Functools.cache (str * str) (option (list Row)).

Record Process : Type := MkProcess {
  schema_cache : SchemaCache;
  result_cache : ResultCache;
  runtime : Runtime
}.

Definition start : Process :=
  MkProcess (Functools.empty _ _) (Functools.empty _ _) (MkRuntime [] 0).

(** [get_table_schema] behind [@lru_cache(maxsize=32)], line 88 *)
Definition get_table_schema (w : World) (cache_key : option Z) (p : Process)
  : result SnapshotRef * Process :=
  let '(r, c, rt) :=
    Functools.lru_cache key_eqb 32 (build_schema w) cache_key
                        (schema_cache p) (runtime p) in
  (r, MkProcess c (result_cache p) rt).

(** The body of [cached_sql_results], lines 220-224 *)
Definition run_query (w : World) (args : str * str) : IO (option (list Row)) :=
  attempt
    (match sql_tool w with
     | Some tool => rows <~ exec (snd args) (run_sql tool (snd args)) ;; ret (Some rows)
     | None => fun rt => (no_tool, rt)
     end)
    (fun _ => ret None).

(** [cached_sql_results] behind [@lru_cache(maxsize=100)], line 217 *)
Definition cached_sql_results (w : World) (query_hash sql_query : str) (p : Process)
  : result (option (list Row)) * Process :=
  let '(r, c, rt) :=
    Functools.lru_cache args_eqb 100 (run_query w) (query_hash, sql_query)
                        (result_cache p) (runtime p) in
  (r, MkProcess (schema_cache p) c rt).

(** ** sqlAgent.py: the prompt composer *)

(** A block of lines, each ended by a newline. *)
Fixpoint text (ls : list string) : str :=
  match ls with
  | [] => []
  | l :: ls' => py l ++ [NL] ++ text ls'
  end.

(** The arrow of the relationship lines, U+2192. *)
Definition ARROW : str := [Uni 0x2092].

Definition KeyError (key : string) : exn := Exception key.

(** [if x] for an optional string: set and not empty. *)
Definition nonempty (x : option str) : bool :=
  match x with
  | Some (_ :: _) => true
  | _ => false
  end.

(** [f"{x}"] for an optional string *)
Definition format_opt (x : option str) : str :=
  match x with
  | Some s => s
  | None => py "None"
  end.

(** One line of the column list, lines 246-249. *)
Definition column_line (col : ColumnInfo) : str :=
  let pk_marker := if primary_key col then py " (PK)" else [] in
  let nullable := if nullable col then py " NULL" else py " NOT NULL" in
  let default :=
    if nonempty (default_value col)
    then py " DEFAULT " ++ format_opt (default_value col) else [] in
  py "- " ++ name col ++ py ": " ++ type col ++ pk_marker ++ nullable ++ default ++ [NL].

Definition foreign_key_line (fk : ForeignKeyInfo) : str :=
  py "- " ++ from fk ++ py " " ++ ARROW ++ py " " ++ to_table fk ++ py "."
     ++ format_opt (to_column fk) ++ [NL].

(** The loop over the sample rows, lines 261-266; [i] is the index of the
    first row of [rows] and [len] the length of the whole sample. *)
Fixpoint sample_lines (i len : nat) (rows : list Row) : str :=
  match rows with
  | [] => []
  | row :: rows' =>
      (if i =? 0 then py "```" ++ [NL] else []) ++
      row_text row ++ [NL] ++
      (if i =? len - 1 then py "```" ++ [NL] else []) ++
      sample_lines (S i) len rows'
  end.

(** The section of one table, lines 242-268. *)
Definition table_section (table_name : str) (table_info : TableInfo) : result str :=
  let head :=
    py "## Table: " ++ table_name ++ py " (" ++ str_of_Z (row_count table_info)
       ++ py " rows)" ++ [NL] ++
    py "### Columns:" ++ [NL] ++
    List.concat (map column_line (columns table_info)) ++
    match foreign_keys table_info with
    | [] => []
    | fks => py "### Relationships:" ++ [NL] ++ List.concat (map foreign_key_line fks)
    end in
  match sample_data table_info with
  | None => Raise (KeyError "'sample_data'")
  | Some sample =>
      Ok (head ++
          match sample with
          | [] => []
          | _ => py "### Sample Data:" ++ [NL] ++ sample_lines 0 (List.length sample) sample
          end ++ [NL])
  end.

(** [schema_prompt], lines 240-268 *)
Fixpoint table_sections (schema_info : Snapshot) : result str :=
  match schema_info with
  | [] => Ok []
  | (table_name, table_info) :: rest =>
      s <- table_section table_name table_info ;;
      r <- table_sections rest ;;
      Ok (s ++ r)
  end.

Definition schema_prompt (schema_info : Snapshot) : result str :=
  s <- table_sections schema_info ;;
  Ok (py "# Database Schema" ++ [NL; NL] ++ s).

(** [prompt_guidance], lines 271-291 *)
Definition prompt_guidance : str :=
  [NL] ++ text [
    "# Query Requirements:";
    "1. ALWAYS use DISTINCT when performing JOINs to avoid duplicate rows";
    "2. Use LOWER() function for case-insensitive string comparisons ";
    "3. Use LIKE with wildcards (%) for partial string matching";
    "4. Format dates consistently using strftime() function";
    "5. When appropriate, include GROUP BY for aggregation";
    "6. Use meaningful column aliases for better readability";
    "7. Convert raw data into insights when appropriate";
    "8. Limit result sets to a reasonable size (max 100 rows)";
    "9. Add proper error handling for empty result sets";
    "";
    "# Response Format:";
    "0. explanation must should be in normal formate and normal english give space between each word";
    "1. A brief explanation of how you're approaching the question";
    "2. The SQL query (clearly formatted and with comments)";
    "3. The results in a clean, readable format (use markdown tables for structured data)";
    "4. A plain language explanation of what the results mean";
    "5. (If applicable) Data quality issues identified in the results";
    "6. (If applicable) Recommendations based on the data"
  ]%string.

(** What follows the question in the prompt, lines 299-302. *)
Definition closing_instructions : str :=
  [NL] ++ text [
    "";
    "Respond with the information requested using the format above. Be thorough but concise. ";
    "Explain medical terminology and SQL concepts in simple terms that non-technical users can understand."
  ]%string.

(** [combined_query], lines 293-302 *)
Definition build_prompt (schema_info : Snapshot) (query : str) : result str :=
  schema_prompt <- schema_prompt schema_info ;;
  Ok ([NL] ++ schema_prompt ++ [NL] ++
      [NL] ++ prompt_guidance ++ [NL] ++
      [NL] ++ py "User Query: " ++ query ++ closing_instructions).

(** ** sqlAgent.py: the insight annotator and the caller-facing function *)

(** [add_data_quality_insights], lines 362-393 *)
Definition add_data_quality_insights (content : str) : str :=
  let has_empty_results :=
    contains (py "no results") (str_lower content)
    || contains (py "no rows") (str_lower content) in
  let has_many_results :=
    contains (py "many results") (str_lower content)
    || contains (py "large number") (str_lower content) in
  let insights :=
    if has_empty_results then
      [NL] ++ text [
        "### Data Quality Note";
        "No results were found. This could be due to:";
        "- The search criteria being too specific";
        "- Possible data entry inconsistencies in the database";
        "- The information may not be recorded in the system";
        "";
        "Consider broadening your search terms or checking alternative spellings."
      ]%string
    else if has_many_results then
      [NL] ++ text [
        "### Data Interpretation Note";
        "A large number of results were returned. Consider:";
        "- Adding more specific filters to narrow your search";
        "- Looking for patterns or trends in the data rather than individual records";
        "- Exporting the results for further analysis if needed"
      ]%string
    else [] in
  match insights with
  | [] => content
  | _ => content ++ insights
  end.

(** [str(e)] *)
Definition str_of_exn (e : exn) : str :=
  match e with
  | re_error msg pos => py msg ++ py " at position " ++ str_of_Z (Z.of_nat pos)
  | not_modelled what => py what
  | Exception msg => py msg
  end.

(** The answer of the [except] branch of [sql_agent], lines 348-360. *)
Definition error_answer (e : exn) : str :=
  [NL] ++ text ["## Error Processing Query"; ""]%string ++
  py "I encountered an issue while processing your question: `" ++ str_of_exn e
     ++ py "`" ++ [NL] ++
  text [
    "";
    "### Troubleshooting suggestions:";
    "1. Try rephrasing your question with more specific details";
    "2. Check if you're referring to tables or columns that exist in the database";
    "3. If asking about specific values, double-check spellings and formatting";
    "4. For complex questions, try breaking them down into simpler parts";
    "";
    "If the problem persists, please contact technical support."
  ]%string.

(** The [try] block of [sql_agent], lines 306-345: the agent is run on the
    prompt, the SQL of its answer is rewritten (the rewritten SQL is not
    put back into the answer), and the answer is annotated. *)
Definition run_agent (w : World) (combined_query : str) : IO str :=
  content <~ agent w combined_query ;;
  sql_query_match <~ pure (extract_sql content) ;;
  _ <~ pure match sql_query_match with
            | Some extracted_sql => r <- rewrite extracted_sql ;; Ok tt
            | None => Ok tt
            end ;;
  ret (add_data_quality_insights content).

(** [sql_agent], lines 226-360; [now] is [time.time()] in whole seconds. *)
Definition sql_agent (w : World) (now : Z) (query : str) (p : Process)
  : result str * Process :=
  match sql_tool w with
  | None =>
      (Ok (py "Database connection failed. Please check that the database exists and is properly initialized."), p)
  | Some _ =>
      match preprocess_user_query query with
      | Raise e => (Raise e, p)
      | Ok query =>
          match get_table_schema w (Some (now / (60 * 5))%Z) p with
          | (Raise e, p') => (Raise e, p')
          | (Ok schema_info, p') =>
              match ref_dict schema_info with
              | [] =>
                  (Ok (py "Failed to retrieve database schema. Check database connection and initialization."), p')
              | _ =>
                  match build_prompt (ref_dict schema_info) query with
                  | Raise e => (Raise e, p')
                  | Ok combined_query =>
                      let (r, rt) := run_agent w combined_query (runtime p') in
                      (Ok (match r with
                           | Ok answer => answer
                           | Raise e => error_answer e
                           end),
                       MkProcess (schema_cache p') (result_cache p') rt)
                  end
              end
          end
      end
  end.

(** ** What the claims speak of *)

Definition JOIN : str := py "\bjoin\b".
Definition GROUP_BY : str := py "\bgroup\s+by\b".
Definition DISTINCT : str := py "\bdistinct\b".
Definition SELECT : str := py "(SELECT\s+)".

(** An equality against a quoted literal, the pattern of line 191. *)
Definition QUOTED_EQUALITY : str := py "\w+\s*=\s*[\" ++ QUOTES ++ py "]".

(** The pattern matches somewhere in [s], or nowhere. *)
Definition found (pattern s : str) (f : Re.flags) : Prop :=
  exists m, Re.search pattern s f = Ok (Some m).

Definition absent (pattern s : str) (f : Re.flags) : Prop :=
  Re.search pattern s f = Ok None.

(** The number of matches, one after the other, as [re.findall] finds
    them. *)
Fixpoint count_loop (f : Re.flags) (p : list Re.item)
         (prev : option uchar) (rest : str) (skip : nat) : nat :=
  match skip with
  | S skip' =>
      match rest with
      | [] => 0
      | ch :: t => count_loop f p (Some ch) t skip'
      end
  | O =>
      match Re.match_here f p prev rest with
      | Some (n, _) =>
          S match rest with
            | [] => 0
            | ch :: t => count_loop f p (Some ch) t (pred n)
            end
      | None =>
          match rest with
          | [] => 0
          | ch :: t => count_loop f p (Some ch) t 0
          end
      end
  end.


(** The text has no comment syntax: no [--] and no opening of a block
    comment. *)
Definition comment_free (q : str) : Prop :=
  contains (py "--") q = false /\ contains (py "/*") q = false.

(** Every table of the snapshot has its sample data. *)
Definition complete (schema_info : Snapshot) : Prop :=
  forall table_name info, In (table_name, info) schema_info -> sample_data info <> None.

(** A store whose every statement fails, a store without tables, and a
    world around a store. *)
Definition failure {A : Type} : result A := Raise (Exception "database is locked").

Definition broken_store : SQLTools :=
  MkSQLTools failure (fun _ => failure) (fun _ => failure) (fun _ => failure).

Definition world_of (tool : SQLTools) : World :=
  MkWorld (Some tool) (fun _ => Ok 0%Z) (fun _ => (Ok [], [])).

(** ** Auxiliary notions for the proofs *)

(** The character before the text that follows [l], when [prev] is the one
    before [l]. *)
Fixpoint last_opt (prev : option uchar) (l : str) : option uchar :=
  match l with
  | [] => prev
  | c :: l' => last_opt (Some c) l'
  end.

Fixpoint takewhile (test : uchar -> bool) (s : str) : str :=
  match s with
  | c :: s' => if test c then c :: takewhile test s' else []
  | [] => []
  end.

Fixpoint dropwhile (test : uchar -> bool) (s : str) : str :=
  match s with
  | c :: s' => if test c then dropwhile test s' else s
  | [] => []
  end.

(** The program of a literal word. *)
Definition lits (w : str) : list Re.item := map (fun c => Re.One (Re.CLit c)) w.

(** The text begins with the word [w], read with the flags [f]; what is
    left of it. *)
Fixpoint eat_lits (f : Re.flags) (w : str) (rest : str) : option str :=
  match w with
  | [] => Some rest
  | x :: w' =>
      match rest with
      | ch :: t => if Re.cmatch f (Re.CLit x) ch then eat_lits f w' t else None
      | [] => None
      end
  end.

(** White space collapsed: every run becomes one space; [in_run] tells
    that the space of the current run is already out. *)
Fixpoint collapse (in_run : bool) (s : str) : str :=
  match s with
  | [] => []
  | c :: s' =>
      if isspace c then (if in_run then [] else [Ch " "]) ++ collapse true s'
      else c :: collapse false s'
  end.

(** The marks taken out of a program. *)
Fixpoint unmark (p : list Re.item) : list Re.item :=
  match p with
  | [] => []
  | Re.Open _ :: p' | Re.Close _ :: p' => unmark p'
  | i :: p' => i :: unmark p'
  end.

Fixpoint no_backref (p : list Re.item) : bool :=
  match p with
  | [] => true
  | Re.Backref _ :: _ => false
  | _ :: p' => no_backref p'
  end.

(** No match of [p] begins inside [l1], in the text [l1 ++ l2] that
    follows [prev]. *)
Definition unmatched (f : Re.flags) (p : list Re.item)
           (prev : option uchar) (l1 l2 : str) : Prop :=
  forall a b, l1 = a ++ b -> b <> [] ->
              Re.match_here f p (last_opt prev a) (b ++ l2) = None.

(** No match of [p] begins anywhere in [rest], its end included. *)
Definition matchless (f : Re.flags) (p : list Re.item)
           (prev : option uchar) (rest : str) : Prop :=
  forall l1 l2, rest = l1 ++ l2 -> Re.match_here f p (last_opt prev l1) l2 = None.

(** The word [w], between word boundaries, begins the text [rest]. *)
Definition word_here (f : Re.flags) (w : str) (prev : option uchar) (rest : str) : bool :=
  Re.at_boundary prev rest &&
  match eat_lits f w rest with
  | Some rest' => Re.at_boundary (last_opt prev (firstn (length w) rest)) rest'
  | None => false
  end.

(** Every white-space character of the text is a single space, none next
    to another; [after_space] tells that a space comes just before. *)
Fixpoint tidy (after_space : bool) (s : str) : bool :=
  match s with
  | [] => true
  | c :: s' =>
      if isspace c then ceqb c " " && negb after_space && tidy true s'
      else tidy false s'
  end.

(** What the builder records for a table: the answers of the store where
    they came, and the fall-back values of the two helpers where they did
    not. *)
Definition counted (w : World) (table_name : str) : Z :=
  try_except (sqlite3_count w table_name) 0%Z.

Definition sampled (w : World) (table_name : str) : list Row :=
  match sql_tool w with
  | Some tool => try_except (run_sql tool (py "SELECT * FROM " ++ table_name ++ py " LIMIT 3")) []
  | None => []
  end.

Definition first_entry (w : World) (tool : SQLTools) (table_name : str) : TableInfo :=
  MkTableInfo (map column_info (try_except (table_info tool table_name) []))
              (map foreign_key_info (try_except (foreign_key_list tool table_name) []))
              (counted w table_name) None.

Definition with_sample (w : World) (entry : str * TableInfo) : str * TableInfo :=
  (fst entry,
   MkTableInfo (columns (snd entry)) (foreign_keys (snd entry)) (row_count (snd entry))
               (Some (sampled w (fst entry)))).

(** The store answers both introspection statements for the table. *)
Definition introspectable (tool : SQLTools) (table_name : str) : Prop :=
  (exists cols, table_info tool table_name = Ok cols)
  /\ (exists fks, foreign_key_list tool table_name = Ok fks).

(** The annotations of a column line: the marks that follow the type. *)
Definition annotations (col : ColumnInfo) : str :=
  (if primary_key col then py " (PK)" else []) ++
  (if nullable col then py " NULL" else py " NOT NULL") ++
  (if nonempty (default_value col)
   then py " DEFAULT " ++ format_opt (default_value col) else []).

(** The snapshot of the scenario: the table [purchase_orders] of the
    seeding script, as SQLite describes it. *)
Definition purchase_orders_snapshot : Snapshot :=
  [(py "purchase_orders",
    MkTableInfo
      [MkColumnInfo (py "id") (py "INTEGER") true true None;
       MkColumnInfo (py "po_number") (py "VARCHAR(50)") false true None;
       MkColumnInfo (py "date") (py "DATE") false true None;
       MkColumnInfo (py "vendor") (py "VARCHAR(100)") false true None;
       MkColumnInfo (py "total_amount") (py "REAL") false true None]
      [] 3 (Some []))].

(** A world for the scenarios: the store has the table [purchase_orders],
    and the agent answers with the given text. *)
Definition scenario_world (answer : str) : World :=
  MkWorld (Some (MkSQLTools (Ok [py "purchase_orders"])
                            (fun _ => Ok [MkColumnRow (py "vendor") (py "VARCHAR(100)") 0 None 0])
                            (fun _ => Ok []) (fun _ => Ok [])))
          (fun _ => Ok 3%Z)
          (fun _ => (Ok answer, [])).

(** ** Further notions for the properties of the code *)

(** The two advisory blocks of [add_data_quality_insights]. *)
Definition DATA_QUALITY_NOTE : str :=
  [NL] ++ text [
    "### Data Quality Note";
    "No results were found. This could be due to:";
    "- The search criteria being too specific";
    "- Possible data entry inconsistencies in the database";
    "- The information may not be recorded in the system";
    "";
    "Consider broadening your search terms or checking alternative spellings."
  ]%string.

Definition DATA_INTERPRETATION_NOTE : str :=
  [NL] ++ text [
    "### Data Interpretation Note";
    "A large number of results were returned. Consider:";
    "- Adding more specific filters to narrow your search";
    "- Looking for patterns or trends in the data rather than individual records";
    "- Exporting the results for further analysis if needed"
  ]%string.

(** The text speaks of an empty result, or of a large one. *)
Definition says_empty (content : str) : bool :=
  contains (py "no results") (str_lower content)
  || contains (py "no rows") (str_lower content).

Definition says_many (content : str) : bool :=
  contains (py "many results") (str_lower content)
  || contains (py "large number") (str_lower content).

(** The pattern of the fenced block, line 317. *)
Definition FENCE : str := py "```sql\s+(.*?)\s+```".

(** A white-space character of the text can only be the space. *)
Definition spaces_only (s : str) : Prop :=
  Forall (fun c => isspace c = true -> c = Ch " ") s.

(** A statement that only reads: a [SELECT] or a [PRAGMA]. *)
Definition read_only (statement : str) : bool :=
  starts_with (py "SELECT ") statement || starts_with (py "PRAGMA ") statement.

(** [rt'] is [rt] after some more statements, all of which only read. *)
Definition only_read (rt rt' : Runtime) : Prop :=
  exists new, statements rt' = new ++ statements rt
              /\ Forall (fun s => read_only s = true) new.

(** Every snapshot held by the schema cache has the sample data of all its
    tables. *)
Definition cache_complete (p : Process) : Prop :=
  forall k r, In (k, r) (Functools.entries (schema_cache p)) -> complete (ref_dict r).

(** The text of the sample section for [rows]: the rows between two
    fences. *)
Definition fenced (rows : list Row) : str :=
  py "```" ++ [NL] ++ List.concat (map (fun row => row_text row ++ [NL]) rows)
     ++ py "```" ++ [NL].

(** The two fixed answers of [sql_agent] given before any prompt is made. *)
Definition NO_CONNECTION : str :=
  py "Database connection failed. Please check that the database exists and is properly initialized.".

Definition NO_SCHEMA : str :=
  py "Failed to retrieve database schema. Check database connection and initialization.".

(** Neither cache holds more entries than its [maxsize]. *)
Definition within_capacity (p : Process) : Prop :=
  length (Functools.entries (schema_cache p)) <= 32
  /\ length (Functools.entries (result_cache p)) <= 100.
(** The buckets for which the schema cache holds a snapshot. *)
Definition cached_buckets (p : Process) : list (option Z) :=
  map fst (Functools.entries (schema_cache p)).

(** The build cannot succeed: SQLTools was not initialised, or the list of
    tables cannot be read, or the store does not answer one of the two
    introspection statements for a table it lists. *)
Definition build_fails (w : World) : Prop :=
  match sql_tool w with
  | None => True
  | Some tool =>
      match sqlite_master tool with
      | Raise _ => True
      | Ok tables => Exists (fun t => ~ introspectable tool t) tables
      end
  end.

(** The calls [calls] of [get_table_schema], each in the world of its time
    and with its key, made one after the other from [p]: every one of them
    for the key [b] returns the object [r] and sends nothing to the store. *)
Fixpoint memoized (b : option Z) (r : SnapshotRef) (calls : list (World * option Z))
         (p : Process) : Prop :=
  match calls with
  | [] => True
  | (w, k) :: calls' =>
      (k = b -> fst (get_table_schema w k p) = Ok r
                /\ runtime (snd (get_table_schema w k p)) = runtime p)
      /\ memoized b r calls' (snd (get_table_schema w k p))
  end.

(** A character of U+0000 .. U+00FF. *)
Definition narrow (c : uchar) : bool :=
  match c with
  | Ch _ => true
  | Uni _ => false
  end.


End Program.

(** The entry of [b] is in the cache [c], and the entries used after it are
    for keys of [ks], one each. *)
Definition anchored (K V : Type) (ks : list K) (b : K) (r : V)
           (c : Functools.cache K V) : Prop :=
  exists front back,
    Functools.entries c = front ++ (b, r) :: back
    /\ NoDup (map fst front) /\ incl (map fst front) ks /\ ~ In b (map fst front).
(** * Properties *)

Section Properties.
Context {db : Unicode}.

(** ** The patterns of the source *)

Lemma compile_JOIN :
  Re.compile JOIN Re.I = Ok (Re.Program (Re.WordB :: lits (py "join") ++ [Re.WordB]) 0).
Proof. reflexivity. Qed.

Lemma compile_DISTINCT :
  Re.compile DISTINCT Re.I = Ok (Re.Program (Re.WordB :: lits (py "distinct") ++ [Re.WordB]) 0).
Proof. reflexivity. Qed.

Lemma compile_GROUP_BY :
  Re.compile GROUP_BY Re.I
  = Ok (Re.Program (Re.WordB :: lits (py "group") ++ Re.Plus Re.CSpace
                             :: lits (py "by") ++ [Re.WordB]) 0).
Proof. reflexivity. Qed.

Lemma compile_SELECT :
  Re.compile SELECT Re.I
  = Ok (Re.Program (Re.Open 1 :: lits (py "SELECT") ++ [Re.Plus Re.CSpace; Re.Close 1]) 1).
Proof. reflexivity. Qed.

Lemma compile_QUOTED_EQUALITY :
  Re.compile QUOTED_EQUALITY Re.NOFLAG
  = Ok (Re.Program [Re.Plus Re.CWord; Re.Star Re.CSpace; Re.One (Re.CLit "=");
                    Re.Star Re.CSpace; Re.One (Re.CSet QUOTES)] 0).
Proof. reflexivity. Qed.

(** The pattern of the first substitution of [improve_string_matching]. *)
Lemma compile_equality :
  Re.compile (py "(\w+)\s*=\s*([\" ++ QUOTES ++ py "])(.*?)(\2)") Re.NOFLAG
  = Ok (Re.Program
          ([Re.Open 1; Re.Plus Re.CWord; Re.Close 1; Re.Star Re.CSpace;
            Re.One (Re.CLit "="); Re.Star Re.CSpace;
            Re.Open 2; Re.One (Re.CSet QUOTES); Re.Close 2]
           ++ [Re.Open 3; Re.LazyStar Re.CAny; Re.Close 3;
               Re.Open 4; Re.Backref 2; Re.Close 4]) 4).
Proof. reflexivity. Qed.

(** The pattern of line 193 does not compile: its fourth [)] closes no
    group. *)
Lemma compile_line_193 :
  Re.compile (py "LOWER\((\w+)\)\s*=\s*LOWER\([\" ++ QUOTES ++ py "])(.*?)([\"
                ++ QUOTES ++ py "])\)") Re.NOFLAG
  = Raise (re_error "unbalanced parenthesis" 33).
Proof. reflexivity. Qed.

Lemma compile_spaces :
  Re.compile (py "\s+") Re.NOFLAG = Ok (Re.Program [Re.Plus Re.CSpace] 0).
Proof. reflexivity. Qed.

Lemma compile_line_comment :
  Re.compile (py "--.*$") Re.M
  = Ok (Re.Program (lits (py "--") ++ [Re.Star Re.CAny; Re.Eol]) 0).
Proof. reflexivity. Qed.

Lemma compile_block_comment :
  Re.compile (py "/\*.*?\*/") Re.S_
  = Ok (Re.Program (lits (py "/*") ++ Re.LazyStar Re.CAny :: lits (py "*/")) 0).
Proof. reflexivity. Qed.

(** ** Scenarios *)

(** C7. On the scenario of the specification the preprocessor returns
    ["Show revenue "]: the white space is collapsed first, so the line
    comment runs to the end of the text and takes [this quarter] with it. *)
Theorem preprocess_scenario_loses_text :
  preprocess_user_query
    (py "Show revenue   " ++ [NL] ++ py "-- comment" ++ [NL] ++ py " this quarter")
  = Ok (py "Show revenue ").
Proof. vm_compute. reflexivity. Qed.

(** C3. On a statement with an unterminated literal the rewriter raises
    [re.error]: the second substitution of [improve_string_matching] is
    reached and its pattern does not compile. *)
Theorem rewrite_raises_on_unterminated_literal :
  rewrite (py "SELECT name FROM purchase_orders WHERE vendor = 'Medline")
  = Raise (re_error "unbalanced parenthesis" 33).
Proof. vm_compute. reflexivity. Qed.

Arguments py : simpl never.
Arguments Re.cmatch : simpl never.
Arguments Re.at_boundary : simpl never.
Arguments Re.at_eol : simpl never.

(** ** Characters *)

Ltac by_cases_on_byte a :=
  destruct a as [[] [] [] [] [] [] [] []]; vm_compute;
  repeat split; intros; first [reflexivity | discriminate | congruence].

Lemma ceqb_eq (a b : uchar) : ceqb a b = true <-> a = b.
Proof.
  destruct a as [x|n], b as [y|m]; simpl.
  - rewrite Ascii.eqb_eq. split; congruence.
  - split; discriminate.
  - split; discriminate.
  - rewrite N.eqb_eq. split; congruence.
Qed.

Lemma ceqb_refl (a : uchar) : ceqb a a = true.
Proof. apply ceqb_eq. reflexivity. Qed.

Lemma ceqb_neq (a b : uchar) : ceqb a b = false <-> a <> b.
Proof.
  destruct (ceqb a b) eqn:E.
  - apply ceqb_eq in E. split; [discriminate | congruence].
  - split; [|reflexivity]. intros _ H. apply ceqb_eq in H. congruence.
Qed.

Lemma uchar_dec (a b : uchar) : {a = b} + {a <> b}.
Proof.
  destruct (ceqb a b) eqn:E.
  - left. apply ceqb_eq, E.
  - right. apply ceqb_neq, E.
Defined.

(** The characters beyond U+00FF are out of every range below it. *)
Lemma within_wide (lo hi n : N) : (hi < 256)%N -> within lo hi (ord (Uni n)) = false.
Proof.
  intros H. unfold within, ord. apply andb_false_iff. right. apply N.leb_gt. lia.
Qed.

Lemma ord_wide (k n : N) : (k < 256)%N -> (ord (Uni n) =? k)%N = false.
Proof. intros H. unfold ord. apply N.eqb_neq. lia. Qed.

Lemma small_wide (n : N) : small (Uni n) = false.
Proof. apply within_wide. reflexivity. Qed.

Lemma capital_wide (n : N) : capital (Uni n) = false.
Proof. apply within_wide. reflexivity. Qed.

(** What [fold] does to a character beyond U+00FF. *)
Lemma fold_wide (n : N) :
  (Uni n = DOTTED_I \/ Uni n = DOTLESS_I \/ Uni n = LONG_S \/ Uni n = KELVIN)
  \/ fold (Uni n) = Uni n.
Proof.
  unfold fold. rewrite capital_wide.
  destruct (ceqb (Uni n) DOTTED_I) eqn:E1; [apply ceqb_eq in E1; auto|].
  destruct (ceqb (Uni n) DOTLESS_I) eqn:E2; [apply ceqb_eq in E2; auto|].
  destruct (ceqb (Uni n) LONG_S) eqn:E3; [apply ceqb_eq in E3; auto|].
  destruct (ceqb (Uni n) KELVIN) eqn:E4; [apply ceqb_eq in E4; auto|].
  right. reflexivity.
Qed.

Lemma space_not_word (c : uchar) : isspace c = true -> isword c = false.
Proof.
  destruct c as [a|n].
  - by_cases_on_byte a.
  - intros H. unfold isword, isalnum. rewrite H, ord_wide by reflexivity. reflexivity.
Qed.

(** A character that is taken for a small letter when case is ignored is a
    word character. *)
Lemma letter_is_word (c : uchar) :
  small (fold c) = true -> isword c = true.
Proof.
  destruct c as [a|n].
  - by_cases_on_byte a.
  - destruct (fold_wide n) as [[E|[E|[E|E]]]|E]; rewrite E; try reflexivity.
    rewrite small_wide. discriminate.
Qed.

(** A small letter is what it is taken for. *)
Lemma fold_small (c : uchar) : small c = true -> fold c = c.
Proof.
  destruct c as [a|n].
  - by_cases_on_byte a.
  - rewrite small_wide. discriminate.
Qed.

(** ** Lists of characters *)

Lemma last_opt_app prev (a b : str) :
  last_opt prev (a ++ b) = last_opt (last_opt prev a) b.
Proof. revert prev; induction a as [|c a IH]; intros prev; simpl; auto. Qed.

Lemma last_opt_snoc prev (a : str) (c : uchar) : last_opt prev (a ++ [c]) = Some c.
Proof. rewrite last_opt_app. reflexivity. Qed.

Lemma take_drop_while (test : uchar -> bool) (s : str) :
  s = takewhile test s ++ dropwhile test s.
Proof.
  induction s as [|c s IH]; simpl; auto.
  destruct (test c); simpl; congruence.
Qed.

Lemma takewhile_all (test : uchar -> bool) (s : str) :
  forallb test (takewhile test s) = true.
Proof.
  induction s as [|c s IH]; simpl; auto.
  destruct (test c) eqn:E; simpl; auto. rewrite E. exact IH.
Qed.

Lemma dropwhile_head (test : uchar -> bool) (s : str) (c : uchar) (t : str) :
  dropwhile test s = c :: t -> test c = false.
Proof.
  induction s as [|x s IH]; simpl; try discriminate.
  destruct (test x) eqn:E; auto. intros H; injection H as -> _. exact E.
Qed.

(** ** The matcher *)

Lemma eat_lits_app (f : Re.flags) (w rest rest' : str) :
  eat_lits f w rest = Some rest' ->
  exists u, rest = u ++ rest' /\ length u = length w
            /\ Forall2 (fun ch x => Re.cmatch f (Re.CLit x) ch = true) u w.
Proof.
  revert rest; induction w as [|x w IH]; intros rest H; simpl in H.
  - injection H as <-. exists []. repeat split; constructor.
  - destruct rest as [|ch t]; try discriminate.
    destruct (Re.cmatch f (Re.CLit x) ch) eqn:E; try discriminate.
    destruct (IH _ H) as (u & -> & L & F).
    exists (ch :: u). simpl. repeat split; auto.
Qed.

Lemma eat_lits_intro (f : Re.flags) (w u rest' : str) :
  Forall2 (fun ch x => Re.cmatch f (Re.CLit x) ch = true) u w ->
  eat_lits f w (u ++ rest') = Some rest'.
Proof.
  induction 1 as [|ch x u w E F IH]; simpl; auto.
  rewrite E. exact IH.
Qed.

Lemma run_lits (f : Re.flags) (start w : str) (p : list Re.item)
      prev (n : nat) (rest : str) (mk : Re.marks) :
  Re.run f start (lits w ++ p) prev n rest mk =
  match eat_lits f w rest with
  | Some rest' =>
      Re.run f start p (last_opt prev (firstn (length w) rest)) (n + length w) rest' mk
  | None => None
  end.
Proof.
  revert prev n rest; induction w as [|x w IH]; intros prev n rest; simpl.
  - rewrite Nat.add_0_r. reflexivity.
  - destruct rest as [|ch t]; auto.
    destruct (Re.cmatch f (Re.CLit x) ch); auto.
    rewrite IH. simpl. rewrite Nat.add_succ_r. reflexivity.
Qed.

(** A greedy loop whose continuation accepts the longest run stops there. *)
Lemma greedy_max (R : Type) (test : uchar -> bool)
      (k : option uchar -> nat -> str -> option R) prev (n : nat) (rest : str) (r : R) :
  k (last_opt prev (takewhile test rest)) (n + length (takewhile test rest))
    (dropwhile test rest) = Some r ->
  Re.greedy test k prev n rest = Some r.
Proof.
  revert prev n; induction rest as [|ch t IH]; intros prev n; simpl.
  - rewrite Nat.add_0_r. auto.
  - destruct (test ch); simpl.
    + rewrite Nat.add_succ_r. intros H. rewrite (IH (Some ch) (S n) H). reflexivity.
    + rewrite Nat.add_0_r. auto.
Qed.

(** Loops are monotone in their continuation, whatever the count. *)
Lemma greedy_mono (R R' : Type) (test : uchar -> bool)
      (k : option uchar -> nat -> str -> option R)
      (k' : option uchar -> nat -> str -> option R') :
  (forall prev n n' rest, k prev n rest <> None -> k' prev n' rest <> None) ->
  forall prev n n' rest,
    Re.greedy test k prev n rest <> None -> Re.greedy test k' prev n' rest <> None.
Proof.
  intros Hk prev n n' rest; revert prev n n'.
  induction rest as [|ch t IH]; intros prev n n'; simpl.
  - apply Hk.
  - destruct (test ch); [|apply Hk].
    destruct (Re.greedy test k (Some ch) (S n) t) eqn:E.
    + intros _. specialize (IH (Some ch) (S n) (S n')).
      destruct (Re.greedy test k' (Some ch) (S n') t); [discriminate|].
      exfalso. apply IH; [rewrite E; discriminate | reflexivity].
    + intros H. destruct (Re.greedy test k' (Some ch) (S n') t); [discriminate|].
      exact (Hk _ _ _ _ H).
Qed.

Lemma lazy_mono (R R' : Type) (test : uchar -> bool)
      (k : option uchar -> nat -> str -> option R)
      (k' : option uchar -> nat -> str -> option R') :
  (forall prev n n' rest, k prev n rest <> None -> k' prev n' rest <> None) ->
  forall prev n n' rest,
    Re.lazy test k prev n rest <> None -> Re.lazy test k' prev n' rest <> None.
Proof.
  intros Hk prev n n' rest; revert prev n n'.
  induction rest as [|ch t IH]; intros prev n n'; simpl.
  - destruct (k prev n []) eqn:E.
    + intros _. specialize (Hk prev n n' []). rewrite E in Hk.
      destruct (k' prev n' []); [discriminate|]. apply Hk. discriminate.
    + congruence.
  - destruct (k prev n (ch :: t)) eqn:E.
    + intros _. specialize (Hk prev n n' (ch :: t)). rewrite E in Hk.
      destruct (k' prev n' (ch :: t)); [discriminate|]. exfalso. apply Hk; [discriminate|reflexivity].
    + destruct (k' prev n' (ch :: t)); [discriminate|].
      destruct (test ch); [|congruence]. apply IH.
Qed.

(** ** Searching *)

Lemma unmatched_nil f p prev l2 : unmatched f p prev [] l2.
Proof.
  intros a b E N. symmetry in E. apply app_eq_nil in E. destruct E; contradiction.
Qed.

Lemma unmatched_cons f p prev (c : uchar) l1 l2 :
  unmatched f p prev (c :: l1) l2 <->
  Re.match_here f p prev (c :: l1 ++ l2) = None /\ unmatched f p (Some c) l1 l2.
Proof.
  split.
  - intros U. split.
    + apply (U [] (c :: l1)); [reflexivity | discriminate].
    + intros a b E N. apply (U (c :: a) b); [simpl; congruence | exact N].
  - intros [H U] a b E N. destruct a as [|x a]; simpl in E.
    + subst b. exact H.
    + injection E as <- E. simpl. apply U; assumption.
Qed.

Lemma matchless_cons f p prev (c : uchar) rest :
  matchless f p prev (c :: rest) <->
  Re.match_here f p prev (c :: rest) = None /\ matchless f p (Some c) rest.
Proof.
  split.
  - intros U. split.
    + apply (U [] (c :: rest)). reflexivity.
    + intros a b E. apply (U (c :: a) b). simpl; congruence.
  - intros [H U] a b E. destruct a as [|x a]; simpl in E.
    + subst b. exact H.
    + injection E as <- E. simpl. apply U; assumption.
Qed.

Lemma matchless_nil f p prev :
  matchless f p prev [] <-> Re.match_here f p prev [] = None.
Proof.
  split.
  - intros U. apply (U [] []). reflexivity.
  - intros H a b E. symmetry in E. apply app_eq_nil in E. destruct E; subst. exact H.
Qed.

(** A text without a match splits into an unmatched part and a matchless
    rest, wherever it is cut. *)
Lemma matchless_split f p prev l1 l2 :
  matchless f p prev (l1 ++ l2) <->
  unmatched f p prev l1 l2 /\ matchless f p (last_opt prev l1) l2.
Proof.
  revert prev; induction l1 as [|c l1 IH]; intros prev; simpl.
  - split; [intros H; split; [apply unmatched_nil | exact H] | intros [_ H]; exact H].
  - rewrite matchless_cons, unmatched_cons, IH. tauto.
Qed.

Lemma search_from_spec f p prev pos rest :
  match Re.search_from f p prev pos rest with
  | Some m =>
      exists l1 l2 n mk,
        rest = l1 ++ l2 /\ unmatched f p prev l1 l2
        /\ Re.match_here f p (last_opt prev l1) l2 = Some (n, mk)
        /\ m = Re.MkMatch (pos + length l1) (pos + length l1 + n) (Re.group_text l2 mk)
  | None => matchless f p prev rest
  end.
Proof.
  revert prev pos; induction rest as [|c rest IH]; intros prev pos; simpl.
  - destruct (Re.match_here f p prev []) as [[n mk]|] eqn:E.
    + exists [], [], n, mk. simpl. rewrite Nat.add_0_r.
      repeat split; auto using unmatched_nil.
    + apply matchless_nil. exact E.
  - destruct (Re.match_here f p prev (c :: rest)) as [[n mk]|] eqn:E.
    + exists [], (c :: rest), n, mk. simpl. rewrite Nat.add_0_r.
      repeat split; auto using unmatched_nil.
    + specialize (IH (Some c) (S pos)).
      destruct (Re.search_from f p (Some c) (S pos) rest) as [m|].
      * destruct IH as (l1 & l2 & n & mk & -> & U & H & ->).
        exists (c :: l1), l2, n, mk. simpl. rewrite Nat.add_succ_r.
        repeat split; auto. apply unmatched_cons. split; assumption.
      * apply matchless_cons. split; assumption.
Qed.

Lemma search_from_matchless f p prev pos rest :
  matchless f p prev rest -> Re.search_from f p prev pos rest = None.
Proof.
  revert prev pos; induction rest as [|c rest IH]; intros prev pos H; simpl.
  - apply matchless_nil in H. rewrite H. reflexivity.
  - apply matchless_cons in H. destruct H as [H U]. rewrite H. apply IH, U.
Qed.

(** ** Substituting and counting *)

Lemma sub_loop_exhausted f p tpl prev rest (k : nat) :
  Re.sub_loop f p tpl (Some 0) prev rest k = skipn k rest.
Proof.
  revert prev k; induction rest as [|c rest IH]; intros prev k.
  - destruct k; reflexivity.
  - destruct k; simpl; [f_equal|]; apply IH.
Qed.

Lemma sub_loop_unmatched f p tpl budget prev l1 l2 :
  unmatched f p prev l1 l2 ->
  Re.sub_loop f p tpl budget prev (l1 ++ l2) 0
  = l1 ++ Re.sub_loop f p tpl budget (last_opt prev l1) l2 0.
Proof.
  revert prev; induction l1 as [|c l1 IH]; intros prev U; [reflexivity|].
  apply unmatched_cons in U. destruct U as [H U].
  cbn [app Re.sub_loop last_opt]. rewrite H.
  replace (match budget with Some 0 => None | _ => None end)
    with (@None (nat * Re.marks)) by (destruct budget as [[|?]|]; reflexivity).
  f_equal. apply IH, U.
Qed.

(** Without a match nothing is substituted. *)
Lemma sub_loop_matchless f p tpl budget prev rest :
  matchless f p prev rest -> Re.sub_loop f p tpl budget prev rest 0 = rest.
Proof.
  intros H. rewrite <- (app_nil_r rest) in H |- *. apply matchless_split in H.
  destruct H as [U H]. rewrite sub_loop_unmatched by exact U.
  apply matchless_nil in H. rewrite app_nil_r. simpl. rewrite H.
  destruct budget as [[|?]|]; rewrite app_nil_r; reflexivity.
Qed.

(** With [count=1] the first match is replaced and the rest is kept. *)
Lemma sub_loop_first f p tpl prev l1 l2 (n : nat) mk :
  unmatched f p prev l1 l2 ->
  Re.match_here f p (last_opt prev l1) l2 = Some (S n, mk) ->
  Re.sub_loop f p tpl (Some 1) prev (l1 ++ l2) 0
  = l1 ++ Re.expand tpl l2 mk ++ skipn (S n) l2.
Proof.
  intros U H. rewrite sub_loop_unmatched by exact U. f_equal.
  destruct l2 as [|c l2]; simpl; rewrite H; f_equal.
  simpl. apply sub_loop_exhausted.
Qed.

Lemma count_loop_unmatched f p prev l1 l2 :
  unmatched f p prev l1 l2 ->
  count_loop f p prev (l1 ++ l2) 0 = count_loop f p (last_opt prev l1) l2 0.
Proof.
  revert prev; induction l1 as [|c l1 IH]; intros prev U; [reflexivity|].
  apply unmatched_cons in U. destruct U as [H U].
  cbn [app count_loop last_opt]. rewrite H. apply IH, U.
Qed.

Lemma count_loop_matchless f p prev rest :
  matchless f p prev rest -> count_loop f p prev rest 0 = 0.
Proof.
  intros H. rewrite <- (app_nil_r rest) in H |- *. apply matchless_split in H.
  destruct H as [U H]. rewrite count_loop_unmatched by exact U.
  apply matchless_nil in H. simpl. rewrite H. reflexivity.
Qed.

Lemma count_loop_skip f p prev (l1 l2 : str) :
  count_loop f p prev (l1 ++ l2) (length l1) = count_loop f p (last_opt prev l1) l2 0.
Proof.
  revert prev; induction l1 as [|c l1 IH]; intros prev; simpl.
  - destruct l2; reflexivity.
  - apply IH.
Qed.

(** ** Calls on a compiled pattern *)

Lemma Ok_inj (A : Type) (a b : A) : Ok a = Ok b -> a = b.
Proof. congruence. Qed.

Lemma search_compiled (pattern : str) (p : list Re.item) (g : nat) (s : str) f :
  Re.compile pattern f = Ok (Re.Program p g) ->
  Re.search pattern s f = Ok (Re.search_from f p None 0 s).
Proof. intros H. unfold Re.search. rewrite H. reflexivity. Qed.

Lemma sub_compiled (pattern repl : str) (p : list Re.item) (g : nat) tpl
      (s : str) (count : nat) f :
  Re.compile pattern f = Ok (Re.Program p g) ->
  Re.parse_template g 0 repl = Ok tpl ->
  Re.sub pattern repl s count f
  = Ok (Re.sub_loop f p tpl (match count with 0 => None | _ => Some count end) None s 0).
Proof. intros H T. unfold Re.sub. rewrite H. cbn [bind Re.groups_of]. rewrite T. reflexivity. Qed.


(** The pattern matches nowhere in the text. *)
Lemma absent_matchless (pattern : str) (p : list Re.item) (g : nat) (s : str) f :
  Re.compile pattern f = Ok (Re.Program p g) ->
  (absent pattern s f <-> matchless f p None s).
Proof.
  intros H. unfold absent. rewrite (search_compiled pattern s f H). split.
  - intros E. apply Ok_inj in E. generalize (search_from_spec f p None 0 s).
    rewrite E. auto.
  - intros M. rewrite (search_from_matchless 0 M). reflexivity.
Qed.

(** ** Keywords *)

Lemma match_word f (w : str) prev rest :
  Re.match_here f (Re.WordB :: lits w ++ [Re.WordB]) prev rest
  = if word_here f w prev rest then Some (length w, []) else None.
Proof.
  unfold Re.match_here, word_here. cbn [Re.run].
  destruct (Re.at_boundary prev rest); [|reflexivity].
  rewrite run_lits. destruct (eat_lits f w rest) as [rest'|]; [|reflexivity].
  cbn [Re.run andb].
  destruct (Re.at_boundary _ rest'); reflexivity.
Qed.

(** The characters of a match of a word of small letters are word
    characters. *)
Lemma literal_letters (u w : str) :
  forallb small w = true ->
  Forall2 (fun ch x => Re.cmatch Re.I (Re.CLit x) ch = true) u w ->
  Forall (fun ch => isword ch = true) u.
Proof.
  intros L F; induction F as [|ch x u w E F IH]; constructor.
  - simpl in L. apply andb_prop in L. destruct L as [Lx _].
    unfold Re.cmatch in E. cbn in E. apply ceqb_eq in E.
    apply letter_is_word. rewrite E, (fold_small _ Lx). exact Lx.
  - apply IH. simpl in L. apply andb_prop in L. tauto.
Qed.

Lemma word_opt_last (prev : option uchar) (u : str) :
  u <> [] -> Forall (fun ch => isword ch = true) u ->
  Re.word_opt (last_opt prev u) = true.
Proof.
  intros N F. destruct (exists_last N) as (u' & c & ->).
  rewrite last_opt_snoc. apply Forall_app in F. destruct F as [_ F].
  inversion F; subst. assumption.
Qed.

(** What a match of a word of small letters amounts to. *)
Lemma word_here_spec (w : str) prev rest :
  w <> [] -> forallb small w = true ->
  (word_here Re.I w prev rest = true <->
   Re.word_opt prev = false /\
   exists u rest', rest = u ++ rest'
                   /\ Forall2 (fun ch x => Re.cmatch Re.I (Re.CLit x) ch = true) u w
                   /\ Re.word_opt (hd_error rest') = false).
Proof.
  intros N L. unfold word_here. split.
  - intros H. apply andb_prop in H. destruct H as [B1 H].
    destruct (eat_lits Re.I w rest) as [rest'|] eqn:E; [|discriminate].
    destruct (eat_lits_app _ _ _ E) as (u & -> & Len & F).
    assert (W := literal_letters L F).
    assert (Nu : u <> []) by (destruct u, w; simpl in *; congruence).
    rewrite firstn_app, Len, Nat.sub_diag, firstn_all2, app_nil_r in H by lia.
    unfold Re.at_boundary in *.
    rewrite (word_opt_last prev Nu W) in H.
    destruct u as [|c u]; [congruence|]. inversion W; subst. simpl in B1.
    replace (isword c) with true in B1.
    split; [destruct (Re.word_opt prev); [discriminate|reflexivity]|].
    exists (c :: u), rest'. repeat split; auto.
    destruct (Re.word_opt (hd_error rest')); [discriminate|reflexivity].
  - intros (P & u & rest' & -> & F & B2).
    assert (W := literal_letters L F).
    assert (Len : length u = length w) by (eapply Forall2_length; eassumption).
    assert (Nu : u <> []) by (destruct u, w; simpl in *; congruence).
    rewrite (eat_lits_intro _ _ F).
    rewrite firstn_app, Len, Nat.sub_diag, firstn_all2, app_nil_r by lia.
    unfold Re.at_boundary. rewrite (word_opt_last prev Nu W), B2, P.
    destruct u as [|c u]; [congruence|]. inversion W; subst. simpl.
    replace (isword c) with true. reflexivity.
Qed.

(** Only whether the character before is a word character matters. *)
Lemma word_here_prev (w : str) prev prev' rest :
  w <> [] -> forallb small w = true ->
  Re.word_opt prev = Re.word_opt prev' ->
  word_here Re.I w prev rest = word_here Re.I w prev' rest.
Proof.
  intros N L E.
  destruct (word_here Re.I w prev rest) eqn:A; destruct (word_here Re.I w prev' rest) eqn:B;
    try reflexivity; exfalso.
  - apply (word_here_spec prev rest N L) in A. rewrite E in A.
    apply (word_here_spec prev' rest N L) in A. congruence.
  - apply (word_here_spec prev' rest N L) in B. rewrite <- E in B.
    apply (word_here_spec prev rest N L) in B. congruence.
Qed.

(** Text put in after white space does not make the word appear before
    it. *)
Lemma word_here_before (w : str) prev (b : str) (c : uchar) (ins post : str) :
  w <> [] -> forallb small w = true ->
  isspace c = true ->
  word_here Re.I w prev ((b ++ [c]) ++ ins ++ post) = true ->
  word_here Re.I w prev ((b ++ [c]) ++ post) = true.
Proof.
  intros N L Sp H.
  apply (word_here_spec _ _ N L) in H. destruct H as (P & u & rest' & E & F & B2).
  apply (word_here_spec _ _ N L). split; [exact P|].
  assert (W := literal_letters L F).
  apply app_eq_app in E. destruct E as (l & [[E1 E2] | [E1 E2]]).
  - (* the match lies inside [b ++ [c]] *)
    destruct l as [|x l].
    + exfalso. rewrite app_nil_r in E1. subst u.
      apply Forall_app in W. destruct W as [_ W]. inversion W; subst.
      rewrite (space_not_word _ Sp) in *. discriminate.
    + exists u, ((x :: l) ++ post). rewrite E1, <- app_assoc. subst rest'.
      repeat split; auto.
  - (* the match runs over the white space *)
    exfalso. subst u. apply Forall_app in W. destruct W as [W _].
    apply Forall_app in W. destruct W as [_ W]. inversion W; subst.
    rewrite (space_not_word _ Sp) in *. discriminate.
Qed.

Lemma last_opt_nonempty (prev prev' : option uchar) (l : str) :
  l <> [] -> last_opt prev l = last_opt prev' l.
Proof. destruct l; [congruence | reflexivity]. Qed.

Lemma suffix_of_snoc (A : Type) (a b l : list A) (c : A) :
  l ++ [c] = a ++ b -> b <> [] -> exists b', b = b' ++ [c].
Proof.
  intros E N. destruct (exists_last N) as (b' & x & ->).
  rewrite app_assoc in E. apply app_inj_tail in E. destruct E as [_ ->].
  exists b'. reflexivity.
Qed.

(** ** The duplicate guard *)

Lemma match_SELECT prev rest (n : nat) mk :
  Re.match_here Re.I (Re.Open 1 :: lits (py "SELECT") ++ [Re.Plus Re.CSpace; Re.Close 1])
                prev rest = Some (n, mk) ->
  exists kw ws tail,
    rest = kw ++ ws ++ tail
    /\ Forall2 (fun ch x => Re.cmatch Re.I (Re.CLit x) ch = true) kw (py "SELECT")
    /\ ws <> [] /\ forallb isspace ws = true
    /\ n = length kw + length ws
    /\ mk = [(3, n); (2, 0)].
Proof.
  unfold Re.match_here. cbn [Re.run]. rewrite run_lits.
  destruct (eat_lits Re.I (py "SELECT") rest) as [rest'|] eqn:E; [|discriminate].
  destruct (eat_lits_app _ _ _ E) as (kw & -> & Len & F).
  cbn [Re.run]. destruct rest' as [|c t]; [discriminate|].
  destruct (Re.cmatch Re.I Re.CSpace c) eqn:Sp; [|discriminate].
  erewrite greedy_max by reflexivity.
  intros H; injection H as <- <-.
  exists kw, (c :: takewhile isspace t), (dropwhile isspace t).
  change (Re.cmatch Re.I Re.CSpace) with isspace in *.
  split; [|split; [|split; [|split; [|split]]]].
  - simpl. rewrite <- take_drop_while. reflexivity.
  - exact F.
  - discriminate.
  - simpl. rewrite Sp. apply takewhile_all.
  - rewrite Len. simpl. lia.
  - reflexivity.
Qed.


Lemma template_DISTINCT :
  Re.parse_template 1 0 (py "\1DISTINCT ")
  = Ok (Re.TGroup 1 :: map Re.TLit (py "DISTINCT ")).
Proof. reflexivity. Qed.

Lemma expand_literal (w start : str) mk : Re.expand (map Re.TLit w) start mk = w.
Proof. induction w as [|c w IH]; simpl; congruence. Qed.

(** After the insertion the word DISTINCT is found once. *)
Lemma one_DISTINCT (before : str) (sp : uchar) (post : str) :
  isspace sp = true ->
  matchless Re.I (Re.WordB :: lits (py "distinct") ++ [Re.WordB]) None
            ((before ++ [sp]) ++ post) ->
  count_loop Re.I (Re.WordB :: lits (py "distinct") ++ [Re.WordB]) None
             ((before ++ [sp]) ++ py "DISTINCT " ++ post) 0 = 1.
Proof.
  intros Sp H.
  assert (N : py "distinct" <> []) by discriminate.
  assert (L : forallb small (py "distinct") = true) by reflexivity.
  apply matchless_split in H. destruct H as [U H].
  rewrite last_opt_snoc in H.
  rewrite count_loop_unmatched.
  - rewrite last_opt_snoc.
    change (py "DISTINCT " ++ post)
      with (Ch "D" :: py "ISTINCT" ++ (Ch " ") :: post).
    cbn [count_loop]. rewrite match_word.
    replace (word_here Re.I (py "distinct") (Some sp)
                       (Ch "D" :: py "ISTINCT" ++ (Ch " ") :: post)) with true.
    + cbn [pred length py list_ascii_of_string map].
      rewrite (count_loop_skip _ _ (Some (Ch "D")) (py "ISTINCT") (Ch " " :: post)).
      f_equal. apply count_loop_matchless.
      apply matchless_cons. split.
      * rewrite match_word. reflexivity.
      * intros l1 l2 E. rewrite match_word.
        specialize (H l1 l2 E). rewrite match_word in H.
        destruct l1 as [|x l1]; [|exact H].
        simpl in *.
        rewrite (@word_here_prev _ (Some (Ch " ")) (Some sp) l2 N L); [exact H|].
        simpl. rewrite (space_not_word _ Sp). reflexivity.
    + symmetry. apply (word_here_spec _ _ N L). split.
      * simpl. apply space_not_word, Sp.
      * exists (py "DISTINCT"), (Ch " " :: post).
        repeat split; repeat constructor.
  - intros a b E Nb. rewrite match_word.
    destruct (word_here Re.I (py "distinct") (last_opt None a)
                        (b ++ py "DISTINCT " ++ post)) eqn:W; [exfalso|reflexivity].
    destruct (@suffix_of_snoc _ _ _ _ _ E Nb) as (b' & ->).
    apply (@word_here_before _ _ _ _ _ _ N L Sp) in W.
    specialize (U a (b' ++ [sp]) E Nb). rewrite match_word, W in U. discriminate.
Qed.


(** ** The rewriter on a guarded statement *)

(** A program that matches has its first part, without the marks,
    matching too. *)
Lemma run_unmark_prefix f (p q : list Re.item) :
  no_backref p = true ->
  forall start start' prev n n' rest mk mk',
    Re.run f start (p ++ q) prev n rest mk <> None ->
    Re.run f start' (unmark p) prev n' rest mk' <> None.
Proof.
  induction p as [|i p IH]; intros NB start start' prev n n' rest mk mk'.
  - simpl. discriminate.
  - destruct i; simpl in NB; cbn [app Re.run unmark]; try discriminate.
    + destruct rest as [|ch t]; [congruence|].
      destruct (Re.cmatch f c ch); [|congruence]. apply IH, NB.
    + apply greedy_mono. intros. eapply IH; eauto.
    + destruct rest as [|ch t]; [congruence|].
      destruct (Re.cmatch f c ch); [|congruence].
      apply greedy_mono. intros. eapply IH; eauto.
    + apply lazy_mono. intros. eapply IH; eauto.
    + destruct (Re.at_boundary prev rest); [|congruence]. apply IH, NB.
    + destruct (Re.at_eol f rest); [|congruence]. apply IH, NB.
    + apply IH, NB.
    + apply IH, NB.
Qed.

Lemma matchless_unmark_prefix f (p q : list Re.item) prev (s : str) :
  no_backref p = true ->
  matchless f (unmark p) prev s -> matchless f (p ++ q) prev s.
Proof.
  intros NB H l1 l2 E. specialize (H l1 l2 E). unfold Re.match_here in *.
  destruct (Re.run f l2 (p ++ q) (last_opt prev l1) 0 l2 []) eqn:R; [|reflexivity].
  exfalso. refine (@run_unmark_prefix f p q NB l2 l2 _ 0 0 _ [] [] _ H).
  rewrite R. discriminate.
Qed.

Lemma template_equality :
  exists tpl, Re.parse_template 4 0 (py "LOWER(\1) = LOWER(\2\3\4)") = Ok tpl.
Proof. eexists. reflexivity. Qed.

(** Without an equality against a quoted literal,
    [improve_string_matching] changes nothing. *)
Lemma improve_without_equality (s : str) :
  absent QUOTED_EQUALITY s Re.NOFLAG -> improve_string_matching s = Ok (s, None).
Proof.
  intros A. unfold improve_string_matching. fold QUOTED_EQUALITY.
  destruct template_equality as [tpl T].
  rewrite (sub_compiled _ _ s 0 Re.NOFLAG compile_equality T).
  assert (ML := proj1 (absent_matchless QUOTED_EQUALITY s Re.NOFLAG compile_QUOTED_EQUALITY) A).
  rewrite sub_loop_matchless
    by (apply matchless_unmark_prefix; [reflexivity | exact ML]).
  cbn [bind]. unfold absent in A. rewrite A.
  destruct (negb (contains (py "LIKE") (str_upper s))); reflexivity.
Qed.

(** Every search of the duplicate guard returns. *)
Lemma search_returns (pattern : str) (p : list Re.item) (g : nat) (s : str) f :
  Re.compile pattern f = Ok (Re.Program p g) ->
  exists m, Re.search pattern s f = Ok m.
Proof. intros H. rewrite (search_compiled pattern s f H). eexists. reflexivity. Qed.

(** C2, as amended.  For every SQL text that already contains DISTINCT or
    GROUP BY and has no equality against a quoted literal, the two rewrites
    in sequence return the text unchanged, with no description. *)
Theorem rewrite_keeps_guarded (s : str) :
  found DISTINCT s Re.I \/ found GROUP_BY s Re.I ->
  absent QUOTED_EQUALITY s Re.NOFLAG ->
  rewrite s = Ok (MkRewrite s s []).
Proof.
  intros G A. unfold rewrite.
  assert (D : detect_and_handle_duplicates s = Ok (s, None)).
  { unfold detect_and_handle_duplicates. fold JOIN GROUP_BY DISTINCT.
    destruct (search_returns JOIN s Re.I compile_JOIN) as [mj ->].
    destruct (search_returns GROUP_BY s Re.I compile_GROUP_BY) as [mg Hg].
    destruct (search_returns DISTINCT s Re.I compile_DISTINCT) as [md Hd].
    rewrite Hg, Hd. cbn [bind].
    destruct G as [[m H] | [m H]].
    - rewrite H in Hd. injection Hd as <-. cbn [truthy negb]. rewrite !andb_false_r.
      reflexivity.
    - rewrite H in Hg. injection Hg as <-. cbn [truthy negb].
      rewrite andb_false_r. reflexivity. }
  rewrite D. cbn [bind fst snd]. rewrite (improve_without_equality A). reflexivity.
Qed.

(** ** The preprocessor *)

(** *** [str.strip] *)

Lemma lstrip_app (a b : str) :
  lstrip (a ++ b) = match lstrip a with [] => lstrip b | _ => lstrip a ++ b end.
Proof.
  induction a as [|c a IH]; simpl; [reflexivity|].
  destruct (isspace c); [exact IH | reflexivity].
Qed.

(** [rstrip], from the left. *)
Lemma rstrip_cons (c : uchar) (t : str) :
  rstrip (c :: t)
  = match rstrip t with
    | [] => if isspace c then [] else [c]
    | r => c :: r
    end.
Proof.
  unfold rstrip. simpl rev. rewrite lstrip_app.
  destruct (lstrip (rev t)) as [|x l] eqn:E; simpl.
  - destruct (isspace c); reflexivity.
  - rewrite rev_app_distr. simpl. destruct (rev l ++ [x]) eqn:E2; [|reflexivity].
    destruct (rev l); discriminate.
Qed.

Lemma lstrip_fixed (s : str) :
  match s with c :: _ => isspace c = false | [] => True end -> lstrip s = s.
Proof. destruct s as [|c s]; simpl; [reflexivity|]. intros ->. reflexivity. Qed.

Lemma lstrip_head (s : str) :
  match lstrip s with c :: _ => isspace c = false | [] => True end.
Proof.
  induction s as [|c s IH]; simpl; [exact Logic.I|].
  destruct (isspace c) eqn:E; [exact IH | exact E].
Qed.

Lemma rstrip_idempotent (s : str) : rstrip (rstrip s) = rstrip s.
Proof.
  induction s as [|c s IH]; [reflexivity|].
  rewrite rstrip_cons. destruct (rstrip s) as [|x r] eqn:E.
  - destruct (isspace c) eqn:Sp; [reflexivity|].
    rewrite rstrip_cons. change (rstrip []) with (@nil uchar). rewrite Sp. reflexivity.
  - rewrite rstrip_cons, IH. reflexivity.
Qed.

Lemma rstrip_head (s : str) :
  match s with c :: _ => isspace c = false | [] => True end ->
  match rstrip s with c :: _ => isspace c = false | [] => True end.
Proof.
  destruct s as [|c s]; [intros _; exact Logic.I|].
  intros Sp. rewrite rstrip_cons. destruct (rstrip s); [rewrite Sp|]; exact Sp.
Qed.

Lemma lstrip_suffix (s : str) : exists a, s = a ++ lstrip s.
Proof.
  induction s as [|c s [a IH]]; [exists []; reflexivity|].
  simpl. destruct (isspace c).
  - exists (c :: a). simpl. congruence.
  - exists []. reflexivity.
Qed.

Lemma rstrip_prefix (s : str) : exists b, s = rstrip s ++ b.
Proof.
  induction s as [|c s [b IH]]; [exists []; reflexivity|].
  rewrite rstrip_cons. destruct (rstrip s) as [|x r].
  - destruct (isspace c).
    + exists (c :: s). reflexivity.
    + exists b. simpl in *. congruence.
  - exists b. simpl in *. congruence.
Qed.

(** *** Collapsed white space *)

Lemma match_spaces prev (c : uchar) (t : str) :
  Re.match_here Re.NOFLAG [Re.Plus Re.CSpace] prev (c :: t)
  = if isspace c then Some (S (length (takewhile isspace t)), []) else None.
Proof.
  unfold Re.match_here. cbn [Re.run]. change (Re.cmatch Re.NOFLAG Re.CSpace) with isspace.
  destruct (isspace c); [|reflexivity].
  erewrite greedy_max; reflexivity.
Qed.

Lemma sub_loop_spaces (s : str) :
  forall prev,
    Re.sub_loop Re.NOFLAG [Re.Plus Re.CSpace] [Re.TLit " "] None prev s 0
    = collapse false s
    /\ Re.sub_loop Re.NOFLAG [Re.Plus Re.CSpace] [Re.TLit " "] None prev s
                   (length (takewhile isspace s))
       = collapse true s.
Proof.
  induction s as [|c t IH]; intros prev; [split; reflexivity|].
  assert (Z : Re.sub_loop Re.NOFLAG [Re.Plus Re.CSpace] [Re.TLit " "] None prev (c :: t) 0
              = collapse false (c :: t)).
  { cbn [Re.sub_loop]. rewrite match_spaces. cbn [collapse].
    destruct (isspace c).
    - cbn [Re.expand option_map app]. f_equal. apply IH.
    - f_equal. apply IH. }
  split; [exact Z|].
  cbn [takewhile collapse]. destruct (isspace c) eqn:Sp.
  - cbn [length Re.sub_loop app]. apply IH.
  - cbn [length]. rewrite Z. cbn [collapse]. rewrite Sp. reflexivity.
Qed.

Lemma tidy_collapse (s : str) : forall b, tidy b (collapse b s) = true.
Proof.
  induction s as [|c s IH]; intros b; [reflexivity|].
  cbn [collapse]. destruct (isspace c) eqn:Sp.
  - destruct b; cbn [app]; [apply IH|]. cbn [tidy].
    change (isspace " ") with true. cbn. apply IH.
  - cbn [tidy]. rewrite Sp. apply IH.
Qed.

Lemma collapse_tidy (s : str) : forall b, tidy b s = true -> collapse b s = s.
Proof.
  induction s as [|c s IH]; intros b; [reflexivity|].
  cbn [tidy collapse]. destruct (isspace c).
  - intros H. apply andb_prop in H. destruct H as [H T].
    apply andb_prop in H. destruct H as [E B].
    apply ceqb_eq in E. subst c. destruct b; [discriminate|].
    cbn [app]. f_equal. apply IH, T.
  - intros T. f_equal. apply IH, T.
Qed.

Lemma collapse_nonempty (s : str) :
  rstrip s = s -> s <> [] -> forall b, collapse b s <> [].
Proof.
  induction s as [|c s IH]; [congruence|]. intros R _ b.
  rewrite rstrip_cons in R. cbn [collapse]. destruct (isspace c); [|discriminate].
  destruct (rstrip s) as [|x r] eqn:E; [discriminate|].
  injection R as R.
  assert (N : s <> []) by (rewrite <- R; discriminate).
  specialize (IH R N true).
  destruct b; cbn [app]; [exact IH | discriminate].
Qed.

Lemma rstrip_collapse (s : str) :
  rstrip s = s -> forall b, rstrip (collapse b s) = collapse b s.
Proof.
  induction s as [|c s IH]; intros R b; [reflexivity|].
  rewrite rstrip_cons in R.
  assert (Rs : rstrip s = s).
  { destruct (rstrip s) as [|x r] eqn:E.
    - destruct (isspace c); [discriminate|]. injection R as <-. reflexivity.
    - injection R as R. exact R. }
  cbn [collapse]. destruct (isspace c) eqn:Sp.
  - assert (N : s <> []).
    { intros ->. change (rstrip []) with (@nil uchar) in R. discriminate R. }
    destruct b; cbn [app]; [apply IH, Rs|].
    rewrite rstrip_cons, (IH Rs true).
    destruct (collapse true s) eqn:E; [|reflexivity].
    exfalso. exact (collapse_nonempty Rs N true E).
  - rewrite rstrip_cons, (IH Rs false), Sp.
    destruct (collapse false s); reflexivity.
Qed.

(** White space collapsed leaves a stripped text stripped. *)
Lemma strip_collapse (q : str) :
  strip (collapse false (strip q)) = collapse false (strip q).
Proof.
  assert (R : rstrip (strip q) = strip q) by apply rstrip_idempotent.
  assert (H : match strip q with c :: _ => isspace c = false | [] => True end)
    by apply rstrip_head, lstrip_head.
  unfold strip at 1. rewrite lstrip_fixed.
  - apply rstrip_collapse, R.
  - destruct (strip q) as [|c t]; [exact Logic.I|].
    cbn [collapse]. rewrite H. exact H.
Qed.

(** *** Texts without comment syntax *)

Lemma starts_with_app (w a b : str) :
  starts_with w a = true -> starts_with w (a ++ b) = true.
Proof.
  revert a; induction w as [|x w IH]; intros a; [reflexivity|].
  destruct a as [|y a]; simpl; [discriminate|].
  intros H. apply andb_prop in H. destruct H as [-> H]. apply IH, H.
Qed.

Lemma contains_here (w a : str) : starts_with w a = true -> contains w a = true.
Proof. intros H. destruct a; simpl in *; rewrite H; reflexivity. Qed.

Lemma contains_app_r (w a b : str) : contains w b = true -> contains w (a ++ b) = true.
Proof.
  intros H. induction a as [|c a IH]; [exact H|].
  simpl. rewrite IH. apply orb_true_r.
Qed.

Lemma contains_app_l (w a b : str) : contains w a = true -> contains w (a ++ b) = true.
Proof.
  induction a as [|c a IH]; cbn [contains app].
  - rewrite orb_false_r. intros H. apply contains_here. destruct w; [reflexivity|discriminate].
  - intros H. apply orb_prop in H. destruct H as [H|H].
    + apply (starts_with_app _ _ b) in H. cbn [app] in H. rewrite H. reflexivity.
    + rewrite (IH H). apply orb_true_r.
Qed.

Lemma contains_strip (w q : str) : contains w q = false -> contains w (strip q) = false.
Proof.
  intros H. destruct (contains w (strip q)) eqn:E; [|reflexivity].
  destruct (lstrip_suffix q) as [a Ea]. destruct (rstrip_prefix (lstrip q)) as [b Eb].
  fold (strip q) in Eb. rewrite Ea, Eb in H.
  rewrite (contains_app_r _ a _ (contains_app_l _ _ b E)) in H. discriminate.
Qed.

(** Collapsing white space brings no two characters together that were
    apart. *)
Lemma contains_collapse (x y : uchar) (s : str) :
  isspace x = false -> isspace y = false ->
  forall b, contains [x; y] s = false -> contains [x; y] (collapse b s) = false.
Proof.
  intros Sx Sy.
  assert (Nx : ceqb x " " = false).
  { destruct (ceqb x " ") eqn:E; [|reflexivity]. apply ceqb_eq in E. subst x. discriminate Sx. }
  assert (Ny : ceqb y " " = false).
  { destruct (ceqb y " ") eqn:E; [|reflexivity]. apply ceqb_eq in E. subst y. discriminate Sy. }
  induction s as [|c s IH]; intros b H; [reflexivity|].
  cbn [contains] in H. apply orb_false_elim in H. destruct H as [H0 H].
  cbn [collapse]. destruct (isspace c) eqn:Sp.
  - destruct b; cbn [app]; [apply IH, H|].
    cbn [contains starts_with]. rewrite Nx. apply IH, H.
  - cbn [contains]. rewrite (IH false H), orb_false_r.
    cbn [starts_with] in *. destruct (ceqb x c) eqn:Exc; [|reflexivity]. cbn [andb] in *.
    destruct s as [|d s']; [reflexivity|]. cbn [collapse].
    destruct (isspace d); cbn [app]; [rewrite Ny; reflexivity | exact H0].
Qed.

Lemma eat_lits_starts_with (w rest rest' : str) f :
  Re.IGNORECASE f = false -> eat_lits f w rest = Some rest' -> starts_with w rest = true.
Proof.
  intros NI. revert rest; induction w as [|x w IH]; intros rest; [reflexivity|].
  destruct rest as [|ch t]; simpl; [discriminate|].
  unfold Re.cmatch. rewrite NI.
  destruct (ceqb ch x) eqn:E; [|discriminate].
  apply ceqb_eq in E. subst ch. rewrite ceqb_refl. apply IH.
Qed.

(** A pattern that begins with a literal finds nothing in a text that
    lacks the literal. *)
Lemma matchless_without_literal f (w : str) (p : list Re.item) prev (s : str) :
  Re.IGNORECASE f = false -> contains w s = false -> matchless f (lits w ++ p) prev s.
Proof.
  intros NI H l1 l2 E. unfold Re.match_here. rewrite run_lits.
  destruct (eat_lits f w l2) as [rest'|] eqn:Ew; [exfalso|reflexivity].
  apply (@eat_lits_starts_with _ _ _ _ NI) in Ew.
  rewrite E, (contains_app_r _ l1 _ (contains_here _ _ Ew)) in H. discriminate.
Qed.

Lemma preprocess_tidy (y : str) :
  strip y = y -> tidy false y = true ->
  contains (py "--") y = false -> contains (py "/*") y = false ->
  preprocess_user_query y = Ok y.
Proof.
  intros St T C1 C2. unfold preprocess_user_query. rewrite St.
  rewrite (sub_compiled (py "\s+") (py " ") y 0 Re.NOFLAG compile_spaces eq_refl).
  cbn [bind]. rewrite (proj1 (sub_loop_spaces y None)), (collapse_tidy _ _ T).
  rewrite (sub_compiled (py "--.*$") (py "") y 0 Re.M compile_line_comment eq_refl).
  cbn [bind]. rewrite sub_loop_matchless
    by (apply matchless_without_literal; [reflexivity | exact C1]).
  rewrite (sub_compiled (py "/\*.*?\*/") (py "") y 0 Re.S_ compile_block_comment eq_refl).
  cbn [bind]. rewrite sub_loop_matchless
    by (apply matchless_without_literal; [reflexivity | exact C2]).
  reflexivity.
Qed.

(** What the preprocessor returns for a text without comment syntax. *)
Lemma preprocess_comment_free (q : str) :
  comment_free q -> preprocess_user_query q = Ok (collapse false (strip q)).
Proof.
  intros [C1 C2]. unfold preprocess_user_query.
  rewrite (sub_compiled (py "\s+") (py " ") (strip q) 0 Re.NOFLAG compile_spaces eq_refl).
  cbn [bind]. rewrite (proj1 (sub_loop_spaces (strip q) None)).
  rewrite (sub_compiled (py "--.*$") (py "") _ 0 Re.M compile_line_comment eq_refl).
  cbn [bind]. rewrite sub_loop_matchless.
  - rewrite (sub_compiled (py "/\*.*?\*/") (py "") _ 0 Re.S_ compile_block_comment eq_refl).
    cbn [bind]. rewrite sub_loop_matchless; [reflexivity|].
    apply matchless_without_literal; [reflexivity|].
    apply (contains_collapse "/" "*"); try reflexivity. apply contains_strip, C2.
  - apply matchless_without_literal; [reflexivity|].
    apply (contains_collapse "-" "-"); try reflexivity. apply contains_strip, C1.
Qed.

(** C6, as amended.  On every text without comment syntax the preprocessor
    is idempotent. *)
Theorem preprocess_idempotent_without_comments (q : str) :
  comment_free q ->
  exists r, preprocess_user_query q = Ok r /\ preprocess_user_query r = Ok r.
Proof.
  intros C. exists (collapse false (strip q)). split.
  - apply preprocess_comment_free, C.
  - destruct C as [C1 C2]. apply preprocess_tidy.
    + apply strip_collapse.
    + apply tidy_collapse.
    + apply (contains_collapse "-" "-"); try reflexivity. apply contains_strip, C1.
    + apply (contains_collapse "/" "*"); try reflexivity. apply contains_strip, C2.
Qed.

(** ** The caches *)

Lemma str_eqb_refl (a : str) : str_eqb a a = true.
Proof. induction a as [|c a IH]; simpl; [reflexivity|]. rewrite ceqb_refl. exact IH. Qed.

Lemma str_eqb_eq (a b : str) : str_eqb a b = true <-> a = b.
Proof.
  split; [|intros ->; apply str_eqb_refl].
  revert b; induction a as [|x a IH]; intros [|y b]; simpl; try discriminate; auto.
  intros H. apply andb_prop in H. destruct H as [E H].
  apply ceqb_eq in E. rewrite (IH _ H), E. reflexivity.
Qed.

Lemma key_eqb_refl (k : option Z) : key_eqb k k = true.
Proof. destruct k; simpl; [apply Z.eqb_refl | reflexivity]. Qed.

Lemma args_eqb_refl (k : str * str) : args_eqb k k = true.
Proof. unfold args_eqb. rewrite !str_eqb_refl. reflexivity. Qed.

Section LruFacts.
Variables K V St : Type.
Variable eqb : K -> K -> bool.
Variable maxsize : nat.
Hypothesis eqb_refl : forall k, eqb k k = true.
Hypothesis room : 0 < maxsize.

(** A value returned for a key is the one stored for it. *)
Lemma lru_stores (f : K -> St -> result V * St) (k : K) (c : Functools.cache K V) (s : St)
      (v : V) c' s' :
  Functools.lru_cache eqb maxsize f k c s = (Ok v, c', s') ->
  Functools.find eqb k (Functools.entries c') = Some v.
Proof.
  unfold Functools.lru_cache.
  destruct (Functools.find eqb k (Functools.entries c)) as [v0|].
  - intros H; injection H as <- <- _. simpl. rewrite eqb_refl. reflexivity.
  - destruct (f k s) as [[v0|e] s0]; intros H; [|discriminate].
    injection H as <- <- _. destruct maxsize; [lia|]. simpl. rewrite eqb_refl. reflexivity.
Qed.

(** A stored value is returned without a call of the wrapped function. *)
Lemma lru_hit (f : K -> St -> result V * St) (k : K) (c : Functools.cache K V) (s : St)
      (v : V) :
  Functools.find eqb k (Functools.entries c) = Some v ->
  exists c', Functools.lru_cache eqb maxsize f k c s = (Ok v, c', s)
             /\ Functools.find eqb k (Functools.entries c') = Some v
             /\ Functools.misses c' = Functools.misses c.
Proof.
  intros H. unfold Functools.lru_cache. rewrite H. eexists. split; [reflexivity|].
  simpl. rewrite eqb_refl. split; reflexivity.
Qed.

(** The second of two calls in a row for one key is a hit, whatever the
    wrapped function has become. *)
Lemma lru_twice (f g : K -> St -> result V * St) (k : K) (c : Functools.cache K V) (s : St)
      (v : V) c1 s1 :
  Functools.lru_cache eqb maxsize f k c s = (Ok v, c1, s1) ->
  exists c2, Functools.lru_cache eqb maxsize g k c1 s1 = (Ok v, c2, s1)
             /\ Functools.misses c2 = Functools.misses c1.
Proof.
  intros H. apply lru_stores in H.
  destruct (lru_hit g k c1 s1 H) as (c2 & E & _ & M). exists c2. split; assumption.
Qed.

(** A key that is not stored makes the wrapped function run. *)
Lemma lru_miss (f : K -> St -> result V * St) (k : K) (c : Functools.cache K V) (s : St) :
  Functools.find eqb k (Functools.entries c) = None ->
  fst (fst (Functools.lru_cache eqb maxsize f k c s)) = fst (f k s)
  /\ snd (Functools.lru_cache eqb maxsize f k c s) = snd (f k s)
  /\ Functools.misses (snd (fst (Functools.lru_cache eqb maxsize f k c s)))
     = S (Functools.misses c).
Proof.
  intros H. unfold Functools.lru_cache. rewrite H.
  destruct (f k s) as [[v|e] s']; repeat split; reflexivity.
Qed.
End LruFacts.

(** ** The schema builder *)

Lemma get_table_row_count_spec (w : World) (t : str) (rt : Runtime) :
  exists rt', get_table_row_count w t rt = (Ok (counted w t), rt')
              /\ allocated rt' = allocated rt.
Proof.
  unfold get_table_row_count, attempt, exec, logged, counted, try_except.
  destruct (sqlite3_count w t); eexists; split; reflexivity.
Qed.

Lemma get_table_sample_data_spec (w : World) (t : str) (rt : Runtime) :
  exists rt', get_table_sample_data w t 3 rt = (Ok (sampled w t), rt')
              /\ allocated rt' = allocated rt.
Proof.
  unfold get_table_sample_data, attempt, sampled, try_except.
  destruct (sql_tool w) as [tool|]; [|eexists; split; reflexivity].
  unfold exec, logged.
  change (py " LIMIT " ++ str_of_Z (Z.of_nat 3)) with (py " LIMIT 3").
  destruct (run_sql tool (py "SELECT * FROM " ++ t ++ py " LIMIT 3"));
    eexists; split; reflexivity.
Qed.

Lemma add_sample_data_spec (w : World) (d : Snapshot) :
  forall rt, exists rt', add_sample_data w d rt = (Ok (map (with_sample w) d), rt')
                         /\ allocated rt' = allocated rt.
Proof.
  induction d as [|[t info] d IH]; intros rt; [eexists; split; reflexivity|].
  cbn [add_sample_data]. unfold io_bind at 1.
  destruct (get_table_sample_data_spec w t rt) as (rt1 & -> & A1).
  unfold io_bind at 1. destruct (IH rt1) as (rt2 & -> & A2).
  eexists. split; [reflexivity|]. congruence.
Qed.

Lemma bind_exec (A B : Type) (statement : str) (answer : result A) (k : A -> IO B)
      (rt : Runtime) :
  io_bind (exec statement answer) k rt
  = match answer with
    | Ok a => k a (logged statement rt)
    | Raise e => (Raise e, logged statement rt)
    end.
Proof. unfold io_bind, exec. destruct answer; reflexivity. Qed.

Lemma bind_ok (A B : Type) (c : IO A) (k : A -> IO B) (rt rt' : Runtime) (a : A) :
  c rt = (Ok a, rt') -> io_bind c k rt = k a rt'.
Proof. intros H. unfold io_bind. rewrite H. reflexivity. Qed.

(** The first loop: it stops at the first table the store does not
    answer for. *)
Lemma introspect_tables_spec (w : World) (tool : SQLTools) (tables : list str) :
  forall d rt,
    exists rt',
      allocated rt' = allocated rt /\
      ((Forall (introspectable tool) tables
        /\ introspect_tables w tool tables d rt
           = (Ok (fold_left (fun d t => dict_set t (first_entry w tool t) d) tables d), rt'))
       \/ (Exists (fun t => ~ introspectable tool t) tables
           /\ exists e, introspect_tables w tool tables d rt = (Raise e, rt'))).
Proof.
  induction tables as [|t tables IH]; intros d rt.
  - exists rt. split; [reflexivity|]. left. split; [constructor | reflexivity].
  - cbn [introspect_tables]. rewrite bind_exec.
    destruct (table_info tool t) as [cols|e] eqn:Ec.
    + rewrite bind_exec.
      destruct (foreign_key_list tool t) as [fks|e] eqn:Ef.
      * match goal with
        | |- context [io_bind (get_table_row_count w t) _ ?r] =>
            destruct (get_table_row_count_spec w t r) as (rt1 & Hc & A1)
        end.
        rewrite (@bind_ok _ _ _ _ _ _ _ Hc).
        destruct (IH (dict_set t (MkTableInfo (map column_info cols)
                                              (map foreign_key_info fks) (counted w t) None) d)
                     rt1) as (rt2 & A2 & [[F H] | [F H]]).
        -- exists rt2. split; [simpl in *; congruence|]. left. split.
           ++ constructor; [split; eauto | exact F].
           ++ rewrite H. cbn [fold_left]. unfold first_entry. rewrite Ec, Ef. reflexivity.
        -- exists rt2. split; [simpl in *; congruence|]. right. split.
           ++ apply Exists_cons_tl, F.
           ++ exact H.
      * eexists. split; [|right; split; [|eexists; reflexivity]]; [reflexivity|].
        apply Exists_cons_hd. intros [_ [fks H]]. congruence.
    + eexists. split; [|right; split; [|eexists; reflexivity]]; [reflexivity|].
      apply Exists_cons_hd. intros [[cols H] _]. congruence.
Qed.

(** The builder always returns, with a dict of its own making. *)
Lemma build_schema_returns (w : World) (k : option Z) (rt : Runtime) :
  exists d rt', build_schema w k rt = (Ok (MkRef (allocated rt) d), rt')
                /\ allocated rt' = S (allocated rt).
Proof.
  unfold build_schema. destruct (sql_tool w) as [tool|].
  - unfold attempt. rewrite bind_exec.
    destruct (sqlite_master tool) as [tables|e]; [|eexists; eexists; split; reflexivity].
    match goal with
    | |- context [io_bind (introspect_tables w tool tables []) _ ?r] =>
        destruct (introspect_tables_spec w tool tables [] r)
          as (rt1 & A1 & [[_ Hi] | [_ [e Hi]]])
    end.
    + rewrite (@bind_ok _ _ _ _ _ _ _ Hi).
      match goal with
      | |- context [io_bind (add_sample_data w ?d) _ rt1] =>
          destruct (add_sample_data_spec w d rt1) as (rt2 & Hs & A2)
      end.
      rewrite (@bind_ok _ _ _ _ _ _ _ Hs).
      unfold new_dict. simpl in A1. rewrite A2, A1.
      eexists; eexists. split; reflexivity.
    + unfold io_bind. rewrite Hi.
      unfold new_dict. simpl in A1. rewrite A1.
      eexists; eexists. split; reflexivity.
  - unfold new_dict. eexists; eexists. split; reflexivity.
Qed.

Section LruTwoCalls.
Variables K V St : Type.
Variable eqb : K -> K -> bool.
Variable maxsize : nat.
Hypothesis eqb_refl : forall k, eqb k k = true.
Hypothesis room : 0 < maxsize.

(** Two calls in a row for one key, around a function that returns: the
    second gives the value of the first and runs nothing; the first runs
    the function when the key is not stored. *)
Lemma lru_two_calls (f g : K -> St -> result V * St) (k : K)
      (c : Functools.cache K V) (s : St) :
  (exists v s', f k s = (Ok v, s')) ->
  exists v c1 c2 s1,
    Functools.lru_cache eqb maxsize f k c s = (Ok v, c1, s1)
    /\ Functools.lru_cache eqb maxsize g k c1 s1 = (Ok v, c2, s1)
    /\ Functools.find eqb k (Functools.entries c2) = Some v
    /\ Functools.misses c2 = Functools.misses c1
    /\ (Functools.find eqb k (Functools.entries c) = None ->
        f k s = (Ok v, s1) /\ Functools.misses c1 = S (Functools.misses c)).
Proof.
  intros (v0 & s0 & Hf).
  destruct (Functools.lru_cache eqb maxsize f k c s) as [[r c1] s1] eqn:E1.
  assert (exists v, r = Ok v /\
                    (Functools.find eqb k (Functools.entries c) = None ->
                     f k s = (Ok v, s1) /\ Functools.misses c1 = S (Functools.misses c)))
    as (v & -> & Hmiss).
  { unfold Functools.lru_cache in E1.
    destruct (Functools.find eqb k (Functools.entries c)) as [v|].
    - injection E1 as <- _ _. exists v. split; [reflexivity | discriminate].
    - rewrite Hf in E1. injection E1 as <- <- <-. exists v0.
      split; [reflexivity|]. intros _. split; [exact Hf | reflexivity]. }
  assert (F := @lru_stores _ _ _ eqb maxsize eqb_refl room _ _ _ _ _ _ _ E1).
  destruct (@lru_hit _ _ _ eqb maxsize eqb_refl g k c1 s1 v F) as (c2 & E2 & F2 & M).
  exists v, c1, c2, s1. repeat split; auto; apply Hmiss; assumption.
Qed.
End LruTwoCalls.

Lemma get_table_schema_hit (w : World) (b : option Z) (p : Process) (r : SnapshotRef) :
  Functools.find key_eqb b (Functools.entries (schema_cache p)) = Some r ->
  exists p', get_table_schema w b p = (Ok r, p')
             /\ runtime p' = runtime p
             /\ Functools.find key_eqb b (Functools.entries (schema_cache p')) = Some r.
Proof.
  intros F.
  destruct (@lru_hit _ _ _ key_eqb 32 key_eqb_refl (build_schema w) b (schema_cache p)
                     (runtime p) r F)
    as (c' & E & F' & _).
  exists (MkProcess c' (result_cache p) (runtime p)).
  unfold get_table_schema. rewrite E. repeat split; assumption.
Qed.

Lemma run_query_returns (w : World) (args : str * str) (rt : Runtime) :
  exists outcome rt',
    run_query w args rt = (Ok outcome, rt')
    /\ (forall tool, sql_tool w = Some tool ->
        rt' = logged (snd args) rt
        /\ outcome = match run_sql tool (snd args) with
                     | Ok rows => Some rows
                     | Raise _ => None
                     end).
Proof.
  unfold run_query, attempt. destruct (sql_tool w) as [tool|].
  - rewrite bind_exec. destruct (run_sql tool (snd args)) as [rows|e] eqn:E.
    + eexists; eexists. split; [reflexivity|].
      intros tool' [= <-]. rewrite E. split; reflexivity.
    + eexists; eexists. split; [reflexivity|].
      intros tool' [= <-]. rewrite E. split; reflexivity.
  - eexists; eexists. split; [reflexivity|]. discriminate.
Qed.

(** C4, as amended.  The result cache keeps the outcome of the first call,
    a failure included: the second call for the same text does not run the
    executor and returns what the first returned, [None] when the executor
    failed. *)
Theorem result_cache_keeps_any_outcome (w1 w2 : World) (query_hash sql_query : str)
        (p : Process) :
  exists outcome p1 p2,
    cached_sql_results w1 query_hash sql_query p = (Ok outcome, p1)
    /\ cached_sql_results w2 query_hash sql_query p1 = (Ok outcome, p2)
    /\ runtime p2 = runtime p1
    /\ (forall tool,
          Functools.find args_eqb (query_hash, sql_query)
                         (Functools.entries (result_cache p)) = None ->
          sql_tool w1 = Some tool ->
          statements (runtime p1) = sql_query :: statements (runtime p)
          /\ outcome = match run_sql tool sql_query with
                       | Ok rows => Some rows
                       | Raise _ => None
                       end).
Proof.
  destruct (run_query_returns w1 (query_hash, sql_query) (runtime p)) as (o & rt' & Hq & Ht).
  destruct (@lru_two_calls _ _ _ args_eqb 100 args_eqb_refl ltac:(lia)
              (run_query w1) (run_query w2) (query_hash, sql_query)
              (result_cache p) (runtime p))
    as (v & c1 & c2 & s1 & E1 & E2 & _ & M & Hmiss); [eauto|].
  exists v, (MkProcess (schema_cache p) c1 s1), (MkProcess (schema_cache p) c2 s1).
  unfold cached_sql_results. rewrite E1. cbn [schema_cache runtime result_cache].
  rewrite E2. repeat split; auto.
  - destruct (Hmiss H) as [Hv _]. rewrite Hq in Hv. injection Hv as _ <-.
    destruct (Ht tool H0) as [-> _]. reflexivity.
  - destruct (Hmiss H) as [Hv _]. rewrite Hq in Hv. injection Hv as <- _.
    destruct (Ht tool H0) as [_ ->]. reflexivity.
Qed.

(** The executor fails on the first call: [None] is returned twice, and
    one statement has reached the store. *)
Lemma result_cache_keeps_any_outcome_witness :
  exists p1 p2,
    cached_sql_results (world_of broken_store)
                       (py "b1698e52a0f16203489454196a0c6307") (py "SELECT 1") start
    = (Ok None, p1)
    /\ cached_sql_results (scenario_world [])
                          (py "b1698e52a0f16203489454196a0c6307") (py "SELECT 1") p1
       = (Ok None, p2)
    /\ runtime p2 = runtime p1
    /\ statements (runtime p1) = [py "SELECT 1"].
Proof.
  destruct (result_cache_keeps_any_outcome
              (world_of broken_store) (scenario_world [])
              (py "b1698e52a0f16203489454196a0c6307") (py "SELECT 1") start)
    as (outcome & p1 & p2 & H1 & H2 & H3 & H4).
  destruct (H4 broken_store eq_refl eq_refl) as [Hs Ho].
  simpl in Ho. subst outcome.
  exists p1, p2. repeat split; assumption.
Defined.

(** C4, as stated, fails: the executor fails on the first call, and the
    second call, made when the store answers again, returns the stored
    [None] and sends nothing to the store. *)
Lemma failure_is_cached :
  exists p1 p2,
    cached_sql_results (world_of broken_store)
                       (py "b1698e52a0f16203489454196a0c6307") (py "SELECT 1") start
    = (Ok None, p1)
    /\ statements (runtime p1) = [py "SELECT 1"]
    /\ cached_sql_results
         (world_of (MkSQLTools (Ok []) (fun _ => Ok []) (fun _ => Ok [])
                               (fun _ => Ok [MkRow (py "{'1': 1}")])))
         (py "b1698e52a0f16203489454196a0c6307") (py "SELECT 1") p1
       = (Ok None, p2)
    /\ statements (runtime p2) = [py "SELECT 1"].
Proof.
  eexists; eexists. repeat split; reflexivity.
Qed.

(** ** The failure policy of the builder *)

Lemma dict_get_set_same (t : str) (v : TableInfo) (d : Snapshot) :
  dict_get t (dict_set t v d) = Some v.
Proof.
  induction d as [|[k' v'] d IH]; simpl.
  - rewrite str_eqb_refl. reflexivity.
  - destruct (str_eqb t k') eqn:E; simpl; [rewrite str_eqb_refl | rewrite E]; auto.
Qed.

Lemma dict_get_set_other (t t' : str) (v : TableInfo) (d : Snapshot) :
  t <> t' -> dict_get t (dict_set t' v d) = dict_get t d.
Proof.
  intros N. assert (E : str_eqb t t' = false).
  { destruct (str_eqb t t') eqn:E; [|reflexivity]. apply str_eqb_eq in E. contradiction. }
  induction d as [|[k' v'] d IH]; simpl.
  - rewrite E. reflexivity.
  - destruct (str_eqb t' k') eqn:E'; simpl.
    + apply str_eqb_eq in E'. subst k'. rewrite E. reflexivity.
    + rewrite IH. reflexivity.
Qed.

Lemma dict_get_first_pass (w : World) (tool : SQLTools) (tables : list str) (t : str) :
  forall d,
    dict_get t (fold_left (fun d t => dict_set t (first_entry w tool t) d) tables d)
    = if in_dec (list_eq_dec uchar_dec) t tables then Some (first_entry w tool t)
      else dict_get t d.
Proof.
  induction tables as [|x tables IH]; intros d; [reflexivity|].
  cbn [fold_left]. rewrite IH.
  destruct (in_dec (list_eq_dec uchar_dec) t tables) as [I|NI];
    destruct (in_dec (list_eq_dec uchar_dec) t (x :: tables)) as [I'|NI'];
    try reflexivity.
  - exfalso. apply NI'. right. exact I.
  - destruct I' as [->|I]; [apply dict_get_set_same | contradiction].
  - apply dict_get_set_other. intros ->. apply NI'. left. reflexivity.
Qed.

Lemma dict_get_with_sample (w : World) (t : str) (d : Snapshot) :
  dict_get t (map (with_sample w) d)
  = option_map (fun info => MkTableInfo (columns info) (foreign_keys info) (row_count info)
                                        (Some (sampled w t)))
               (dict_get t d).
Proof.
  induction d as [|[k' v'] d IH]; [reflexivity|].
  cbn [map with_sample fst snd dict_get].
  destruct (str_eqb t k') eqn:E; [|exact IH].
  apply str_eqb_eq in E. subst k'. reflexivity.
Qed.

(** C5, as amended.  The builder always returns a snapshot.  It is the
    empty one when SQLTools is not initialised, when the list of tables
    cannot be read, and when the store does not answer one of the two
    introspection statements for some table: the whole build is given up.
    When the store answers them for every table, every table is in the
    snapshot; a row count or a sample that cannot be read does not remove
    the table, it is recorded as 0 or as no rows. *)
Theorem build_schema_failure_policy (w : World) (k : option Z) (rt : Runtime) :
  exists snapshot rt',
    build_schema w k rt = (Ok snapshot, rt')
    /\ (sql_tool w = None -> ref_dict snapshot = [])
    /\ forall tool, sql_tool w = Some tool ->
         (forall e, sqlite_master tool = Raise e -> ref_dict snapshot = [])
         /\ forall tables, sqlite_master tool = Ok tables ->
              (Exists (fun t => ~ introspectable tool t) tables -> ref_dict snapshot = [])
              /\ (Forall (introspectable tool) tables ->
                  forall t, In t tables ->
                    exists cols fks,
                      table_info tool t = Ok cols /\ foreign_key_list tool t = Ok fks
                      /\ dict_get t (ref_dict snapshot)
                         = Some (MkTableInfo (map column_info cols)
                                             (map foreign_key_info fks)
                                             (counted w t) (Some (sampled w t)))).
Proof.
  unfold build_schema. destruct (sql_tool w) as [tool|].
  2:{ unfold new_dict. eexists; eexists. split; [reflexivity|].
      split; [reflexivity | discriminate]. }
  unfold attempt. rewrite bind_exec.
  destruct (sqlite_master tool) as [tables|e] eqn:Em.
  2:{ unfold new_dict. eexists; eexists. split; [reflexivity|].
      split; [discriminate|]. intros tool' [= <-]. rewrite Em.
      split; [reflexivity | discriminate]. }
  match goal with
  | |- context [io_bind (introspect_tables w tool tables []) _ ?r] =>
      destruct (introspect_tables_spec w tool tables [] r)
        as (rt1 & A1 & [[Good Hi] | [Bad [e Hi]]])
  end.
  - rewrite (@bind_ok _ _ _ _ _ _ _ Hi).
    match goal with
    | |- context [io_bind (add_sample_data w ?d) _ rt1] =>
        destruct (add_sample_data_spec w d rt1) as (rt2 & Hs & A2)
    end.
    rewrite (@bind_ok _ _ _ _ _ _ _ Hs).
    unfold new_dict. eexists; eexists. split; [reflexivity|].
    split; [discriminate|]. intros tool' [= <-]. rewrite Em.
    split; [discriminate|]. intros tables' [= <-]. split.
    + intros Bad. exfalso. apply Exists_exists in Bad. destruct Bad as (t & I & N).
      rewrite Forall_forall in Good. exact (N (Good t I)).
    + intros _ t I. rewrite Forall_forall in Good.
      destruct (Good t I) as [[cols Ec] [fks Ef]]. exists cols, fks.
      split; [exact Ec|]. split; [exact Ef|].
      cbn [ref_dict]. rewrite dict_get_with_sample, dict_get_first_pass.
      destruct (in_dec (list_eq_dec uchar_dec) t tables) as [_|N]; [|contradiction].
      unfold first_entry. rewrite Ec, Ef. reflexivity.
  - unfold io_bind. rewrite Hi.
    unfold new_dict. eexists; eexists. split; [reflexivity|].
    split; [discriminate|]. intros tool' [= <-]. rewrite Em.
    split; [discriminate|]. intros tables' [= <-]. split; [reflexivity|].
    intros Good. exfalso. apply Exists_exists in Bad. destruct Bad as (t & I & N).
    rewrite Forall_forall in Good. exact (N (Good t I)).
Qed.

(** A store that answers every statement but the row count and the sample
    of its one table: the table is in the snapshot, with no rows counted
    and none sampled. *)
Lemma build_schema_failure_policy_witness :
  exists snapshot rt',
    build_schema
      (MkWorld (Some (MkSQLTools (Ok [py "purchase_orders"]) (fun _ => Ok [])
                                 (fun _ => Ok []) (fun _ => failure)))
               (fun _ => failure) (fun _ => (failure, [])))
      None (MkRuntime [] 0)
    = (Ok snapshot, rt')
    /\ dict_get (py "purchase_orders") (ref_dict snapshot)
       = Some (MkTableInfo [] [] 0 (Some [])).
Proof.
  destruct (build_schema_failure_policy
              (MkWorld (Some (MkSQLTools (Ok [py "purchase_orders"]) (fun _ => Ok [])
                                         (fun _ => Ok []) (fun _ => failure)))
                       (fun _ => failure) (fun _ => (failure, [])))
              None (MkRuntime [] 0))
    as (snapshot & rt' & H & _ & Hp).
  destruct (Hp _ eq_refl) as [_ Ht].
  destruct (Ht _ eq_refl) as [_ Hg].
  destruct (Hg (Forall_cons _ (conj (ex_intro _ [] eq_refl) (ex_intro _ [] eq_refl))
                            (Forall_nil _))
               (py "purchase_orders") (or_introl eq_refl))
    as (cols & fks & Ec & Ef & Hd).
  injection Ec as <-. injection Ef as <-.
  exists snapshot, rt'. split; [exact H | exact Hd].
Defined.

(** C5, as stated, fails: the store is connected and answers for
    [purchase_orders], the introspection of [purchase_order_items] fails,
    and the snapshot is empty: [purchase_orders] is not in it. *)
Lemma one_failing_table_empties_the_snapshot :
  exists rt',
    build_schema
      (world_of (MkSQLTools (Ok [py "purchase_orders"; py "purchase_order_items"])
                            (fun t => if str_eqb t (py "purchase_order_items")
                                      then failure else Ok [])
                            (fun _ => Ok []) (fun _ => Ok [])))
      None (MkRuntime [] 0)
    = (Ok (MkRef 0 []), rt').
Proof. eexists. vm_compute. reflexivity. Qed.

(** ** The prompt composer *)

Lemma column_line_annotated (col : ColumnInfo) :
  column_line col = py "- " ++ name col ++ py ": " ++ type col ++ annotations col ++ [NL].
Proof.
  unfold column_line, annotations. rewrite <- !app_assoc. reflexivity.
Qed.

Lemma column_lines_end (cols : list ColumnInfo) :
  concat (map column_line cols) = []
  \/ exists x, concat (map column_line cols) = x ++ [NL].
Proof.
  induction cols as [|col cols IH]; [left; reflexivity|]. right.
  cbn [map concat]. destruct IH as [-> | [x ->]].
  - rewrite app_nil_r, column_line_annotated.
    eexists. rewrite !app_assoc. reflexivity.
  - exists (column_line col ++ x). rewrite app_assoc. reflexivity.
Qed.

(** The line of a column, with a newline before it, in the section of its
    table. *)
Lemma table_section_has_line (table_name : str) (info : TableInfo) (col : ColumnInfo) :
  sample_data info <> None -> In col (columns info) ->
  exists section before after,
    table_section table_name info = Ok section
    /\ section = before ++ [NL] ++ column_line col ++ after.
Proof.
  intros C I. unfold table_section.
  destruct (sample_data info) as [sample|]; [clear C | congruence].
  destruct (in_split _ _ I) as (l1 & l2 & E). rewrite E.
  rewrite map_app, concat_app. cbn [map concat].
  set (fks := match foreign_keys info with
              | [] => []
              | _ => _
              end).
  set (smp := match sample with
              | [] => []
              | _ => _
              end).
  set (top := py "## Table: " ++ table_name ++ py " (" ++ str_of_Z (row_count info)
                 ++ py " rows)" ++ [NL] ++ py "### Columns:").
  exists ((top ++ [NL] ++ (concat (map column_line l1) ++ column_line col
                                  ++ concat (map column_line l2)) ++ fks) ++ smp ++ [NL]).
  destruct (column_lines_end l1) as [-> | [x ->]].
  - exists top, (concat (map column_line l2) ++ fks ++ smp ++ [NL]).
    split; [unfold top; rewrite <- !app_assoc; reflexivity|].
    rewrite <- !app_assoc. reflexivity.
  - exists (top ++ [NL] ++ x), (concat (map column_line l2) ++ fks ++ smp ++ [NL]).
    split; [unfold top; rewrite <- !app_assoc; reflexivity|].
    rewrite <- !app_assoc. reflexivity.
Qed.

Lemma table_section_returns (table_name : str) (info : TableInfo) :
  sample_data info <> None -> exists section, table_section table_name info = Ok section.
Proof.
  intros C. unfold table_section.
  destruct (sample_data info); [eexists; reflexivity | congruence].
Qed.

Lemma table_sections_has_section (schema_info : Snapshot) :
  complete schema_info ->
  exists s, table_sections schema_info = Ok s
            /\ forall table_name info col,
                 In (table_name, info) schema_info -> In col (columns info) ->
                 exists before after, s = before ++ [NL] ++ column_line col ++ after.
Proof.
  induction schema_info as [|[t i] d IH]; intros C.
  - exists []. split; [reflexivity|]. intros ? ? ? [].
  - destruct IH as (s & Hs & H).
    { intros t' i' I. apply (C t' i'). right. exact I. }
    assert (Ci : sample_data i <> None) by (apply (C t i); left; reflexivity).
    destruct (@table_section_returns t i Ci) as [sec Hsec].
    cbn [table_sections]. rewrite Hsec, Hs. cbn [bind].
    eexists. split; [reflexivity|].
    intros table_name info col [[= <- <-] | I] Ic.
    + destruct (@table_section_has_line t i col Ci Ic)
        as (sec' & before & after & Hsec' & E).
      rewrite Hsec in Hsec'. apply Ok_inj in Hsec'. subst sec'.
      rewrite E. exists before, (after ++ s). rewrite <- !app_assoc. reflexivity.
    + destruct (H _ _ _ I Ic) as (before & after & ->).
      exists (sec ++ before), after. rewrite <- !app_assoc. reflexivity.
Qed.

(** C9, as amended.  For every snapshot with a [purchase_orders] table whose
    [vendor] column has the declared type VARCHAR(100), the prompt has a
    line that begins [- vendor: VARCHAR(100)] and goes on with the
    annotations of the column, of which the nullability mark is always
    there; and the prompt ends with [User Query: ], the question and the
    fixed closing instructions. *)
Theorem prompt_for_vendor_column (schema_info : Snapshot) (info : TableInfo)
        (col : ColumnInfo) (query : str) :
  complete schema_info ->
  In (py "purchase_orders", info) schema_info -> In col (columns info) ->
  name col = py "vendor" -> type col = py "VARCHAR(100)" ->
  exists prompt before after head,
    build_prompt schema_info query = Ok prompt
    /\ prompt = before ++ [NL] ++ py "- vendor: VARCHAR(100)" ++ annotations col
                       ++ [NL] ++ after
    /\ annotations col <> []
    /\ prompt = head ++ py "User Query: " ++ query ++ closing_instructions.
Proof.
  intros C I Ic En Et.
  destruct (table_sections_has_section C) as (s & Hs & H).
  destruct (H _ _ _ I Ic) as (before & after & E).
  unfold build_prompt, schema_prompt. rewrite Hs. cbn [bind].
  eexists. exists ([NL] ++ py "# Database Schema" ++ [NL; NL] ++ before). eexists. eexists.
  split; [reflexivity|]. split; [|split].
  - rewrite E, column_line_annotated, En, Et. rewrite <- !app_assoc. reflexivity.
  - unfold annotations. destruct (primary_key col), (nullable col); discriminate.
  - rewrite !app_assoc. reflexivity.
Qed.

Lemma prompt_for_vendor_column_witness :
  exists prompt before after head,
    build_prompt purchase_orders_snapshot
                 (py "List all purchase orders from Medline Industries") = Ok prompt
    /\ prompt = before ++ [NL] ++ py "- vendor: VARCHAR(100)" ++ py " NULL" ++ [NL] ++ after
    /\ py " NULL" <> []
    /\ prompt = head ++ py "User Query: "
                     ++ py "List all purchase orders from Medline Industries"
                     ++ closing_instructions.
Proof.
  refine (@prompt_for_vendor_column
            purchase_orders_snapshot _
            (MkColumnInfo (py "vendor") (py "VARCHAR(100)") false true None)
            (py "List all purchase orders from Medline Industries")
            _ (or_introl eq_refl) _ eq_refl eq_refl).
  - intros t i [[= <- <-] | []]. discriminate.
  - simpl. tauto.
Defined.

(** C9, as stated, fails: no line of the prompt is [- vendor:
    VARCHAR(100)] (the line of the column goes on with [ NULL]), and the
    prompt does not end with the question. *)
Lemma prompt_line_and_tail :
  exists prompt,
    build_prompt purchase_orders_snapshot
                 (py "List all purchase orders from Medline Industries") = Ok prompt
    /\ existsb (str_eqb (py "- vendor: VARCHAR(100)")) (lines prompt) = false
    /\ existsb (str_eqb (py "- vendor: VARCHAR(100) NULL")) (lines prompt) = true
    /\ ends_with (py "List all purchase orders from Medline Industries") prompt = false.
Proof.
  eexists. split; [vm_compute; reflexivity|]. repeat split; vm_compute; reflexivity.
Qed.

(** ** The caller-facing function *)

(** What the caller sees of C3: when the agent's answer carries a statement
    with an unterminated literal, the answer is lost and the text of the
    [except] branch is returned in its place. *)
Lemma sql_agent_loses_the_answer :
  fst (sql_agent
         (scenario_world
            (py "Here is the query:" ++ [NL] ++ py "```sql" ++ [NL]
                ++ py "SELECT name FROM purchase_orders WHERE vendor = 'Medline" ++ [NL]
                ++ py "```"))
         1000 (py "List all purchase orders from Medline Industries") start)
  = Ok (error_answer (re_error "unbalanced parenthesis" 33)).
Proof. vm_compute. reflexivity. Qed.

(** With a well-formed statement the answer comes back as the agent gave
    it. *)
Lemma sql_agent_returns_the_answer :
  fst (sql_agent
         (scenario_world
            (py "Here is the query:" ++ [NL] ++ py "```sql" ++ [NL]
                ++ py "SELECT name FROM purchase_orders WHERE vendor = 'Medline'" ++ [NL]
                ++ py "```"))
         1000 (py "List all purchase orders from Medline Industries") start)
  = Ok (py "Here is the query:" ++ [NL] ++ py "```sql" ++ [NL]
           ++ py "SELECT name FROM purchase_orders WHERE vendor = 'Medline'" ++ [NL]
           ++ py "```").
Proof. vm_compute. reflexivity. Qed.

(** * Further properties of the code *)

(** ** The string-match step *)

Lemma sub_line_193_raises (s : str) :
  Re.sub (py "LOWER\((\w+)\)\s*=\s*LOWER\([\" ++ QUOTES ++ py "])(.*?)([\"
             ++ QUOTES ++ py "])\)")
         (py "LOWER(\1) LIKE LOWER(\2%\3)") s 0 Re.NOFLAG
  = Raise (re_error "unbalanced parenthesis" 33).
Proof. unfold Re.sub. rewrite compile_line_193. reflexivity. Qed.

Lemma improve_outcome (s : str) :
  (exists r, improve_string_matching s = Ok (r, None))
  \/ improve_string_matching s = Raise (re_error "unbalanced parenthesis" 33).
Proof.
  unfold improve_string_matching. fold QUOTED_EQUALITY.
  destruct template_equality as [tpl T].
  rewrite (sub_compiled _ _ s 0 Re.NOFLAG compile_equality T). cbn [bind].
  set (m := Re.sub_loop _ _ _ _ _ _ _).
  rewrite (search_compiled QUOTED_EQUALITY m Re.NOFLAG compile_QUOTED_EQUALITY).
  cbn [bind].
  destruct (negb (contains (py "LIKE") (str_upper m))); cbn [bind].
  - destruct (truthy _).
    + right. rewrite sub_line_193_raises. reflexivity.
    + left. eexists. reflexivity.
  - left. eexists. reflexivity.
Qed.

(** X1.  [improve_string_matching] never returns its description: either it
    returns a text with no description, or it raises [re.error] for the
    pattern of line 193. *)
Theorem improve_never_describes (s : str) :
  (exists r, improve_string_matching s = Ok (r, None))
  \/ improve_string_matching s = Raise (re_error "unbalanced parenthesis" 33).
Proof. apply improve_outcome. Qed.

(** ** The preprocessor, on every text *)

Lemma sub_loop_skip f p tpl budget prev (l1 l2 : str) :
  Re.sub_loop f p tpl budget prev (l1 ++ l2) (length l1)
  = Re.sub_loop f p tpl budget (last_opt prev l1) l2 0.
Proof.
  revert prev; induction l1 as [|c l1 IH]; intros prev; simpl.
  - destruct l2; reflexivity.
  - apply IH.
Qed.

(** A substitution by the empty text only deletes. *)
Lemma sub_loop_deletes (P : uchar -> Prop) f p (rest : str) :
  Forall P rest ->
  forall budget prev skip, Forall P (Re.sub_loop f p [] budget prev rest skip).
Proof.
  induction 1 as [|c rest Hc H IH]; intros budget prev skip.
  - destruct skip; cbn [Re.sub_loop]; [|constructor].
    destruct (match budget with Some 0 => None | _ => _ end) as [[n mk]|];
      cbn [Re.expand app]; constructor.
  - destruct skip as [|skip]; cbn [Re.sub_loop]; [|apply IH].
    destruct (match budget with Some 0 => None | _ => _ end) as [[n mk]|].
    + cbn [Re.expand app]. destruct n; [constructor; [exact Hc|]|]; apply IH.
    + constructor; [exact Hc | apply IH].
Qed.

Lemma sub_loop_shortens f p (rest : str) :
  forall budget prev skip,
    length (Re.sub_loop f p [] budget prev rest skip) <= length rest.
Proof.
  induction rest as [|c rest IH]; intros budget prev skip.
  - destruct skip; cbn [Re.sub_loop]; [|simpl; lia].
    destruct (match budget with Some 0 => None | _ => _ end) as [[n mk]|];
      simpl; lia.
  - destruct skip as [|skip]; cbn [Re.sub_loop].
    2:{ specialize (IH budget (Some c) skip). simpl. lia. }
    destruct (match budget with Some 0 => None | _ => _ end) as [[n mk]|].
    + cbn [Re.expand app]. destruct n.
      * specialize (IH (option_map pred budget) (Some c) 0). simpl. lia.
      * specialize (IH (option_map pred budget) (Some c) n). simpl. lia.
    + specialize (IH budget (Some c) 0). simpl. lia.
Qed.

Lemma collapse_spaces_only (s : str) : forall b, spaces_only (collapse b s).
Proof.
  induction s as [|c s IH]; intros b; [constructor|].
  cbn [collapse]. destruct (isspace c) eqn:Sp.
  - destruct b; cbn [app]; [apply IH|]. constructor; [reflexivity | apply IH].
  - constructor; [congruence | apply IH].
Qed.

Lemma collapse_shortens (s : str) : forall b, length (collapse b s) <= length s.
Proof.
  induction s as [|c s IH]; intros b; [reflexivity|].
  cbn [collapse]. destruct (isspace c).
  - specialize (IH true). destruct b; simpl; lia.
  - specialize (IH false). simpl. lia.
Qed.

Lemma lstrip_shortens (s : str) : length (lstrip s) <= length s.
Proof.
  induction s as [|c s IH]; [reflexivity|]. simpl. destruct (isspace c); simpl; lia.
Qed.

Lemma strip_shortens (s : str) : length (strip s) <= length s.
Proof.
  unfold strip, rstrip. rewrite length_rev.
  etransitivity; [apply lstrip_shortens|]. rewrite length_rev. apply lstrip_shortens.
Qed.

(** What the preprocessor computes: the three substitutions on the
    collapsed text. *)
Lemma preprocess_unfolded (q : str) :
  preprocess_user_query q
  = Ok (Re.sub_loop Re.S_ (lits (py "/*") ++ Re.LazyStar Re.CAny :: lits (py "*/")) [] None None
          (Re.sub_loop Re.M (lits (py "--") ++ [Re.Star Re.CAny; Re.Eol]) [] None None
             (collapse false (strip q)) 0) 0).
Proof.
  unfold preprocess_user_query.
  rewrite (sub_compiled (py "\s+") (py " ") (strip q) 0 Re.NOFLAG compile_spaces eq_refl).
  cbn [bind]. rewrite (proj1 (sub_loop_spaces (strip q) None)).
  rewrite (sub_compiled (py "--.*$") (py "") _ 0 Re.M compile_line_comment eq_refl).
  cbn [bind].
  rewrite (sub_compiled (py "/\*.*?\*/") (py "") _ 0 Re.S_ compile_block_comment eq_refl).
  reflexivity.
Qed.

(** X2.  The preprocessor returns on every text; what it returns is on one
    line, has no white space but the space, and is no longer than the
    text. *)
Theorem preprocess_single_line (q : str) :
  exists r, preprocess_user_query q = Ok r
            /\ spaces_only r /\ ~ In NL r /\ length r <= length q.
Proof.
  rewrite preprocess_unfolded. eexists. split; [reflexivity|].
  assert (S : spaces_only
                (Re.sub_loop Re.S_ (lits (py "/*") ++ Re.LazyStar Re.CAny :: lits (py "*/"))
                   [] None None
                   (Re.sub_loop Re.M (lits (py "--") ++ [Re.Star Re.CAny; Re.Eol])
                      [] None None (collapse false (strip q)) 0) 0)).
  { apply sub_loop_deletes, sub_loop_deletes, collapse_spaces_only. }
  split; [exact S|]. split.
  - intros I. unfold spaces_only in S. rewrite Forall_forall in S.
    specialize (S NL I eq_refl). discriminate S.
  - etransitivity; [apply sub_loop_shortens|].
    etransitivity; [apply sub_loop_shortens|].
    etransitivity; [apply collapse_shortens | apply strip_shortens].
Qed.

(** *** Line comments *)

Lemma tidy_spaces_only (s : str) : forall b, tidy b s = true -> spaces_only s.
Proof.
  induction s as [|c s IH]; intros b; [constructor|].
  cbn [tidy]. destruct (isspace c) eqn:Sp.
  - intros H. apply andb_prop in H. destruct H as [H T].
    apply andb_prop in H. destruct H as [E _]. apply ceqb_eq in E.
    constructor; [intros _; exact E | exact (IH true T)].
  - intros T. constructor; [congruence | exact (IH false T)].
Qed.

Lemma takewhile_all_of (test : uchar -> bool) (s : str) :
  Forall (fun c => test c = true) s -> takewhile test s = s /\ dropwhile test s = [].
Proof.
  induction 1 as [|c s Hc H [IH1 IH2]]; [split; reflexivity|].
  simpl. rewrite Hc, IH1, IH2. split; reflexivity.
Qed.

(** On a text without newline the line comment runs to the end. *)
Lemma match_line_comment prev (b : str) :
  ~ In NL b ->
  Re.match_here Re.M (lits (py "--") ++ [Re.Star Re.CAny; Re.Eol]) prev (py "--" ++ b)
  = Some (2 + length b, []).
Proof.
  intros N. unfold Re.match_here. rewrite run_lits.
  change (eat_lits Re.M (py "--") (py "--" ++ b)) with (Some b).
  cbn [Re.run].
  assert (A : Forall (fun c => Re.cmatch Re.M Re.CAny c = true) b).
  { apply Forall_forall. intros c I. unfold Re.cmatch.
    change (Re.DOTALL Re.M) with false. cbn [orb].
    destruct (ceqb c NL) eqn:E; [|reflexivity].
    apply ceqb_eq in E. subst c. contradiction. }
  destruct (takewhile_all_of _ A) as [T D].
  erewrite greedy_max; [reflexivity|]. rewrite T, D. reflexivity.
Qed.

Lemma starts_with_two (x y : uchar) (l r : str) :
  l <> [] -> starts_with [x; y] (l ++ y :: r) = true -> starts_with [x; y] (l ++ [y]) = true.
Proof.
  destruct l as [|c [|d l]]; [congruence| |]; intros _; simpl; auto.
Qed.

(** A match that runs to the end of the text is the last one. *)
Lemma sub_loop_to_end f p tpl prev (l : str) mk :
  l <> [] ->
  Re.match_here f p prev l = Some (length l, mk) ->
  Re.match_here f p (last_opt prev l) [] = None ->
  Re.sub_loop f p tpl None prev l 0 = Re.expand tpl l mk.
Proof.
  intros N H E. destruct l as [|c t]; [congruence|].
  cbn [Re.sub_loop]. rewrite H. cbn [length option_map].
  rewrite <- (app_nil_r t) at 2. rewrite sub_loop_skip.
  cbn [Re.sub_loop]. cbn [last_opt] in E. rewrite E. apply app_nil_r.
Qed.

(** X3.  A line comment takes the rest of the question with it: when the
    collapsed text reads [a], then [--], then [b], with no [--] before and
    no block comment opened in [a], the preprocessor returns [a]; whatever
    followed the comment, on the same line or on later ones, is gone. *)
Theorem line_comment_swallows_the_rest (q a b : str) :
  collapse false (strip q) = a ++ py "--" ++ b ->
  contains (py "--") (a ++ py "-") = false ->
  contains (py "/*") a = false ->
  preprocess_user_query q = Ok a.
Proof.
  intros E C1 C2. rewrite preprocess_unfolded, E. f_equal.
  assert (N : ~ In NL b).
  { intros I. assert (S := collapse_spaces_only (strip q) false).
    rewrite E in S. unfold spaces_only in S. rewrite Forall_forall in S.
    assert (I' : In NL (a ++ py "--" ++ b)) by (apply in_or_app; right; apply in_or_app; right; exact I).
    specialize (S NL I' eq_refl). discriminate S. }
  rewrite sub_loop_unmatched.
  - rewrite (@sub_loop_to_end Re.M _ [] _ (py "--" ++ b) []).
    + rewrite app_nil_r.
      apply sub_loop_matchless, matchless_without_literal; [reflexivity | exact C2].
    + discriminate.
    + rewrite match_line_comment by exact N. reflexivity.
    + reflexivity.
  - intros x y Ea Ny. unfold Re.match_here. rewrite run_lits.
    destruct (eat_lits Re.M (py "--") (y ++ py "--" ++ b)) as [rest'|] eqn:Ew; [exfalso|reflexivity].
    apply (@eat_lits_starts_with _ _ _ Re.M eq_refl) in Ew.
    apply (@starts_with_two _ _ _ _ Ny) in Ew.
    rewrite Ea, <- app_assoc in C1.
    pose proof (@contains_app_r (py "--") x (y ++ py "-")
                  (@contains_here (py "--") (y ++ py "-") Ew)) as K.
    rewrite K in C1. discriminate.
Qed.

(** ** The extractor *)

Lemma compile_FENCE :
  Re.compile FENCE Re.S_
  = Ok (Re.Program
          (lits (py "```sql")
             ++ [Re.Plus Re.CSpace; Re.Open 1; Re.LazyStar Re.CAny; Re.Close 1;
                 Re.Plus Re.CSpace; Re.One (Re.CLit "`"); Re.One (Re.CLit "`");
                 Re.One (Re.CLit "`")]) 1).
Proof. reflexivity. Qed.

(** X4.  An answer in which no fenced block tagged [sql] opens gives no
    statement, and no error. *)
Theorem extract_sql_without_fence (content : str) :
  contains (py "```sql") content = false -> extract_sql content = Ok None.
Proof.
  intros C. unfold extract_sql. fold FENCE.
  rewrite (search_compiled FENCE content Re.S_ compile_FENCE). cbn [bind].
  rewrite search_from_matchless; [reflexivity|].
  apply matchless_without_literal; [reflexivity | exact C].
Qed.

(** ** The annotator *)

Lemma annotate_cases (content : str) :
  add_data_quality_insights content
  = content ++ (if says_empty content then DATA_QUALITY_NOTE
                else if says_many content then DATA_INTERPRETATION_NOTE else []).
Proof.
  unfold add_data_quality_insights, says_empty, says_many.
  destruct (contains (py "no results") (str_lower content)
            || contains (py "no rows") (str_lower content)); [reflexivity|].
  destruct (contains (py "many results") (str_lower content)
            || contains (py "large number") (str_lower content)); [reflexivity|].
  symmetry. apply app_nil_r.
Qed.

(** [str.lower] on a text that follows another: what comes before is
    lowered in its own way, and the characters of U+0000 .. U+00FF are
    lowered one by one, whatever stands around them. *)
Lemma lower_from_app (before a b : str) :
  exists x, lower_from before (a ++ b) = x ++ lower_from (before ++ a) b.
Proof.
  revert before; induction a as [|c a IH]; intros before.
  - exists []. rewrite app_nil_r. reflexivity.
  - destruct (IH (before ++ [c])) as [x E]. cbn [app lower_from]. rewrite E.
    rewrite <- (app_assoc before [c] a). cbn [app].
    eexists. rewrite app_assoc. reflexivity.
Qed.

Lemma lower_from_narrow (before s : str) :
  forallb narrow s = true -> lower_from before s = flat_map latin1_lower s.
Proof.
  revert before; induction s as [|c s IH]; intros before H; [reflexivity|].
  cbn [forallb] in H. apply andb_prop in H. destruct H as [Hc H].
  cbn [lower_from flat_map]. rewrite (IH _ H).
  destruct c; [reflexivity | discriminate].
Qed.

(** A note of the annotator keeps its words in whatever text it ends. *)
Lemma lower_keeps_the_end (w a b : str) :
  forallb narrow b = true ->
  contains w (flat_map latin1_lower b) = true ->
  contains w (str_lower (a ++ b)) = true.
Proof.
  intros Nb H. unfold str_lower. destruct (lower_from_app [] a b) as [x ->].
  rewrite (lower_from_narrow _ _ Nb). apply contains_app_r, H.
Qed.

Lemma says_empty_note (content : str) :
  says_empty (content ++ DATA_QUALITY_NOTE) = true.
Proof.
  unfold says_empty. rewrite (@lower_keeps_the_end (py "no results")); reflexivity.
Qed.

Lemma says_many_note (content : str) :
  says_many (content ++ DATA_INTERPRETATION_NOTE) = true.
Proof.
  unfold says_many.
  rewrite (@lower_keeps_the_end (py "large number")); [apply orb_true_r | |]; reflexivity.
Qed.

(** X5.  The annotator keeps the text it is given and only appends; and a
    text it has annotated it annotates again: the note that was appended
    does not stop a second one. *)
Theorem annotate_appends_and_stacks (content : str) :
  exists note,
    add_data_quality_insights content = content ++ note
    /\ (note <> [] ->
        exists note', note' <> []
                      /\ add_data_quality_insights (content ++ note)
                         = (content ++ note) ++ note').
Proof.
  rewrite annotate_cases.
  destruct (says_empty content) eqn:E; [|destruct (says_many content) eqn:M].
  - exists DATA_QUALITY_NOTE. split; [reflexivity|]. intros _.
    exists DATA_QUALITY_NOTE. split; [discriminate|].
    rewrite annotate_cases, says_empty_note. reflexivity.
  - exists DATA_INTERPRETATION_NOTE. split; [reflexivity|]. intros _.
    rewrite annotate_cases, says_many_note.
    destruct (says_empty (content ++ DATA_INTERPRETATION_NOTE)).
    + exists DATA_QUALITY_NOTE. split; [discriminate | reflexivity].
    + exists DATA_INTERPRETATION_NOTE. split; [discriminate | reflexivity].
  - exists []. split; [reflexivity | congruence].
Qed.

(** ** The builder and the store *)

Lemma only_read_refl (rt : Runtime) : only_read rt rt.
Proof. exists []. split; [reflexivity | constructor]. Qed.

Lemma only_read_trans (a b c : Runtime) : only_read a b -> only_read b c -> only_read a c.
Proof.
  intros (n1 & E1 & F1) (n2 & E2 & F2). exists (n2 ++ n1). split.
  - rewrite E2, E1. apply app_assoc.
  - apply Forall_app. split; assumption.
Qed.

Lemma only_read_logged (statement : str) (rt : Runtime) :
  read_only statement = true -> only_read rt (logged statement rt).
Proof. intros H. exists [statement]. split; [reflexivity | repeat constructor; exact H]. Qed.

Lemma only_read_bind (A B : Type) (c : IO A) (k : A -> IO B) :
  (forall rt, only_read rt (snd (c rt))) ->
  (forall a rt, only_read rt (snd (k a rt))) ->
  forall rt, only_read rt (snd (io_bind c k rt)).
Proof.
  intros Hc Hk rt. unfold io_bind. specialize (Hc rt).
  destruct (c rt) as [[a|e] rt1]; [|exact Hc].
  exact (only_read_trans Hc (Hk a rt1)).
Qed.

Lemma only_read_attempt (A : Type) (c : IO A) (h : exn -> IO A) :
  (forall rt, only_read rt (snd (c rt))) ->
  (forall e rt, only_read rt (snd (h e rt))) ->
  forall rt, only_read rt (snd (attempt c h rt)).
Proof.
  intros Hc Hh rt. unfold attempt. specialize (Hc rt).
  destruct (c rt) as [[a|e] rt1]; [exact Hc|].
  exact (only_read_trans Hc (Hh e rt1)).
Qed.

Lemma only_read_exec (A : Type) (statement : str) (answer : result A) :
  read_only statement = true -> forall rt, only_read rt (snd (exec statement answer rt)).
Proof. intros H rt. apply only_read_logged, H. Qed.

Lemma only_read_ret (A : Type) (a : A) : forall rt, only_read rt (snd (ret a rt)).
Proof. intros rt. apply only_read_refl. Qed.

Lemma only_read_new_dict (d : Snapshot) : forall rt, only_read rt (snd (new_dict d rt)).
Proof. intros rt. exists []. split; [reflexivity | constructor]. Qed.

Lemma only_read_row_count (w : World) (t : str) :
  forall rt, only_read rt (snd (get_table_row_count w t rt)).
Proof.
  unfold get_table_row_count. apply only_read_attempt.
  - apply only_read_exec. reflexivity.
  - intros e. apply only_read_ret.
Qed.

Lemma only_read_sample_data (w : World) (t : str) (limit : nat) :
  forall rt, only_read rt (snd (get_table_sample_data w t limit rt)).
Proof.
  unfold get_table_sample_data. apply only_read_attempt.
  - destruct (sql_tool w).
    + apply only_read_exec. reflexivity.
    + intros rt. apply only_read_refl.
  - intros e. apply only_read_ret.
Qed.

Lemma only_read_introspect (w : World) (tool : SQLTools) (tables : list str) :
  forall d rt, only_read rt (snd (introspect_tables w tool tables d rt)).
Proof.
  induction tables as [|t tables IH]; intros d; [apply only_read_ret|].
  cbn [introspect_tables].
  apply only_read_bind; [apply only_read_exec; reflexivity|]. intros cols.
  apply only_read_bind; [apply only_read_exec; reflexivity|]. intros fks.
  apply only_read_bind; [apply only_read_row_count|]. intros n. apply IH.
Qed.

Lemma only_read_add_sample (w : World) (d : Snapshot) :
  forall rt, only_read rt (snd (add_sample_data w d rt)).
Proof.
  induction d as [|[t info] d IH]; [apply only_read_ret|].
  cbn [add_sample_data].
  apply only_read_bind; [apply only_read_sample_data|]. intros rows.
  apply only_read_bind; [apply IH|]. intros rest. apply only_read_ret.
Qed.

(** X6.  The builder only reads: whatever the store answers, every
    statement it sends is a [SELECT] or a [PRAGMA], and the statements sent
    before are kept in the log. *)
Theorem builder_only_reads (w : World) (k : option Z) (rt : Runtime) :
  only_read rt (snd (build_schema w k rt)).
Proof.
  unfold build_schema. destruct (sql_tool w) as [tool|]; [|apply only_read_new_dict].
  apply only_read_attempt; [|intros e; apply only_read_new_dict].
  apply only_read_bind; [apply only_read_exec; reflexivity|]. intros tables.
  apply only_read_bind; [apply only_read_introspect|]. intros d.
  apply only_read_bind; [apply only_read_add_sample|]. intros d'.
  apply only_read_new_dict.
Qed.

(** What the builder returns: nothing, or every listed table with its
    sample. *)
Lemma build_schema_cases (w : World) (k : option Z) (rt : Runtime) :
  exists d rt',
    build_schema w k rt = (Ok (MkRef (allocated rt) d), rt')
    /\ (d = []
        \/ exists tool tables,
             sql_tool w = Some tool /\ sqlite_master tool = Ok tables
             /\ Forall (introspectable tool) tables
             /\ d = map (with_sample w)
                        (fold_left (fun d t => dict_set t (first_entry w tool t) d) tables [])).
Proof.
  unfold build_schema. destruct (sql_tool w) as [tool|] eqn:Et.
  2:{ unfold new_dict. eexists; eexists. split; [reflexivity | left; reflexivity]. }
  unfold attempt. rewrite bind_exec.
  destruct (sqlite_master tool) as [tables|e] eqn:Em.
  2:{ unfold new_dict. eexists; eexists. split; [reflexivity | left; reflexivity]. }
  match goal with
  | |- context [io_bind (introspect_tables w tool tables []) _ ?r] =>
      destruct (introspect_tables_spec w tool tables [] r)
        as (rt1 & A1 & [[Good Hi] | [Bad [e Hi]]])
  end.
  - rewrite (@bind_ok _ _ _ _ _ _ _ Hi).
    match goal with
    | |- context [io_bind (add_sample_data w ?d) _ rt1] =>
        destruct (add_sample_data_spec w d rt1) as (rt2 & Hs & A2)
    end.
    rewrite (@bind_ok _ _ _ _ _ _ _ Hs).
    unfold new_dict. simpl in A1. rewrite A2, A1.
    eexists; eexists. split; [reflexivity|]. right. exists tool, tables. auto.
  - unfold io_bind. rewrite Hi. unfold new_dict. simpl in A1. rewrite A1.
    eexists; eexists. split; [reflexivity | left; reflexivity].
Qed.

Lemma complete_with_sample (w : World) (d : Snapshot) : complete (map (with_sample w) d).
Proof.
  intros t info I. apply in_map_iff in I. destruct I as ([t' info'] & E & _).
  unfold with_sample in E. injection E as _ <-. discriminate.
Qed.

Lemma build_schema_complete (w : World) (k : option Z) (rt rt' : Runtime)
      (snapshot : SnapshotRef) :
  build_schema w k rt = (Ok snapshot, rt') -> complete (ref_dict snapshot).
Proof.
  intros H. destruct (build_schema_cases w k rt) as (d & rt1 & E & C).
  rewrite E in H. injection H as <- _. cbn [ref_dict].
  destruct C as [-> | (tool & tables & _ & _ & _ & ->)].
  - intros ? ? [].
  - apply complete_with_sample.
Qed.

Lemma build_prompt_returns (d : Snapshot) (q : str) :
  complete d -> exists prompt, build_prompt d q = Ok prompt.
Proof.
  intros C. destruct (table_sections_has_section C) as (s & Hs & _).
  unfold build_prompt, schema_prompt. rewrite Hs. eexists. reflexivity.
Qed.

(** X7.  The composer accepts every snapshot the builder makes: whatever
    the store answered, no key is missing when the prompt is put
    together. *)
Theorem prompt_of_built_snapshot (w : World) (k : option Z) (rt rt' : Runtime)
        (snapshot : SnapshotRef) (q : str) :
  build_schema w k rt = (Ok snapshot, rt') ->
  exists prompt, build_prompt (ref_dict snapshot) q = Ok prompt.
Proof. intros H. apply build_prompt_returns. exact (build_schema_complete _ _ _ H). Qed.

Lemma prompt_of_built_snapshot_witness :
  exists prompt,
    build_prompt
      (ref_dict (MkRef 0 [(py "purchase_orders",
                           MkTableInfo [MkColumnInfo (py "vendor") (py "VARCHAR(100)")
                                                     false true None]
                                       [] 3 (Some []))]))
      (py "List all purchase orders") = Ok prompt.
Proof.
  eapply (@prompt_of_built_snapshot (scenario_world []) None (MkRuntime [] 0)).
  vm_compute. reflexivity.
Defined.

(** *** The order of the tables *)

Lemma str_eqb_neq (a b : str) : a <> b -> str_eqb a b = false.
Proof.
  intros N. destruct (str_eqb a b) eqn:E; [|reflexivity].
  apply str_eqb_eq in E. contradiction.
Qed.

Lemma dict_set_new_key (t : str) (v : TableInfo) (d : Snapshot) :
  ~ In t (map fst d) -> map fst (dict_set t v d) = map fst d ++ [t].
Proof.
  induction d as [|[k' v'] d IH]; intros N; [reflexivity|].
  simpl in N. cbn [dict_set].
  rewrite str_eqb_neq by (intros ->; apply N; left; reflexivity).
  simpl. f_equal. apply IH. intros I. apply N. right. exact I.
Qed.

Lemma first_pass_keys (w : World) (tool : SQLTools) (tables : list str) :
  NoDup tables ->
  forall d, (forall t, In t tables -> ~ In t (map fst d)) ->
            map fst (fold_left (fun d t => dict_set t (first_entry w tool t) d) tables d)
            = map fst d ++ tables.
Proof.
  induction 1 as [|t tables Nt ND IH]; intros d Fresh.
  - symmetry. apply app_nil_r.
  - cbn [fold_left]. rewrite IH.
    + rewrite dict_set_new_key by (apply Fresh; left; reflexivity).
      rewrite <- app_assoc. reflexivity.
    + intros t' I. rewrite dict_set_new_key by (apply Fresh; left; reflexivity).
      intros I'. apply in_app_or in I'. destruct I' as [I'|[<-|[]]].
      * exact (Fresh t' (or_intror I) I').
      * contradiction.
Qed.

Lemma with_sample_keys (w : World) (d : Snapshot) :
  map fst (map (with_sample w) d) = map fst d.
Proof. rewrite map_map. apply map_ext. intros [t info]. reflexivity. Qed.

(** X8.  When the store answers for every table it lists, and lists none
    twice, the snapshot has the tables in the order of the list. *)
Theorem snapshot_keeps_the_order (w : World) (tool : SQLTools) (tables : list str)
        (k : option Z) (rt : Runtime) :
  sql_tool w = Some tool -> sqlite_master tool = Ok tables ->
  Forall (introspectable tool) tables -> NoDup tables ->
  exists snapshot rt',
    build_schema w k rt = (Ok snapshot, rt')
    /\ map fst (ref_dict snapshot) = tables.
Proof.
  intros Et Em Good ND.
  destruct (build_schema_cases w k rt) as (d & rt' & E & C).
  exists (MkRef (allocated rt) d), rt'. split; [exact E|]. cbn [ref_dict].
  assert (K : map fst (map (with_sample w)
                           (fold_left (fun d t => dict_set t (first_entry w tool t) d)
                                      tables []))
              = tables).
  { rewrite with_sample_keys, (first_pass_keys w tool ND); [reflexivity|].
    intros t _ []. }
  destruct C as [-> | (tool' & tables' & Et' & Em' & _ & ->)].
  - (* the empty snapshot: the build was given up, so some table failed *)
    unfold build_schema in E. rewrite Et in E. unfold attempt in E.
    rewrite bind_exec, Em in E.
    match type of E with
    | context [io_bind (introspect_tables w tool tables []) _ ?r] =>
        destruct (introspect_tables_spec w tool tables [] r)
          as (rt1 & A1 & [[_ Hi] | [Bad _]])
    end.
    + rewrite (@bind_ok _ _ _ _ _ _ _ Hi) in E.
      match type of E with
      | context [io_bind (add_sample_data w ?d) _ rt1] =>
          destruct (add_sample_data_spec w d rt1) as (rt2 & Hs & A2)
      end.
      rewrite (@bind_ok _ _ _ _ _ _ _ Hs) in E. unfold new_dict in E.
      injection E as _ E _. rewrite <- E. exact K.
    + exfalso. apply Exists_exists in Bad. destruct Bad as (t & I & N).
      rewrite Forall_forall in Good. exact (N (Good t I)).
  - rewrite Et in Et'. injection Et' as <-. rewrite Em in Em'. injection Em' as <-.
    exact K.
Qed.

Lemma snapshot_keeps_the_order_witness :
  exists snapshot rt',
    build_schema
      (world_of (MkSQLTools (Ok [py "purchase_orders"; py "bank_statements"])
                            (fun _ => Ok []) (fun _ => Ok []) (fun _ => Ok [])))
      None (MkRuntime [] 0)
    = (Ok snapshot, rt')
    /\ map fst (ref_dict snapshot) = [py "purchase_orders"; py "bank_statements"].
Proof.
  apply (@snapshot_keeps_the_order
           _ (MkSQLTools (Ok [py "purchase_orders"; py "bank_statements"])
                         (fun _ => Ok []) (fun _ => Ok []) (fun _ => Ok []))).
  - reflexivity.
  - reflexivity.
  - repeat constructor; eexists; reflexivity.
  - repeat constructor; simpl; intuition discriminate.
Defined.

(** *** A table without sample data *)

Lemma table_sections_missing_key (d : Snapshot) (t : str) (info : TableInfo) :
  In (t, info) d -> sample_data info = None ->
  table_sections d = Raise (KeyError "'sample_data'").
Proof.
  induction d as [|[t' info'] d IH]; intros I N; [destruct I|].
  cbn [table_sections]. unfold table_section at 1.
  destruct I as [[= -> ->] | I].
  - rewrite N. reflexivity.
  - destruct (sample_data info'); [|reflexivity].
    cbn [bind]. rewrite (IH I N). reflexivity.
Qed.

(** X9.  The composer raises [KeyError] on a snapshot in which a table
    lacks its sample data, wherever the table stands; it returns on every
    other snapshot. *)
Theorem prompt_needs_sample_data (d : Snapshot) (q : str) :
  (complete d -> exists prompt, build_prompt d q = Ok prompt)
  /\ (forall t info, In (t, info) d -> sample_data info = None ->
                     build_prompt d q = Raise (KeyError "'sample_data'")).
Proof.
  split; [apply build_prompt_returns|].
  intros t info I N. unfold build_prompt, schema_prompt.
  rewrite (@table_sections_missing_key d t info I N). reflexivity.
Qed.

(** *** The sample rows *)

Lemma sample_lines_from (rows : list Row) :
  rows <> [] ->
  forall i,
    sample_lines i (i + length rows) rows
    = (if i =? 0 then py "```" ++ [NL] else [])
        ++ concat (map (fun row => row_text row ++ [NL]) rows) ++ py "```" ++ [NL].
Proof.
  induction rows as [|row rows IH]; [congruence|]. intros _ i.
  cbn [sample_lines map concat length].
  destruct rows as [|row' rows].
  - cbn [sample_lines map concat length app].
    replace (i + 1 - 1) with i by lia. rewrite Nat.eqb_refl.
    rewrite <- !app_assoc. reflexivity.
  - replace (i =? i + S (length (row' :: rows)) - 1) with false
      by (symmetry; apply Nat.eqb_neq; simpl; lia).
    replace (i + S (length (row' :: rows))) with (S i + length (row' :: rows)) by lia.
    rewrite IH by discriminate. cbn [Nat.eqb].
    rewrite <- !app_assoc. reflexivity.
Qed.

(** X10.  The sample rows of a table are printed between one opening and
    one closing fence, however many they are. *)
Theorem sample_rows_are_fenced (rows : list Row) :
  rows <> [] -> sample_lines 0 (length rows) rows = fenced rows.
Proof. intros N. exact (sample_lines_from N 0). Qed.

Lemma sample_rows_are_fenced_witness :
  sample_lines 0 2 [MkRow (py "{'id': 1}"); MkRow (py "{'id': 2}")]
  = fenced [MkRow (py "{'id': 1}"); MkRow (py "{'id': 2}")].
Proof.
  apply (@sample_rows_are_fenced [MkRow (py "{'id': 1}"); MkRow (py "{'id': 2}")]).
  discriminate.
Defined.

(** ** The capacity of the caches *)

Lemma in_firstn (A : Type) (n : nat) (l : list A) (x : A) : In x (firstn n l) -> In x l.
Proof. intros I. rewrite <- (firstn_skipn n l). apply in_or_app. left. exact I. Qed.

Section LruBound.
Variables K V St : Type.
Variable eqb : K -> K -> bool.
Variable maxsize : nat.

Lemma length_drop_found (k : K) (l : list (K * V)) (v : V) :
  Functools.find eqb k l = Some v -> S (length (Functools.drop eqb k l)) = length l.
Proof.
  induction l as [|[k' v'] l IH]; simpl; [discriminate|].
  destruct (eqb k k'); [reflexivity|]. intros H. simpl. rewrite (IH H). reflexivity.
Qed.

Lemma in_drop (k : K) (l : list (K * V)) (x : K * V) :
  In x (Functools.drop eqb k l) -> In x l.
Proof.
  induction l as [|[k' v'] l IH]; simpl; [tauto|].
  destruct (eqb k k'); [tauto|]. simpl. tauto.
Qed.

Lemma find_in (k : K) (l : list (K * V)) (v : V) :
  Functools.find eqb k l = Some v -> exists k', In (k', v) l.
Proof.
  induction l as [|[k' v'] l IH]; simpl; [discriminate|].
  destruct (eqb k k').
  - intros [= ->]. exists k'. left. reflexivity.
  - intros H. destruct (IH H) as [k'' I]. exists k''. right. exact I.
Qed.

(** A call leaves the cache within its capacity. *)
Lemma lru_bound (f : K -> St -> result V * St) (k : K) (c : Functools.cache K V) (s : St) :
  length (Functools.entries c) <= maxsize ->
  length (Functools.entries (snd (fst (Functools.lru_cache eqb maxsize f k c s)))) <= maxsize.
Proof.
  intros B. unfold Functools.lru_cache.
  destruct (Functools.find eqb k (Functools.entries c)) as [v|] eqn:F.
  - cbn [fst snd Functools.entries length]. rewrite (length_drop_found _ _ F). exact B.
  - destruct (f k s) as [[v|e] s']; cbn [fst snd Functools.entries]; [|exact B].
    rewrite length_firstn. lia.
Qed.

(** Whatever a call leaves in the cache was there before, or is what the
    call returned. *)
Lemma lru_entries (f : K -> St -> result V * St) (k : K) (c : Functools.cache K V) (s : St)
      (x : K * V) :
  In x (Functools.entries (snd (fst (Functools.lru_cache eqb maxsize f k c s)))) ->
  In x (Functools.entries c)
  \/ exists k' , In (k', snd x) (Functools.entries c)
  \/ fst (f k s) = Ok (snd x).
Proof.
  unfold Functools.lru_cache.
  destruct (Functools.find eqb k (Functools.entries c)) as [v|] eqn:F.
  - cbn [fst snd Functools.entries]. intros [<- | I].
    + right. destruct (find_in _ _ F) as [k' I]. exists k'. left. exact I.
    + left. exact (in_drop _ _ _ I).
  - destruct (f k s) as [[v|e] s']; cbn [fst snd Functools.entries]; [|tauto].
    intros I. apply in_firstn in I. destruct I as [<- | I]; [|tauto].
    right. exists k. right. reflexivity.
Qed.
End LruBound.

(** X11.  Neither cache ever grows beyond its [maxsize]: 32 snapshots, 100
    results.  Every call of [get_table_schema] and of [cached_sql_results]
    keeps both within capacity. *)
Theorem caches_stay_within_capacity (w : World) (b : option Z) (query_hash sql_query : str)
        (p : Process) :
  within_capacity p ->
  within_capacity (snd (get_table_schema w b p))
  /\ within_capacity (snd (cached_sql_results w query_hash sql_query p)).
Proof.
  intros [B1 B2]. split.
  - unfold get_table_schema.
    assert (H := @lru_bound _ _ _ key_eqb 32 (build_schema w) b (schema_cache p) (runtime p) B1).
    destruct (Functools.lru_cache key_eqb 32 (build_schema w) b (schema_cache p) (runtime p))
      as [[r c] rt].
    split; [exact H | exact B2].
  - unfold cached_sql_results.
    assert (H := @lru_bound _ _ _ args_eqb 100 (run_query w) (query_hash, sql_query)
                            (result_cache p) (runtime p) B2).
    destruct (Functools.lru_cache args_eqb 100 (run_query w) (query_hash, sql_query)
                                  (result_cache p) (runtime p))
      as [[r c] rt].
    split; [exact B1 | exact H].
Qed.

Lemma caches_stay_within_capacity_witness :
  within_capacity (snd (get_table_schema (scenario_world []) (Some 5%Z) start))
  /\ within_capacity
       (snd (cached_sql_results (scenario_world []) (py "b1698e52a0f16203489454196a0c6307")
                                (py "SELECT 1") start)).
Proof.
  apply caches_stay_within_capacity. split; simpl; lia.
Defined.

(** ** The caller-facing function, on every question *)

Lemma detect_returns (s : str) :
  exists r m, detect_and_handle_duplicates s = Ok (r, m).
Proof.
  unfold detect_and_handle_duplicates. fold JOIN GROUP_BY DISTINCT SELECT.
  destruct (search_returns JOIN s Re.I compile_JOIN) as [mj ->].
  destruct (search_returns GROUP_BY s Re.I compile_GROUP_BY) as [mg ->].
  destruct (search_returns DISTINCT s Re.I compile_DISTINCT) as [md ->].
  cbn [bind]. destruct (truthy mj && negb (truthy mg) && negb (truthy md)).
  - rewrite (sub_compiled SELECT (py "\1DISTINCT ") s 1 Re.I compile_SELECT template_DISTINCT).
    eexists; eexists. reflexivity.
  - eexists; eexists. reflexivity.
Qed.

(** The rewriter returns, or raises for the pattern of line 193. *)
Lemma rewrite_outcome (s : str) :
  (exists r, rewrite s = Ok r)
  \/ rewrite s = Raise (re_error "unbalanced parenthesis" 33).
Proof.
  unfold rewrite. destruct (detect_returns s) as (r & m & ->). cbn [bind fst snd].
  destruct (improve_outcome r) as [[r' ->] | ->].
  - left. eexists. reflexivity.
  - right. reflexivity.
Qed.

Lemma extract_sql_returns (content : str) : exists m, extract_sql content = Ok m.
Proof.
  unfold extract_sql. fold FENCE.
  rewrite (search_compiled FENCE content Re.S_ compile_FENCE). eexists. reflexivity.
Qed.

(** What the agent sends is put on the log, and nothing else changes. *)
Lemma agent_log (sent : list str) (rt : Runtime) :
  statements (fold_left (fun rt' statement => logged statement rt') sent rt)
  = rev sent ++ statements rt
  /\ allocated (fold_left (fun rt' statement => logged statement rt') sent rt)
     = allocated rt.
Proof.
  revert rt; induction sent as [|x sent IH]; intros rt; [split; reflexivity|].
  cbn [fold_left rev]. destruct (IH (logged x rt)) as [-> ->].
  rewrite <- app_assoc. split; reflexivity.
Qed.

(** The [try] block: the annotated answer of the agent, or an exception,
    which is the agent's own or the one of line 193; nothing reaches the
    store but what the agent sends. *)
Lemma run_agent_outcome (w : World) (prompt : str) (rt : Runtime) :
  snd (run_agent w prompt rt) = snd (agent w prompt rt)
  /\ match fst (agent_run w prompt) with
     | Ok content =>
         fst (run_agent w prompt rt) = Ok (add_data_quality_insights content)
         \/ fst (run_agent w prompt rt) = Raise (re_error "unbalanced parenthesis" 33)
     | Raise e => fst (run_agent w prompt rt) = Raise e
     end.
Proof.
  unfold run_agent, io_bind, agent, pure.
  destruct (fst (agent_run w prompt)) as [content|e]; [|split; reflexivity].
  destruct (extract_sql_returns content) as [m ->].
  destruct m as [sql|]; [|split; [|left]; reflexivity].
  destruct (rewrite_outcome sql) as [[r ->] | ->]; (split; [|first [left; reflexivity | right; reflexivity]]); reflexivity.
Qed.

Lemma get_table_schema_complete (w : World) (b : option Z) (p : Process) :
  cache_complete p ->
  exists r p', get_table_schema w b p = (Ok r, p')
               /\ complete (ref_dict r) /\ cache_complete p'.
Proof.
  intros C. unfold get_table_schema, Functools.lru_cache.
  destruct (Functools.find key_eqb b (Functools.entries (schema_cache p))) as [v|] eqn:F.
  - destruct (find_in _ _ _ F) as [k' I].
    eexists; eexists. split; [reflexivity|]. split; [exact (C _ _ I)|].
    intros k r [[= <- <-] | J]; [exact (C _ _ I)|].
    exact (C _ _ (in_drop _ _ _ _ J)).
  - destruct (build_schema_returns w b (runtime p)) as (d & rt' & Hb & _).
    rewrite Hb. assert (Cd := build_schema_complete _ _ _ Hb).
    eexists; eexists. split; [reflexivity|]. split; [exact Cd|].
    intros k r J. cbn [schema_cache Functools.entries] in J.
    apply in_firstn in J. destruct J as [[= <- <-] | J]; [exact Cd | exact (C _ _ J)].
Qed.

(** X12.  [sql_agent] never raises to its caller, in a process whose
    cached snapshots came from the builder.  Its answer is one of the two
    fixed messages, or the agent's answer with the annotator's note, or the
    text of the [except] branch: the rewritten SQL is never part of it. *)
Theorem sql_agent_always_answers (w : World) (now : Z) (query : str) (p : Process) :
  cache_complete p ->
  exists answer p',
    sql_agent w now query p = (Ok answer, p')
    /\ cache_complete p'
    /\ (answer = NO_CONNECTION \/ answer = NO_SCHEMA
        \/ exists prompt,
             match fst (agent_run w prompt) with
             | Ok content => answer = add_data_quality_insights content
                             \/ answer = error_answer (re_error "unbalanced parenthesis" 33)
             | Raise e => answer = error_answer e
             end).
Proof.
  intros C. unfold sql_agent. destruct (sql_tool w) as [tool|].
  2:{ eexists; eexists. split; [reflexivity|]. split; [exact C | left; reflexivity]. }
  rewrite preprocess_unfolded.
  destruct (get_table_schema_complete w (Some (now / (60 * 5))%Z) C)
    as (r & p' & -> & Cr & C').
  destruct (ref_dict r) as [|entry d] eqn:Ed.
  { eexists; eexists. split; [reflexivity|]. split; [exact C' | right; left; reflexivity]. }
  match goal with
  | |- context [build_prompt (entry :: d) ?q] =>
      destruct (build_prompt_returns q Cr) as [prompt ->]
  end.
  destruct (run_agent w prompt (runtime p')) as [r' rt'] eqn:R.
  eexists; eexists. split; [reflexivity|]. split; [exact C'|].
  right; right. exists prompt.
  destruct (run_agent_outcome w prompt (runtime p')) as [_ O]. rewrite R in O. cbn [fst] in O.
  destruct (fst (agent_run w prompt)) as [content|e].
  - destruct O as [-> | ->]; [left | right]; reflexivity.
  - rewrite O. reflexivity.
Qed.

(** After a call of [sql_agent] that got past the connection test, the
    schema cache holds a snapshot for the bucket of the call. *)
Lemma sql_agent_stores_the_bucket (w : World) (now : Z) (q : str) (p : Process) :
  sql_tool w <> None ->
  exists r, Functools.find key_eqb (Some (now / 300)%Z)
              (Functools.entries (schema_cache (snd (sql_agent w now q p)))) = Some r.
Proof.
  intros T. unfold sql_agent. destruct (sql_tool w) as [tool|]; [|congruence].
  rewrite preprocess_unfolded. change (60 * 5)%Z with 300%Z.
  destruct (build_schema_returns w (Some (now / 300)%Z) (runtime p)) as (d & rt' & Hb & _).
  destruct (@lru_two_calls _ _ _ key_eqb 32 key_eqb_refl ltac:(lia)
              (build_schema w) (build_schema w) (Some (now / 300)%Z)
              (schema_cache p) (runtime p))
    as (v & c1 & c2 & s1 & E1 & _); [eauto|].
  assert (F := @lru_stores _ _ _ key_eqb 32 key_eqb_refl ltac:(lia) _ _ _ _ _ _ _ E1).
  assert (G : get_table_schema w (Some (now / 300)%Z) p
              = (Ok v, MkProcess c1 (result_cache p) s1)).
  { unfold get_table_schema. rewrite E1. reflexivity. }
  rewrite G. exists v.
  destruct (ref_dict v); [exact F|].
  destruct (build_prompt _ _); [|exact F].
  destruct (run_agent _ _ _). exact F.
Qed.

(** X13.  Within one bucket of five minutes the schema is read once: in a
    call of [sql_agent] that follows another in the same bucket no snapshot
    is built, and the only statements that reach the store are those the
    agent sends, whatever the store has become. *)
Theorem sql_agent_reads_schema_once_per_bucket
        (w1 w2 : World) (now1 now2 : Z) (q1 q2 : str) (p : Process) :
  sql_tool w1 <> None -> (now1 / 300 = now2 / 300)%Z ->
  let p1 := snd (sql_agent w1 now1 q1 p) in
  let p2 := snd (sql_agent w2 now2 q2 p1) in
  allocated (runtime p2) = allocated (runtime p1)
  /\ exists sent,
       statements (runtime p2) = rev sent ++ statements (runtime p1)
       /\ (sent = [] \/ exists prompt, sent = snd (agent_run w2 prompt)).
Proof.
  intros T E p1 p2.
  destruct (sql_agent_stores_the_bucket w1 now1 q1 p T) as [r F].
  rewrite E in F. fold p1 in F.
  unfold p2, sql_agent. destruct (sql_tool w2) as [tool|].
  2:{ split; [reflexivity|]. exists []. split; [reflexivity | left; reflexivity]. }
  rewrite preprocess_unfolded. change (60 * 5)%Z with 300%Z.
  destruct (get_table_schema_hit w2 _ p1 F) as (p' & -> & R & _).
  assert (Same : allocated (runtime p') = allocated (runtime p1)
                 /\ exists sent,
                      statements (runtime p') = rev sent ++ statements (runtime p1)
                      /\ (sent = [] \/ exists prompt, sent = snd (agent_run w2 prompt))).
  { rewrite R. split; [reflexivity|]. exists []. split; [reflexivity | left; reflexivity]. }
  destruct (ref_dict r); [exact Same|].
  match goal with
  | |- context [build_prompt ?d ?q] => destruct (build_prompt d q) as [prompt|e]
  end; [|exact Same].
  destruct (run_agent_outcome w2 prompt (runtime p')) as [Rt _].
  destruct (run_agent w2 prompt (runtime p')) as [r' rt']. cbn [snd runtime] in *.
  subst rt'. unfold agent. cbn [snd].
  destruct (agent_log (snd (agent_run w2 prompt)) (runtime p')) as [-> ->].
  rewrite R. split; [reflexivity|].
  exists (snd (agent_run w2 prompt)). split; [reflexivity|]. right. exists prompt. reflexivity.
Qed.

(** ** The duplicate guard, applied again *)

(** Where the guard puts DISTINCT in: right after white space. *)
Lemma guard_insertion (s : str) (m : Re.Match) :
  Re.search_from Re.I (Re.Open 1 :: lits (py "SELECT") ++ [Re.Plus Re.CSpace; Re.Close 1])
                 None 0 s = Some m ->
  exists before sp post,
    s = (before ++ [sp]) ++ post /\ isspace sp = true
    /\ Re.sub_loop Re.I (Re.Open 1 :: lits (py "SELECT") ++ [Re.Plus Re.CSpace; Re.Close 1])
                   (Re.TGroup 1 :: map Re.TLit (py "DISTINCT ")) (Some 1) None s 0
       = (before ++ [sp]) ++ py "DISTINCT " ++ post.
Proof.
  intros HS.
  generalize (search_from_spec Re.I
                (Re.Open 1 :: lits (py "SELECT") ++ [Re.Plus Re.CSpace; Re.Close 1])
                None 0 s).
  rewrite HS. intros (l1 & l2 & n & mk & Es & U & Hm & _).
  destruct (match_SELECT _ _ Hm) as (kw & ws & tail & E2 & F & Nws & Sws & En & Emk).
  destruct (exists_last Nws) as (ws' & sp & Ews).
  assert (Sp : isspace sp = true).
  { subst ws. rewrite forallb_app in Sws. apply andb_prop in Sws.
    destruct Sws as [_ Sws]. simpl in Sws. rewrite andb_true_r in Sws. exact Sws. }
  exists (l1 ++ kw ++ ws'), sp, tail. split; [|split; [exact Sp|]].
  - rewrite Es, E2, Ews, <- !app_assoc. reflexivity.
  - destruct n as [|n']; [destruct ws; simpl in En; [congruence | lia]|].
    rewrite Es at 1. rewrite (sub_loop_first _ U Hm).
    cbn [Re.expand]. rewrite expand_literal.
    rewrite Emk. unfold Re.group_text. cbn [Re.mark_at Nat.eqb Nat.mul Nat.add].
    rewrite Nat.sub_0_r. change (skipn 0 l2) with l2.
    assert (Ef : firstn (S n') l2 = kw ++ ws).
    { rewrite E2, app_assoc, firstn_app, firstn_all2 by (rewrite length_app; lia).
      replace (S n' - length (kw ++ ws)) with 0 by (rewrite length_app; lia).
      apply app_nil_r. }
    assert (Et : skipn (S n') l2 = tail).
    { rewrite E2, app_assoc, skipn_app, skipn_all2 by (rewrite length_app; lia).
      replace (S n' - length (kw ++ ws)) with 0 by (rewrite length_app; lia).
      reflexivity. }
    rewrite Ef, Et, Ews, <- !app_assoc. reflexivity.
Qed.

(** A text in which the word is counted once has the word. *)
Lemma counted_is_found f p (s : str) :
  count_loop f p None s 0 <> 0 -> exists m, Re.search_from f p None 0 s = Some m.
Proof.
  intros H. generalize (search_from_spec f p None 0 s).
  destruct (Re.search_from f p None 0 s) as [m|]; [eauto|].
  intros M. rewrite (count_loop_matchless M) in H. congruence.
Qed.

(** X14.  The duplicate guard applied to its own result changes nothing:
    DISTINCT is never put in twice, and once it has been put in the guard
    reports no rewrite. *)
Theorem guard_applied_twice (s : str) :
  exists r m m',
    detect_and_handle_duplicates s = Ok (r, m)
    /\ detect_and_handle_duplicates r = Ok (r, m')
    /\ (r <> s -> m' = None).
Proof.
  destruct (search_returns JOIN s Re.I compile_JOIN) as [mj Hj].
  destruct (search_returns GROUP_BY s Re.I compile_GROUP_BY) as [mg Hg].
  destruct (search_returns DISTINCT s Re.I compile_DISTINCT) as [md Hd].
  destruct (truthy mj && negb (truthy mg) && negb (truthy md)) eqn:Cond.
  2:{ assert (D : detect_and_handle_duplicates s = Ok (s, None)).
      { unfold detect_and_handle_duplicates. fold JOIN GROUP_BY DISTINCT SELECT.
        rewrite Hj, Hg, Hd. cbn [bind]. rewrite Cond. reflexivity. }
      exists s, None, None. split; [exact D|]. split; [exact D | congruence]. }
  assert (D : detect_and_handle_duplicates s
              = Ok (Re.sub_loop Re.I
                      (Re.Open 1 :: lits (py "SELECT") ++ [Re.Plus Re.CSpace; Re.Close 1])
                      (Re.TGroup 1 :: map Re.TLit (py "DISTINCT ")) (Some 1) None s 0,
                    Some ADDED_DISTINCT)).
  { unfold detect_and_handle_duplicates. fold JOIN GROUP_BY DISTINCT SELECT.
    rewrite Hj, Hg, Hd. cbn [bind]. rewrite Cond.
    rewrite (sub_compiled SELECT (py "\1DISTINCT ") s 1 Re.I compile_SELECT template_DISTINCT).
    reflexivity. }
  destruct (Re.search_from Re.I
              (Re.Open 1 :: lits (py "SELECT") ++ [Re.Plus Re.CSpace; Re.Close 1]) None 0 s)
    as [ms|] eqn:HS.
  - (* DISTINCT is put in: the guard then sees it *)
    destruct (guard_insertion s HS) as (before & sp & post & Es & Sp & E).
    rewrite E in D.
    apply andb_prop in Cond. destruct Cond as [_ Cd].
    destruct md as [md|]; [discriminate Cd|].
    assert (ML := proj1 (absent_matchless DISTINCT s Re.I compile_DISTINCT) Hd).
    rewrite Es in ML.
    assert (One := @one_DISTINCT before sp post Sp ML).
    destruct (@counted_is_found Re.I (Re.WordB :: lits (py "distinct") ++ [Re.WordB])
                                ((before ++ [sp]) ++ py "DISTINCT " ++ post))
      as [md' Hd']; [rewrite One; discriminate|].
    exists ((before ++ [sp]) ++ py "DISTINCT " ++ post), (Some ADDED_DISTINCT), None.
    split; [exact D|]. split; [|reflexivity].
    unfold detect_and_handle_duplicates. fold JOIN GROUP_BY DISTINCT SELECT.
    destruct (search_returns JOIN ((before ++ [sp]) ++ py "DISTINCT " ++ post) Re.I compile_JOIN)
      as [mj' ->].
    destruct (search_returns GROUP_BY ((before ++ [sp]) ++ py "DISTINCT " ++ post) Re.I
                             compile_GROUP_BY) as [mg' ->].
    rewrite (search_compiled DISTINCT _ Re.I compile_DISTINCT), Hd'.
    cbn [bind truthy negb]. rewrite andb_false_r. reflexivity.
  - (* no SELECT to put it after: the text is returned as it is *)
    generalize (search_from_spec Re.I
                  (Re.Open 1 :: lits (py "SELECT") ++ [Re.Plus Re.CSpace; Re.Close 1])
                  None 0 s).
    rewrite HS. intros M. rewrite (sub_loop_matchless _ _ M) in D.
    exists s, (Some ADDED_DISTINCT), (Some ADDED_DISTINCT).
    split; [exact D|]. split; [exact D | congruence].
Qed.

(** ** The extractor, on a fenced block *)

Lemma takewhile_app_stop (test : uchar -> bool) (t rest : str) :
  forallb test t = true ->
  match rest with c :: _ => test c = false | [] => True end ->
  takewhile test (t ++ rest) = t /\ dropwhile test (t ++ rest) = rest.
Proof.
  intros A H. induction t as [|c t IH]; simpl.
  - destruct rest as [|c rest]; simpl; [split; reflexivity|]. rewrite H. split; reflexivity.
  - simpl in A. apply andb_prop in A. destruct A as [-> A].
    destruct (IH A) as [-> ->]. split; reflexivity.
Qed.

(** A greedy loop cannot pass a character that fails its test; when the
    continuation refuses every text it could stop at, the loop fails. *)
Lemma greedy_blocked (R : Type) (test : uchar -> bool)
      (k : option uchar -> nat -> str -> option R) (y : str) (c : uchar) (z : str) :
  test c = false ->
  (forall prev n x t, In x (y ++ [c]) -> k prev n (x :: t) = None) ->
  forall prev n, Re.greedy test k prev n ((y ++ [c]) ++ z) = None.
Proof.
  intros Tc Hk. induction y as [|d y IH]; intros prev n.
  - simpl. rewrite Tc. apply Hk. left. reflexivity.
  - cbn [app Re.greedy]. rewrite IH.
    + assert (K : k prev n (d :: (y ++ [c]) ++ z) = None) by (apply Hk; left; reflexivity).
      rewrite K. destruct (test d); reflexivity.
    + intros prev' n' x t I. apply Hk. right. exact I.
Qed.

(** A lazy loop goes on while its continuation refuses. *)
Lemma lazy_reaches (R : Type) (test : uchar -> bool)
      (k : option uchar -> nat -> str -> option R) (y z : str) (r : R) :
  Forall (fun c => test c = true) y ->
  forall prev n,
    (forall a b, y = a ++ b -> b <> [] ->
                 k (last_opt prev a) (n + length a) (b ++ z) = None) ->
    k (last_opt prev y) (n + length y) z = Some r ->
    Re.lazy test k prev n (y ++ z) = Some r.
Proof.
  induction 1 as [|c y Tc T IH]; intros prev n Hn Hz.
  - simpl in *. rewrite Nat.add_0_r in Hz. destruct z; simpl; rewrite Hz; reflexivity.
  - cbn [app Re.lazy].
    assert (K : k prev n (c :: y ++ z) = None).
    { specialize (Hn [] (c :: y) eq_refl ltac:(discriminate)).
      simpl in Hn. rewrite Nat.add_0_r in Hn. exact Hn. }
    rewrite K, Tc. apply IH.
    + intros a b E Nb. specialize (Hn (c :: a) b ltac:(simpl; congruence) Nb).
      simpl in Hn. rewrite Nat.add_succ_r in Hn. exact Hn.
    + simpl in Hz. rewrite Nat.add_succ_r in Hz. exact Hz.
Qed.

Lemma search_from_first f p prev (pos : nat) (l1 l2 : str) (n : nat) mk :
  unmatched f p prev l1 l2 ->
  Re.match_here f p (last_opt prev l1) l2 = Some (n, mk) ->
  Re.search_from f p prev pos (l1 ++ l2)
  = Some (Re.MkMatch (pos + length l1) (pos + length l1 + n) (Re.group_text l2 mk)).
Proof.
  revert prev pos; induction l1 as [|c l1 IH]; intros prev pos U H.
  - simpl in *. rewrite Nat.add_0_r. destruct l2; simpl; rewrite H; reflexivity.
  - apply unmatched_cons in U. destruct U as [H0 U].
    cbn [app Re.search_from]. rewrite H0, (IH (Some c) (S pos) U H).
    simpl. rewrite Nat.add_succ_r. reflexivity.
Qed.

(** The closing fence, after white space. *)
Lemma run_closing (start : str) prev (n : nat) (sp post : str) mk :
  sp <> [] -> forallb isspace sp = true ->
  Re.run Re.S_ start
         [Re.Close 1; Re.Plus Re.CSpace; Re.One (Re.CLit "`"); Re.One (Re.CLit "`");
          Re.One (Re.CLit "`")]
         prev n (sp ++ py "```" ++ post) mk
  = Some (n + length sp + 3, (3, n) :: mk).
Proof.
  intros N A. destruct sp as [|c t]; [congruence|].
  simpl in A. apply andb_prop in A. destruct A as [Sc A].
  cbn [Re.run app]. change (Re.cmatch Re.S_ Re.CSpace) with isspace. rewrite Sc.
  destruct (@takewhile_app_stop isspace t (py "```" ++ post) A eq_refl) as [T D].
  erewrite greedy_max; [reflexivity|]. rewrite T, D.
  change (py "```" ++ post) with (Ch "`" :: (Ch "`") :: (Ch "`") :: post).
  cbn [Re.run]. change (Re.cmatch Re.S_ (Re.CLit "`") "`") with true. cbn [length].
  do 2 f_equal. lia.
Qed.

(** No closing fence where the text goes on without a backquote. *)
Lemma run_closing_fails (start : str) prev (n : nat) (y : str) (c : uchar) (z : str) mk :
  isspace c = false -> ~ In (Ch "`") (y ++ [c]) ->
  Re.run Re.S_ start
         [Re.Close 1; Re.Plus Re.CSpace; Re.One (Re.CLit "`"); Re.One (Re.CLit "`");
          Re.One (Re.CLit "`")]
         prev n ((y ++ [c]) ++ z) mk
  = None.
Proof.
  intros Sc NB. cbn [Re.run]. change (Re.cmatch Re.S_ Re.CSpace) with isspace.
  destruct y as [|d y]; cbn [app]; [rewrite Sc; reflexivity|].
  destruct (isspace d); [|reflexivity].
  apply greedy_blocked; [exact Sc|].
  intros prev' n' x t I. cbn [Re.run].
  replace (Re.cmatch Re.S_ (Re.CLit "`") x) with false; [reflexivity|].
  symmetry. unfold Re.cmatch. cbn [Re.IGNORECASE Re.S_].
  destruct (ceqb x "`") eqn:E; [|reflexivity].
  apply ceqb_eq in E. subst x. exfalso. apply NB. right. exact I.
Qed.

Lemma strip_last (q y : str) (c : uchar) : strip q = y ++ [c] -> isspace c = false.
Proof.
  unfold strip, rstrip. intros E. apply (f_equal (@rev uchar)) in E.
  rewrite rev_involutive, rev_app_distr in E. simpl in E.
  generalize (lstrip_head (rev (lstrip q))). rewrite E. auto.
Qed.

(** One step of the matcher, item by item. *)
Lemma run_plus f (start : str) (c : Re.cclass) (p : list Re.item) prev (n : nat)
      (ch : uchar) (t : str) mk :
  Re.cmatch f c ch = true ->
  Re.run f start (Re.Plus c :: p) prev n (ch :: t) mk
  = Re.greedy (Re.cmatch f c) (fun prev' n' rest' => Re.run f start p prev' n' rest' mk)
              (Some ch) (S n) t.
Proof. intros H. cbn [Re.run]. rewrite H. reflexivity. Qed.

Lemma run_star f (start : str) (c : Re.cclass) (p : list Re.item) prev (n : nat)
      (rest : str) mk :
  Re.run f start (Re.Star c :: p) prev n rest mk
  = Re.greedy (Re.cmatch f c) (fun prev' n' rest' => Re.run f start p prev' n' rest' mk)
              prev n rest.
Proof. reflexivity. Qed.

Lemma run_lazy f (start : str) (c : Re.cclass) (p : list Re.item) prev (n : nat)
      (rest : str) mk :
  Re.run f start (Re.LazyStar c :: p) prev n rest mk
  = Re.lazy (Re.cmatch f c) (fun prev' n' rest' => Re.run f start p prev' n' rest' mk)
            prev n rest.
Proof. reflexivity. Qed.

Lemma run_open f (start : str) (g : nat) (p : list Re.item) prev (n : nat) (rest : str) mk :
  Re.run f start (Re.Open g :: p) prev n rest mk
  = Re.run f start p prev n rest ((2 * g, n) :: mk).
Proof. reflexivity. Qed.

Lemma run_close f (start : str) (g : nat) (p : list Re.item) prev (n : nat) (rest : str) mk :
  Re.run f start (Re.Close g :: p) prev n rest mk
  = Re.run f start p prev n rest ((2 * g + 1, n) :: mk).
Proof. reflexivity. Qed.

Lemma run_one f (start : str) (c : Re.cclass) (p : list Re.item) prev (n : nat)
      (ch : uchar) (t : str) mk :
  Re.run f start (Re.One c :: p) prev n (ch :: t) mk
  = if Re.cmatch f c ch then Re.run f start p (Some ch) (S n) t mk else None.
Proof. reflexivity. Qed.

(** The match of the fence pattern on a block. *)
Lemma match_fence prev (sp1 body sp2 post : str) :
  sp1 <> [] -> forallb isspace sp1 = true ->
  sp2 <> [] -> forallb isspace sp2 = true ->
  body <> [] -> ~ In (Ch "`") body -> strip body = body ->
  exists n,
    Re.match_here Re.S_
      (lits (py "```sql")
         ++ [Re.Plus Re.CSpace; Re.Open 1; Re.LazyStar Re.CAny; Re.Close 1;
             Re.Plus Re.CSpace; Re.One (Re.CLit "`"); Re.One (Re.CLit "`");
             Re.One (Re.CLit "`")])
      prev (py "```sql" ++ sp1 ++ body ++ sp2 ++ py "```" ++ post)
    = Some (n, [(3, 6 + length sp1 + length body); (2, 6 + length sp1)]).
Proof.
  intros N1 A1 N2 A2 Nb NB St.
  assert (Hh : match body with c :: _ => isspace c = false | [] => True end).
  { rewrite <- St. apply rstrip_head, lstrip_head. }
  destruct (exists_last Nb) as (y & c & Eb).
  assert (Sc : isspace c = false) by (apply (@strip_last body y c); congruence).
  unfold Re.match_here. rewrite run_lits.
  change (eat_lits Re.S_ (py "```sql") (py "```sql" ++ sp1 ++ body ++ sp2 ++ py "```" ++ post))
    with (Some (sp1 ++ body ++ sp2 ++ py "```" ++ post)).
  destruct sp1 as [|s1 t1]; [congruence|].
  simpl in A1. apply andb_prop in A1. destruct A1 as [Ss1 A1].
  cbn [app]. rewrite run_plus by exact Ss1.
  assert (Hh' : match body ++ sp2 ++ py "```" ++ post with
                | c0 :: _ => isspace c0 = false
                | [] => True
                end).
  { destruct body; [congruence | exact Hh]. }
  destruct (@takewhile_app_stop isspace t1 (body ++ sp2 ++ py "```" ++ post) A1 Hh') as [T D].
  change (Re.cmatch Re.S_ Re.CSpace) with isspace.
  eexists. erewrite greedy_max; [reflexivity|]. rewrite T, D.
  rewrite run_open, run_lazy.
  erewrite lazy_reaches.
  - reflexivity.
  - apply Forall_forall. intros x _. reflexivity.
  - intros a b E Nbb.
    destruct (@suffix_of_snoc _ a b y c ltac:(congruence) Nbb) as (b' & ->).
    cbv beta. rewrite app_assoc.
    apply (@run_closing_fails _ _ _ b' c); [exact Sc|].
    intros I. apply NB. rewrite E. apply in_or_app. right. exact I.
  - cbv beta. rewrite (@run_closing _ _ _ sp2 post _ N2 A2).
    cbn [length Nat.add Nat.mul]. do 4 f_equal; simpl; lia.
Qed.

(** X15.  A fenced block tagged [sql], the first backquotes of the answer,
    gives back the statement it holds, without the white space around
    it. *)
Theorem extract_sql_of_fenced_block (pre sp1 body sp2 post : str) :
  ~ In (Ch "`") pre ->
  sp1 <> [] -> forallb isspace sp1 = true ->
  sp2 <> [] -> forallb isspace sp2 = true ->
  body <> [] -> ~ In (Ch "`") body -> strip body = body ->
  extract_sql (pre ++ py "```sql" ++ sp1 ++ body ++ sp2 ++ py "```" ++ post)
  = Ok (Some body).
Proof.
  intros NP N1 A1 N2 A2 Nb NB St.
  unfold extract_sql. fold FENCE.
  rewrite (search_compiled FENCE _ Re.S_ compile_FENCE). cbn [bind].
  destruct (@match_fence (last_opt None pre) sp1 body sp2 post N1 A1 N2 A2 Nb NB St)
    as [n Hm].
  assert (U : unmatched Re.S_
                (lits (py "```sql")
                   ++ [Re.Plus Re.CSpace; Re.Open 1; Re.LazyStar Re.CAny; Re.Close 1;
                       Re.Plus Re.CSpace; Re.One (Re.CLit "`"); Re.One (Re.CLit "`");
                       Re.One (Re.CLit "`")])
                None pre (py "```sql" ++ sp1 ++ body ++ sp2 ++ py "```" ++ post)).
  { intros a b E Nbb. unfold Re.match_here. rewrite run_lits.
    destruct b as [|x b]; [congruence|].
    destruct (eat_lits Re.S_ (py "```sql") _) as [rest'|] eqn:Ew; [exfalso|reflexivity].
    apply (@eat_lits_starts_with _ _ _ Re.S_ eq_refl) in Ew.
    change (py "```sql") with (Ch "`" :: py "``sql") in Ew.
    cbn [app starts_with] in Ew. apply andb_prop in Ew. destruct Ew as [Ex _].
    apply ceqb_eq in Ex. subst x. apply NP. rewrite E.
    apply in_or_app. right. left. reflexivity. }
  rewrite (search_from_first 0 U Hm).
  cbn [Re.m_group]. unfold Re.group_text. cbn [Re.mark_at Nat.eqb Nat.mul Nat.add].
  replace (S (S (S (S (S (S (length sp1 + length body)))))) - S (S (S (S (S (S (length sp1)))))))
    with (length body) by lia.
  change (S (S (S (S (S (S (length sp1))))))) with (length (py "```sql") + length sp1).
  rewrite <- length_app.
  rewrite (app_assoc (py "```sql") sp1).
  rewrite skipn_app, skipn_all, Nat.sub_diag. cbn [skipn app].
  rewrite firstn_app, firstn_all, Nat.sub_diag. cbn [firstn]. rewrite app_nil_r.
  cbn [option_map]. rewrite St. reflexivity.
Qed.

(** ** The string-match step, on an equality *)

Lemma greedy_inv (R : Type) (test : uchar -> bool)
      (k : option uchar -> nat -> str -> option R) (rest : str) :
  forall prev n,
    Re.greedy test k prev n rest <> None ->
    exists u v, rest = u ++ v /\ Forall (fun c => test c = true) u
                /\ k (last_opt prev u) (n + length u) v <> None.
Proof.
  induction rest as [|ch t IH]; intros prev n H.
  - exists [], []. simpl in *. rewrite Nat.add_0_r. auto.
  - cbn [Re.greedy] in H. destruct (test ch) eqn:T.
    + destruct (Re.greedy test k (Some ch) (S n) t) eqn:G.
      * destruct (IH (Some ch) (S n)) as (u & v & -> & F & K); [congruence|].
        exists (ch :: u), v. simpl. rewrite Nat.add_succ_r. auto.
      * exists [], (ch :: t). simpl. rewrite Nat.add_0_r. auto.
    + exists [], (ch :: t). simpl. rewrite Nat.add_0_r. auto.
Qed.

(** The beginning of every match of the two equality patterns: a word,
    white space, and the equals sign. *)
Lemma equality_shape f (start : str) (p : list Re.item) prev (n : nat) (rest : str) mk :
  Re.IGNORECASE f = false ->
  Re.run f start ([Re.Plus Re.CWord; Re.Star Re.CSpace; Re.One (Re.CLit "=")] ++ p)
         prev n rest mk <> None ->
  exists w sp r,
    rest = w ++ sp ++ (Ch "=") :: r /\ w <> []
    /\ Forall (fun c => isword c = true) w /\ Forall (fun c => isspace c = true) sp
    /\ Re.run f start p (Some (Ch "=")) (n + length w + length sp + 1) r mk <> None.
Proof.
  intros NI H. cbn [app] in H. destruct rest as [|c t]; [exact (False_ind _ (H eq_refl))|].
  destruct (Re.cmatch f Re.CWord c) eqn:Wc.
  2:{ cbn [Re.run] in H. rewrite Wc in H. congruence. }
  rewrite (@run_plus f _ Re.CWord _ _ _ c t _ Wc) in H.
  apply greedy_inv in H. destruct H as (u & v & -> & Fu & H).
  rewrite run_star in H. apply greedy_inv in H. destruct H as (sp & v' & -> & Fs & H).
  destruct v' as [|e r]; [exact (False_ind _ (H eq_refl))|].
  rewrite run_one in H. unfold Re.cmatch at 1 in H. rewrite NI in H.
  destruct (ceqb e "=") eqn:Ee; [|congruence]. apply ceqb_eq in Ee. subst e.
  exists (c :: u), sp, r. split; [reflexivity|]. split; [discriminate|].
  split; [constructor; assumption|]. split; [exact Fs|].
  cbn [length].
  replace (n + S (length u) + length sp + 1) with (S (S n + length u + length sp)) by lia.
  exact H.
Qed.

(** The equals sign of a text that has one. *)
Lemma unique_sign (x : uchar) (a b u v : str) :
  ~ In x a -> ~ In x u -> a ++ x :: b = u ++ x :: v -> a = u /\ b = v.
Proof.
  revert u; induction a as [|c a IH]; intros [|d u] Na Nu E; simpl in E.
  - injection E as ->. auto.
  - injection E as <- _. exfalso. apply Nu. left. reflexivity.
  - injection E as -> _. exfalso. apply Na. left. reflexivity.
  - injection E as <- E. destruct (IH u) as [-> ->]; auto.
    + intros I. apply Na. right. exact I.
    + intros I. apply Nu. right. exact I.
Qed.

Lemma word_is_no_sign (w : str) : Forall (fun c => isword c = true) w -> ~ In (Ch "=") w.
Proof.
  intros F I. rewrite Forall_forall in F. specialize (F _ I). discriminate F.
Qed.

Lemma space_is_no_sign (w : str) : Forall (fun c => isspace c = true) w -> ~ In (Ch "=") w.
Proof.
  intros F I. rewrite Forall_forall in F. specialize (F _ I). discriminate F.
Qed.

Lemma not_in_app (A : Type) (x : A) (a b : list A) : ~ In x a -> ~ In x b -> ~ In x (a ++ b).
Proof. intros Na Nb I. apply in_app_or in I. tauto. Qed.

(** Without an equals sign there is no match of the first pattern. *)
Lemma equality_needs_sign (prev : option uchar) (s : str) :
  ~ In (Ch "=") s ->
  matchless Re.NOFLAG
    ([Re.Open 1; Re.Plus Re.CWord; Re.Close 1; Re.Star Re.CSpace;
      Re.One (Re.CLit "="); Re.Star Re.CSpace;
      Re.Open 2; Re.One (Re.CSet QUOTES); Re.Close 2]
       ++ [Re.Open 3; Re.LazyStar Re.CAny; Re.Close 3;
           Re.Open 4; Re.Backref 2; Re.Close 4])
    prev s.
Proof.
  intros N l1 l2 E. unfold Re.match_here.
  destruct (Re.run _ _ _ _ _ _ _) eqn:R; [exfalso|reflexivity].
  assert (H : Re.run Re.NOFLAG l2
                ([Re.Plus Re.CWord; Re.Star Re.CSpace; Re.One (Re.CLit "=")] ++ [])
                (last_opt prev l1) 0 l2 [] <> None).
  { refine (@run_unmark_prefix Re.NOFLAG
              [Re.Open 1; Re.Plus Re.CWord; Re.Close 1; Re.Star Re.CSpace; Re.One (Re.CLit "=")]
              _ eq_refl l2 l2 _ 0 0 _ [] [] _).
    cbn [app] in *. rewrite R. discriminate. }
  apply equality_shape in H; [|reflexivity].
  destruct H as (w & sp & r & -> & _). apply N. rewrite E.
  apply in_or_app. right. apply in_or_app. right. apply in_or_app. right. left. reflexivity.
Qed.

Lemma cut_at (x y z : str) (a b : nat) :
  a = length x -> b = a + length y -> firstn (b - a) (skipn a (x ++ y ++ z)) = y.
Proof.
  intros -> ->. replace (length x + length y - length x) with (length y) by lia.
  rewrite skipn_app, skipn_all, Nat.sub_diag. cbn [skipn app].
  rewrite firstn_app, firstn_all, Nat.sub_diag. cbn [firstn]. apply app_nil_r.
Qed.

Lemma forallb_of_Forall (test : uchar -> bool) (s : str) :
  Forall (fun c => test c = true) s -> forallb test s = true.
Proof. intros F. apply forallb_forall. apply Forall_forall. exact F. Qed.

(** The end of the first pattern: the third group closes and the quote of
    the second group comes back. *)
Lemma run_closing_quote (start : str) prev (n : nat) (rest : str) mk (txt : str) :
  Re.group_text start mk 2 = Some txt ->
  Re.run Re.NOFLAG start [Re.Close 3; Re.Open 4; Re.Backref 2; Re.Close 4] prev n rest mk
  = Re.eat (fun _ n' _ => Some (n', (9, n') :: (8, n) :: (7, n) :: mk))
           (Re.same_char Re.NOFLAG) txt prev n rest.
Proof.
  intros G. rewrite run_close, run_open. cbn [Re.run].
  replace (Re.group_text start ((2 * 4, n) :: (2 * 3 + 1, n) :: mk) 2) with (Some txt)
    by (rewrite <- G; reflexivity).
  reflexivity.
Qed.

Lemma match_equality prev (col sp1 sp2 : str) (q : uchar) (lit post : str) :
  col <> [] -> Forall (fun c => isword c = true) col ->
  Forall (fun c => isspace c = true) sp1 ->
  Forall (fun c => isspace c = true) sp2 ->
  In q QUOTES -> ~ In q lit -> ~ In NL lit ->
  exists mk,
    Re.match_here Re.NOFLAG
      ([Re.Open 1; Re.Plus Re.CWord; Re.Close 1; Re.Star Re.CSpace;
        Re.One (Re.CLit "="); Re.Star Re.CSpace;
        Re.Open 2; Re.One (Re.CSet QUOTES); Re.Close 2]
         ++ [Re.Open 3; Re.LazyStar Re.CAny; Re.Close 3;
             Re.Open 4; Re.Backref 2; Re.Close 4])
      prev (col ++ sp1 ++ (Ch "=") :: sp2 ++ q :: lit ++ q :: post)
    = Some (length (col ++ sp1 ++ (Ch "=") :: sp2 ++ q :: lit ++ [q]), mk)
    /\ Re.group_text (col ++ sp1 ++ (Ch "=") :: sp2 ++ q :: lit ++ q :: post) mk 1 = Some col
    /\ Re.group_text (col ++ sp1 ++ (Ch "=") :: sp2 ++ q :: lit ++ q :: post) mk 2 = Some [q]
    /\ Re.group_text (col ++ sp1 ++ (Ch "=") :: sp2 ++ q :: lit ++ q :: post) mk 3 = Some lit
    /\ Re.group_text (col ++ sp1 ++ (Ch "=") :: sp2 ++ q :: lit ++ q :: post) mk 4 = Some [q].
Proof.
  intros Nc Wc S1 S2 Q NQ NN.
  destruct col as [|c0 ct]; [congruence|]. inversion Wc as [|? ? W0 Wt]; subst.
  assert (Qs : isspace q = false /\ Re.cmatch Re.NOFLAG (Re.CSet QUOTES) q = true).
  { destruct Q as [<-|[<-|[]]]; split; reflexivity. }
  destruct Qs as [Qs Qm].
  unfold Re.match_here. cbn [app].
  set (start := c0 :: _). unfold start at 2.
  pose (n1 := S (1 + length ct + length sp1) + length sp2).
  pose (mk5 := [(2 * 3, S n1); (2 * 2 + 1, S n1); (2 * 2, n1);
                (2 * 1 + 1, 1 + length ct); (2 * 1, 0)]).
  assert (G : Re.group_text start mk5 2 = Some [q]).
  { change (Re.group_text start mk5 2) with (Some (firstn (S n1 - n1) (skipn n1 start))).
    f_equal.
    replace start with ((c0 :: ct ++ sp1 ++ (Ch "=") :: sp2) ++ [q] ++ lit ++ q :: post)
      by (unfold start; repeat (cbn [app]; rewrite <- ?app_assoc); reflexivity).
    apply cut_at; unfold n1; cbn [length]; rewrite ?length_app; cbn [length]; lia. }
  rewrite run_open. rewrite (@run_plus Re.NOFLAG _ Re.CWord _ _ _ c0 _ _ W0).
  change (Re.cmatch Re.NOFLAG Re.CWord) with isword.
  assert (H1 : match sp1 ++ (Ch "=") :: sp2 ++ q :: lit ++ q :: post with
               | c :: _ => isword c = false | [] => True end).
  { destruct sp1 as [|s t]; [reflexivity|]. inversion S1; subst.
    apply space_not_word. assumption. }
  destruct (@takewhile_app_stop isword ct _ (@forallb_of_Forall _ _ Wt) H1) as [T1 D1].
  pose (n3 := S n1 + length lit).
  exists ((9, S n3) :: (8, n3) :: (7, n3) :: mk5).
  split.
  2:{ clear T1 D1 H1.
      split; [|split; [|split]].
      - change (Re.group_text start ((9, S n3) :: (8, n3) :: (7, n3) :: mk5) 1)
          with (Some (firstn (1 + length ct - 0) (skipn 0 start))).
        f_equal.
        replace start with ([] ++ (c0 :: ct) ++ sp1 ++ (Ch "=") :: sp2 ++ q :: lit ++ q :: post)
          by reflexivity.
        apply cut_at; cbn [length]; lia.
      - exact G.
      - change (Re.group_text start ((9, S n3) :: (8, n3) :: (7, n3) :: mk5) 3)
          with (Some (firstn (n3 - S n1) (skipn (S n1) start))).
        f_equal.
        replace start with ((c0 :: ct ++ sp1 ++ (Ch "=") :: sp2 ++ [q]) ++ lit ++ q :: post)
          by (unfold start; repeat (cbn [app]; rewrite <- ?app_assoc); reflexivity).
        apply cut_at; unfold n3, n1; cbn [length]; rewrite ?length_app; cbn [length];
          rewrite ?length_app; cbn [length]; lia.
      - change (Re.group_text start ((9, S n3) :: (8, n3) :: (7, n3) :: mk5) 4)
          with (Some (firstn (S n3 - n3) (skipn n3 start))).
        f_equal.
        replace start with ((c0 :: ct ++ sp1 ++ (Ch "=") :: sp2 ++ q :: lit) ++ [q] ++ post)
          by (unfold start; repeat (cbn [app]; rewrite <- ?app_assoc); reflexivity).
        apply cut_at; unfold n3, n1; cbn [length]; rewrite ?length_app; cbn [length];
          rewrite ?length_app; cbn [length]; lia. }
  erewrite greedy_max; [reflexivity|]. rewrite T1, D1. clear H1 T1 D1.
  rewrite run_close, run_star.
  change (Re.cmatch Re.NOFLAG Re.CSpace) with isspace.
  destruct (@takewhile_app_stop isspace sp1 (Ch "=" :: sp2 ++ q :: lit ++ q :: post)
              (@forallb_of_Forall _ _ S1) eq_refl) as [T2 D2].
  erewrite greedy_max; [reflexivity|]. rewrite T2, D2. clear T2 D2.
  rewrite run_one. change (Re.cmatch Re.NOFLAG (Re.CLit "=") "=") with true. cbv iota.
  rewrite run_star. change (Re.cmatch Re.NOFLAG Re.CSpace) with isspace.
  destruct (@takewhile_app_stop isspace sp2 (q :: lit ++ q :: post)
              (@forallb_of_Forall _ _ S2) Qs) as [T3 D3].
  erewrite greedy_max; [reflexivity|]. rewrite T3, D3. clear T3 D3.
  rewrite run_open, run_one, Qm, run_close, run_open, run_lazy.
  fold n1. fold mk5.
  erewrite lazy_reaches.
  - reflexivity.
  - apply Forall_forall. intros x I. unfold Re.cmatch. cbn.
    destruct (ceqb x NL) eqn:E; [|reflexivity].
    apply ceqb_eq in E. subst x. contradiction.
  - intros a b E Nb. cbv beta. rewrite (@run_closing_quote _ _ _ _ _ _ G).
    destruct b as [|x b]; [congruence|]. cbn [app Re.eat].
    change (Re.same_char Re.NOFLAG x q) with (ceqb x q).
    destruct (ceqb x q) eqn:Ex; [|reflexivity].
    apply ceqb_eq in Ex. subst x. exfalso. apply NQ. rewrite E.
    apply in_or_app. right. left. reflexivity.
  - cbv beta. rewrite (@run_closing_quote _ _ _ _ _ _ G). cbn [Re.eat].
    change (Re.same_char Re.NOFLAG q q) with (ceqb q q). rewrite ceqb_refl.
    fold n3. f_equal. f_equal.
    unfold n3, n1. cbn [length]. rewrite ?length_app. cbn [length].
    rewrite ?length_app. cbn [length]. rewrite ?length_app. cbn [length]. lia.
Qed.

Lemma only_sign (x : uchar) (a b u v : str) :
  ~ In x a -> ~ In x b -> a ++ x :: b = u ++ x :: v -> a = u /\ b = v.
Proof.
  revert u; induction a as [|c a IH]; intros [|d u] Na Nb E; simpl in E.
  - injection E as ->. auto.
  - injection E as <- ->. exfalso. apply Nb. apply in_or_app. right. left. reflexivity.
  - injection E as -> _. exfalso. apply Na. left. reflexivity.
  - injection E as <- E. destruct (IH u) as [-> ->]; auto.
    intros I. apply Na. right. exact I.
Qed.

Lemma template_equality_parts :
  Re.parse_template 4 0 (py "LOWER(\1) = LOWER(\2\3\4)")
  = Ok (map Re.TLit (py "LOWER(") ++ Re.TGroup 1
          :: map Re.TLit (py ") = LOWER(")
          ++ [Re.TGroup 2; Re.TGroup 3; Re.TGroup 4; Re.TLit ")"]).
Proof. reflexivity. Qed.

Lemma expand_lits (w : str) (tpl : list Re.tpart) (start : str) mk :
  Re.expand (map Re.TLit w ++ tpl) start mk = w ++ Re.expand tpl start mk.
Proof. induction w as [|c w IH]; simpl; [reflexivity|]. rewrite IH. reflexivity. Qed.

Lemma expand_group (g : nat) (tpl : list Re.tpart) (start : str) mk (txt : str) :
  Re.group_text start mk g = Some txt ->
  Re.expand (Re.TGroup g :: tpl) start mk = txt ++ Re.expand tpl start mk.
Proof. intros G. cbn [Re.expand]. rewrite G. reflexivity. Qed.

(** One match, and none before it or after it: the substitution replaces
    that match. *)
Lemma sub_loop_one f p tpl prev (l1 m post : str) mk :
  unmatched f p prev l1 (m ++ post) ->
  m <> [] ->
  Re.match_here f p (last_opt prev l1) (m ++ post) = Some (length m, mk) ->
  matchless f p (last_opt (last_opt prev l1) m) post ->
  Re.sub_loop f p tpl None prev (l1 ++ m ++ post) 0
  = l1 ++ Re.expand tpl (m ++ post) mk ++ post.
Proof.
  intros U N H ML. rewrite sub_loop_unmatched by exact U. f_equal.
  destruct m as [|c m]; [congruence|].
  cbn [app length] in *. cbn [Re.sub_loop]. rewrite H. f_equal.
  cbn [option_map]. rewrite sub_loop_skip. apply sub_loop_matchless. exact ML.
Qed.

(** No match of the first pattern begins in a text without equals sign
    that does not end in a word character, whatever follows the word
    after it. *)
Lemma equality_not_before (pre col sp1 rest : str) :
  ~ In (Ch "=") pre -> isword (last pre (Ch " ")) = false ->
  col <> [] -> Forall (fun c => isword c = true) col ->
  Forall (fun c => isspace c = true) sp1 ->
  unmatched Re.NOFLAG
    ([Re.Open 1; Re.Plus Re.CWord; Re.Close 1; Re.Star Re.CSpace;
      Re.One (Re.CLit "="); Re.Star Re.CSpace;
      Re.Open 2; Re.One (Re.CSet QUOTES); Re.Close 2]
       ++ [Re.Open 3; Re.LazyStar Re.CAny; Re.Close 3;
           Re.Open 4; Re.Backref 2; Re.Close 4])
    None pre (col ++ sp1 ++ (Ch "=") :: rest).
Proof.
  intros NP LP Nc Wc S1 a b E Nb. unfold Re.match_here.
  destruct (Re.run _ _ _ _ _ _ _) eqn:R; [exfalso|reflexivity].
  assert (H : Re.run Re.NOFLAG (b ++ col ++ sp1 ++ (Ch "=") :: rest)
                ([Re.Plus Re.CWord; Re.Star Re.CSpace; Re.One (Re.CLit "=")] ++ [])
                (last_opt None a) 0 (b ++ col ++ sp1 ++ (Ch "=") :: rest) [] <> None).
  { refine (@run_unmark_prefix Re.NOFLAG
              [Re.Open 1; Re.Plus Re.CWord; Re.Close 1; Re.Star Re.CSpace; Re.One (Re.CLit "=")]
              _ eq_refl _ _ _ 0 0 _ [] [] _).
    cbn [app] in *. rewrite R. discriminate. }
  apply equality_shape in H; [|reflexivity].
  destruct H as (w & sp & r & Ew & _ & Ww & Ws & _).
  destruct (exists_last Nb) as (b' & c & ->).
  assert (Wc' : isword c = false).
  { rewrite E, app_assoc, last_last in LP. exact LP. }
  assert (E2 : (b' ++ [c]) ++ col ++ sp1 = w ++ sp).
  { apply (@unique_sign (Ch "=") _ rest _ r).
    - rewrite E in NP. intros I. apply in_app_or in I. destruct I as [I|I].
      + apply NP. apply in_or_app. right. exact I.
      + apply in_app_or in I. destruct I as [I|I].
        * exact (word_is_no_sign Wc I).
        * exact (space_is_no_sign S1 I).
    - apply not_in_app; [exact (word_is_no_sign Ww) | exact (space_is_no_sign Ws)].
    - rewrite <- !app_assoc in *. exact Ew. }
  apply app_eq_app in E2. destruct E2 as [l [[E3 E4] | [E3 E4]]].
  - destruct col as [|c0 ct]; [congruence|]. inversion Wc as [|? ? W0 _]; subst.
    rewrite Forall_forall in Ws.
    assert (I : In c0 (l ++ (c0 :: ct) ++ sp1)).
    { apply in_or_app. right. left. reflexivity. }
    apply Ws in I. apply space_not_word in I. congruence.
  - rewrite Forall_forall in Ww.
    assert (I : In c ((b' ++ [c]) ++ l)).
    { apply in_or_app. left. apply in_or_app. right. left. reflexivity. }
    rewrite <- E3 in I. apply Ww in I. congruence.
Qed.

(** After the substitution no equality against a quoted literal is left:
    the equals sign is followed by [LOWER]. *)
Lemma lowered_has_no_quoted_equality (a b : str) :
  ~ In (Ch "=") a -> ~ In (Ch "=") b ->
  matchless Re.NOFLAG
    [Re.Plus Re.CWord; Re.Star Re.CSpace; Re.One (Re.CLit "=");
     Re.Star Re.CSpace; Re.One (Re.CSet QUOTES)]
    None (a ++ py "= L" ++ b).
Proof.
  intros Na Nb l1 l2 E. unfold Re.match_here.
  destruct (Re.run _ _ _ _ _ _ _) eqn:R; [exfalso|reflexivity].
  assert (H : Re.run Re.NOFLAG l2
                ([Re.Plus Re.CWord; Re.Star Re.CSpace; Re.One (Re.CLit "=")]
                   ++ [Re.Star Re.CSpace; Re.One (Re.CSet QUOTES)])
                (last_opt None l1) 0 l2 [] <> None).
  { cbn [app]. rewrite R. discriminate. }
  apply equality_shape in H; [|reflexivity].
  destruct H as (w & sp & r & -> & _ & _ & _ & H).
  rewrite run_star in H. apply greedy_inv in H.
  destruct H as (u & v & -> & Fu & H).
  destruct v as [|x v]; [exact (H eq_refl)|].
  rewrite run_one in H. destruct (Re.cmatch Re.NOFLAG (Re.CSet QUOTES) x) eqn:Q;
    [clear H | exact (H eq_refl)].
  change (a ++ py "= L" ++ b) with (a ++ (Ch "=") :: (Ch " ") :: (Ch "L") :: b) in E.
  rewrite !app_assoc in E. apply only_sign in E; [|exact Na|].
  2:{ intros [I|[I|I]]; [discriminate I | discriminate I | exact (Nb I)]. }
  destruct E as [_ E].
  destruct u as [|s u]; simpl in E.
  - injection E as <- _. discriminate Q.
  - injection E as <- E. destruct u as [|s' u]; simpl in E.
    + injection E as <- _. discriminate Q.
    + injection E as <- _. inversion Fu as [|? ? _ Fu']; subst.
      inversion Fu' as [|? ? F _]; subst. discriminate F.
Qed.

(** X16.  An equality of a column with a quoted literal, the only equals
    sign of the statement, is rewritten to a comparison of the two in
    lower case, with one space on each side of the sign; the rest of the
    statement is kept and no description is returned. *)
Theorem improve_lowers_an_equality (pre col sp1 sp2 : str) (q : uchar) (lit post : str) :
  ~ In (Ch "=") pre -> isword (last pre (Ch " ")) = false ->
  col <> [] -> Forall (fun c => isword c = true) col ->
  Forall (fun c => isspace c = true) sp1 ->
  Forall (fun c => isspace c = true) sp2 ->
  In q QUOTES -> ~ In q lit -> ~ In NL lit -> ~ In (Ch "=") lit ->
  ~ In (Ch "=") post ->
  improve_string_matching (pre ++ col ++ sp1 ++ (Ch "=") :: sp2 ++ q :: lit ++ q :: post)
  = Ok (pre ++ py "LOWER(" ++ col ++ py ") = LOWER(" ++ q :: lit ++ q :: (Ch ")") :: post,
        None).
Proof.
  intros NP LP Nc Wc S1 S2 Q NQ NN NL' NPost.
  unfold improve_string_matching. fold QUOTED_EQUALITY.
  rewrite (sub_compiled _ _ _ 0 Re.NOFLAG compile_equality template_equality_parts).
  destruct (@match_equality (last_opt None pre) col sp1 sp2 q lit post
              Nc Wc S1 S2 Q NQ NN) as (mk & Hm & G1 & G2 & G3 & G4).
  set (m := col ++ sp1 ++ (Ch "=") :: sp2 ++ q :: lit ++ [q]) in *.
  assert (Em : col ++ sp1 ++ (Ch "=") :: sp2 ++ q :: lit ++ q :: post = m ++ post).
  { unfold m. repeat (cbn [app]; rewrite <- ?app_assoc). reflexivity. }
  rewrite Em in *.
  assert (Qe : q <> (Ch "=")).
  { destruct Q as [<-|[<-|[]]]; discriminate. }
  rewrite (@sub_loop_one Re.NOFLAG _ _ None pre m post mk).
  - rewrite expand_lits, (@expand_group 1 _ _ _ _ G1), expand_lits.
    rewrite (@expand_group 2 _ _ _ _ G2), (@expand_group 3 _ _ _ _ G3),
      (@expand_group 4 _ _ _ _ G4).
    cbn [Re.expand bind].
    set (r := pre ++ _).
    assert (ML : matchless Re.NOFLAG
                   [Re.Plus Re.CWord; Re.Star Re.CSpace; Re.One (Re.CLit "=");
                    Re.Star Re.CSpace; Re.One (Re.CSet QUOTES)] None r).
    { replace r with ((pre ++ py "LOWER(" ++ col ++ py ") ")
                        ++ py "= L" ++ py "OWER(" ++ q :: lit ++ q :: (Ch ")") :: post)
        by (unfold r; repeat (cbn [app]; rewrite <- ?app_assoc); reflexivity).
      apply lowered_has_no_quoted_equality.
      - apply not_in_app; [exact NP|]. apply not_in_app.
        + intros I. unfold py in I. cbn in I. intuition discriminate.
        + apply not_in_app; [exact (word_is_no_sign Wc)|].
          intros I. unfold py in I. cbn in I. intuition discriminate.
      - apply not_in_app.
        + intros I. unfold py in I. cbn in I. intuition discriminate.
        + intros [I|I]; [congruence|]. apply in_app_or in I. destruct I as [I|[I|[I|I]]].
          * exact (NL' I).
          * congruence.
          * discriminate I.
          * exact (NPost I). }
    rewrite (search_compiled QUOTED_EQUALITY r Re.NOFLAG compile_QUOTED_EQUALITY).
    rewrite (search_from_matchless 0 ML).
    destruct (negb (contains (py "LIKE") (str_upper r))); cbn [bind truthy].
    + unfold r. repeat (cbn [app]; rewrite <- ?app_assoc). reflexivity.
    + unfold r. repeat (cbn [app]; rewrite <- ?app_assoc). reflexivity.
  - rewrite <- Em. apply equality_not_before; assumption.
  - unfold m. destruct col; [congruence | discriminate].
  - exact Hm.
  - apply equality_needs_sign. exact NPost.
Qed.

End Properties.

(** ** The schema cache, bucket by bucket *)

Lemma key_eqb_eq (a b : option Z) : key_eqb a b = true <-> a = b.
Proof.
  destruct a as [x|], b as [y|]; simpl; try (split; [discriminate | congruence]).
  - rewrite Z.eqb_eq. split; congruence.
  - split; reflexivity.
Qed.

Section LruKeys.
Variables K V St : Type.
Variable eqb : K -> K -> bool.
Variable maxsize : nat.
Hypothesis eqb_eq : forall a b, eqb a b = true <-> a = b.

Lemma eqb_same (k : K) : eqb k k = true.
Proof. apply eqb_eq. reflexivity. Qed.

Lemma eqb_other (a b : K) : a <> b -> eqb a b = false.
Proof.
  intros N. destruct (eqb a b) eqn:E; [|reflexivity]. apply eqb_eq in E. contradiction.
Qed.

Lemma find_none (k : K) (l : list (K * V)) :
  Functools.find eqb k l = None <-> ~ In k (map fst l).
Proof.
  induction l as [|[k' v'] l IH]; simpl; [tauto|].
  destruct (eqb k k') eqn:E.
  - apply eqb_eq in E. split; [discriminate | intros N; exfalso; apply N; left; congruence].
  - rewrite IH. split; [|tauto]. intros N [H|H]; [|tauto].
    subst k'. rewrite eqb_same in E. discriminate.
Qed.

Lemma find_skip (k : K) (front l : list (K * V)) :
  ~ In k (map fst front) ->
  Functools.find eqb k (front ++ l) = Functools.find eqb k l.
Proof.
  induction front as [|[k' v'] front IH]; simpl; [reflexivity|]. intros N.
  rewrite eqb_other by (intros ->; apply N; left; reflexivity).
  apply IH. tauto.
Qed.

Lemma drop_skip (k : K) (front : list (K * V)) (v : V) (back : list (K * V)) :
  ~ In k (map fst front) ->
  Functools.drop eqb k (front ++ (k, v) :: back) = front ++ back.
Proof.
  induction front as [|[k' v'] front IH]; simpl; intros N.
  - rewrite eqb_same. reflexivity.
  - rewrite eqb_other by (intros ->; apply N; left; reflexivity).
    rewrite IH by tauto. reflexivity.
Qed.

Lemma drop_back (k b : K) (front : list (K * V)) (r : V) (back : list (K * V)) :
  ~ In k (map fst front) -> k <> b ->
  Functools.drop eqb k (front ++ (b, r) :: back)
  = front ++ (b, r) :: Functools.drop eqb k back.
Proof.
  induction front as [|[k' v'] front IH]; simpl; intros N Nb.
  - rewrite eqb_other by exact Nb. reflexivity.
  - rewrite eqb_other by (intros ->; apply N; left; reflexivity).
    rewrite IH by tauto. reflexivity.
Qed.

Lemma drop_front (k : K) (front l : list (K * V)) :
  In k (map fst front) -> NoDup (map fst front) ->
  exists front',
    Functools.drop eqb k (front ++ l) = front' ++ l
    /\ incl (map fst front') (map fst front)
    /\ NoDup (map fst front') /\ ~ In k (map fst front').
Proof.
  induction front as [|[k' v'] front IH]; simpl; [tauto|]. intros I D.
  inversion D as [|? ? Nk D']; subst.
  destruct (eqb k k') eqn:E.
  - apply eqb_eq in E. subst k'. exists front. repeat split; auto.
    intros x Hx. right. exact Hx.
  - destruct I as [I|I]; [subst k'; rewrite eqb_same in E; discriminate|].
    destruct (IH I D') as (front' & E1 & I1 & D1 & N1).
    exists ((k', v') :: front'). simpl. rewrite E1. repeat split.
    + intros x [Hx|Hx]; [left; exact Hx | right; apply I1, Hx].
    + constructor; [|exact D1]. intros Hx. apply Nk, I1, Hx.
    + intros [Hx|Hx]; [subst k'; rewrite eqb_same in E; discriminate | exact (N1 Hx)].
Qed.

Lemma anchored_find (ks : list K) (b : K) (r : V) (c : Functools.cache K V) :
  anchored ks b r c -> Functools.find eqb b (Functools.entries c) = Some r.
Proof.
  intros (front & back & -> & _ & _ & N). rewrite find_skip by exact N.
  simpl. rewrite eqb_same. reflexivity.
Qed.

(** A value just stored is anchored, whatever the other keys. *)
Lemma anchored_first (ks : list K) (b : K) (r : V) (l : list (K * V)) h m :
  0 < maxsize -> anchored ks b r (Functools.Cache (firstn maxsize ((b, r) :: l)) h m).
Proof.
  intros R. destruct maxsize as [|n]; [lia|]. exists [], (firstn n l).
  repeat split; [constructor | intros x [] | intros []].
Qed.

(** With fewer other keys than the cache has room for, no call for one of
    them drives the entry of [b] out, and a call for [b] is a hit. *)
Lemma anchored_step (ks : list K) (b : K) (r : V) (f : K -> St -> result V * St)
      (k : K) (c : Functools.cache K V) (s : St) :
  length ks < maxsize -> anchored ks b r c -> k = b \/ In k ks ->
  anchored ks b r (snd (fst (Functools.lru_cache eqb maxsize f k c s)))
  /\ (k = b -> Functools.lru_cache eqb maxsize f k c s
               = (Ok r, snd (fst (Functools.lru_cache eqb maxsize f k c s)), s)).
Proof.
  intros Room A Hk. assert (F := anchored_find A).
  destruct A as (front & back & E & D & I & N).
  destruct (eqb k b) eqn:Ekb.
  - apply eqb_eq in Ekb. subst k. unfold Functools.lru_cache. rewrite F.
    cbn [fst snd Functools.entries]. split; [|reflexivity].
    exists [], (front ++ back). rewrite E, drop_skip by exact N.
    repeat split; [constructor | intros x [] | intros []].
  - assert (Nkb : k <> b) by (intros ->; rewrite eqb_same in Ekb; discriminate).
    destruct Hk as [Hk|Hk]; [contradiction|]. split; [|contradiction].
    unfold Functools.lru_cache.
    destruct (Functools.find eqb k (Functools.entries c)) as [v|] eqn:Fk.
    + cbn [fst snd Functools.entries]. rewrite E.
      destruct (Functools.find eqb k front) as [v'|] eqn:Ff.
      * assert (Ik : In k (map fst front)).
        { destruct (Functools.find eqb k front) eqn:Y in Ff; [|discriminate].
          clear - Y eqb_eq. induction front as [|[k' w] front IH]; simpl in *; [discriminate|].
          destruct (eqb k k') eqn:Ek; [left; symmetry; apply eqb_eq, Ek | right; exact (IH Y)]. }
        destruct (@drop_front k front ((b, r) :: back) Ik D) as (front' & -> & I1 & D1 & N1).
        exists ((k, v) :: front'), back. cbn [app map fst]. repeat split.
        -- constructor; assumption.
        -- intros x [<-|Hx]; [exact Hk | apply I, I1, Hx].
        -- intros [Hx|Hx]; [congruence | apply N, I1, Hx].
      * apply find_none in Ff. rewrite drop_back by assumption.
        exists ((k, v) :: front), (Functools.drop eqb k back). cbn [app map fst].
        repeat split.
        -- constructor; assumption.
        -- intros x [<-|Hx]; [exact Hk | apply I, Hx].
        -- intros [Hx|Hx]; [congruence | exact (N Hx)].
    + destruct (f k s) as [[v|e] s']; cbn [fst snd Functools.entries].
      2:{ exists front, back. repeat split; assumption. }
      apply find_none in Fk. rewrite E, map_app in Fk.
      assert (Nf : ~ In k (map fst front)) by (intros Hx; apply Fk, in_or_app; left; exact Hx).
      assert (D' : NoDup (map fst ((k, v) :: front))) by (constructor; assumption).
      assert (I' : incl (map fst ((k, v) :: front)) ks).
      { intros x [<-|Hx]; [exact Hk | apply I, Hx]. }
      assert (L := NoDup_incl_length D' I'). rewrite length_map in L.
      exists ((k, v) :: front), (firstn (maxsize - S (length front) - 1) back).
      split; [|repeat split; [exact D' | exact I' |]].
      * rewrite E. change ((k, v) :: front ++ (b, r) :: back)
          with (((k, v) :: front) ++ (b, r) :: back).
        rewrite firstn_app, firstn_all2 by lia. f_equal.
        cbn [length] in *.
        destruct (maxsize - S (length front)) as [|n] eqn:En; [lia|].
        cbn [firstn Functools.entries]. replace (S n - 1) with n by lia. reflexivity.
      * cbn [map fst]. intros [Hx|Hx]; [congruence | exact (N Hx)].
Qed.
End LruKeys.

Section LruContents.
Variables K V St : Type.
Variable eqb : K -> K -> bool.
Variable maxsize : nat.

(** A call adds no key but its own. *)
Lemma lru_keys (f : K -> St -> result V * St) (k : K) (c : Functools.cache K V) (s : St)
      (x : K) :
  In x (map fst (Functools.entries (snd (fst (Functools.lru_cache eqb maxsize f k c s))))) ->
  x = k \/ In x (map fst (Functools.entries c)).
Proof.
  unfold Functools.lru_cache.
  destruct (Functools.find eqb k (Functools.entries c)) as [v|].
  - cbn [fst snd Functools.entries map]. intros [H|H]; [left; symmetry; exact H|].
    right. apply in_map_iff in H. destruct H as (y & <- & H).
    apply in_map. exact (in_drop _ _ _ _ H).
  - destruct (f k s) as [[v|e] s']; cbn [fst snd Functools.entries]; [|tauto].
    intros H. apply in_map_iff in H. destruct H as (y & <- & H).
    apply in_firstn in H. destruct H as [<-|H]; [left; reflexivity | right; apply in_map, H].
Qed.
End LruContents.

Lemma cached_buckets_after (w : World) (k : option Z) (p : Process) (x : option Z) :
  In x (cached_buckets (snd (get_table_schema w k p))) -> x = k \/ In x (cached_buckets p).
Proof.
  unfold cached_buckets, get_table_schema. intros H.
  apply (@lru_keys _ _ _ key_eqb 32 (build_schema w) k (schema_cache p) (runtime p)).
  destruct (Functools.lru_cache key_eqb 32 (build_schema w) k (schema_cache p) (runtime p))
    as [[r c] rt]. exact H.
Qed.

(** A call for a bucket that is not in the cache runs the builder, which
    makes a new snapshot object; the object is stored. *)
Lemma get_table_schema_miss (w : World) (b : option Z) (p : Process) :
  ~ In b (cached_buckets p) ->
  exists snapshot p',
    get_table_schema w b p = (Ok snapshot, p')
    /\ build_schema w b (runtime p) = (Ok snapshot, runtime p')
    /\ ref_id snapshot = allocated (runtime p)
    /\ allocated (runtime p') = S (allocated (runtime p))
    /\ Functools.misses (schema_cache p') = S (Functools.misses (schema_cache p))
    /\ Functools.entries (schema_cache p')
       = firstn 32 ((b, snapshot) :: Functools.entries (schema_cache p)).
Proof.
  intros N. apply (find_none key_eqb key_eqb_eq) in N.
  destruct (build_schema_returns w b (runtime p)) as (d & rt' & Hb & Ha).
  unfold get_table_schema, Functools.lru_cache. rewrite N, Hb.
  eexists; eexists. split; [reflexivity|]. repeat split; assumption.
Qed.

(** C8.  Two calls of [get_schema] in a row for one time bucket return
    the same snapshot object, and the second sends nothing to the store and
    builds nothing; a call for a new bucket, one that differs from it and is
    not in the cache, runs the builder, which makes a new snapshot
    object. *)
Theorem schema_cache_hit_and_rebuild (w1 w2 w3 : World) (b b' : option Z) (p : Process) :
  b' <> b -> ~ In b' (cached_buckets p) ->
  exists snapshot p1 p2 snapshot' p3,
    get_table_schema w1 b p = (Ok snapshot, p1)
    /\ get_table_schema w2 b p1 = (Ok snapshot, p2)
    /\ runtime p2 = runtime p1
    /\ Functools.misses (schema_cache p2) = Functools.misses (schema_cache p1)
    /\ get_table_schema w3 b' p2 = (Ok snapshot', p3)
    /\ build_schema w3 b' (runtime p2) = (Ok snapshot', runtime p3)
    /\ ref_id snapshot' = allocated (runtime p2)
    /\ allocated (runtime p3) = S (allocated (runtime p2))
    /\ Functools.misses (schema_cache p3) = S (Functools.misses (schema_cache p2)).
Proof.
  intros Nb Nc.
  destruct (build_schema_returns w1 b (runtime p)) as (d & rt' & Hb & Ha).
  destruct (@lru_two_calls _ _ _ key_eqb 32 key_eqb_refl ltac:(lia)
              (build_schema w1) (build_schema w2) b (schema_cache p) (runtime p))
    as (v & c1 & c2 & s1 & E1 & E2 & _ & M & _); [eauto|].
  assert (G1 : get_table_schema w1 b p = (Ok v, MkProcess c1 (result_cache p) s1)).
  { unfold get_table_schema. rewrite E1. reflexivity. }
  assert (G2 : get_table_schema w2 b (MkProcess c1 (result_cache p) s1)
               = (Ok v, MkProcess c2 (result_cache p) s1)).
  { unfold get_table_schema. cbn [schema_cache runtime result_cache]. rewrite E2. reflexivity. }
  assert (New : ~ In b' (cached_buckets (MkProcess c2 (result_cache p) s1))).
  { intros I.
    replace (MkProcess c2 (result_cache p) s1)
      with (snd (get_table_schema w2 b (MkProcess c1 (result_cache p) s1))) in I
      by (rewrite G2; reflexivity).
    apply cached_buckets_after in I. destruct I as [I|I]; [contradiction|].
    replace (MkProcess c1 (result_cache p) s1) with (snd (get_table_schema w1 b p)) in I
      by (rewrite G1; reflexivity).
    apply cached_buckets_after in I. destruct I as [I|I]; contradiction. }
  destruct (@get_table_schema_miss w3 _ _ New) as (v' & p3 & G3 & B3 & Id & Al & Mi & _).
  exists v, (MkProcess c1 (result_cache p) s1), (MkProcess c2 (result_cache p) s1), v', p3.
  repeat split; assumption.
Qed.

(** ** A failed build *)

Lemma failing_build_is_empty (w : World) (k : option Z) (rt : Runtime) :
  build_fails w ->
  exists rt', build_schema w k rt = (Ok (MkRef (allocated rt) []), rt').
Proof.
  intros Fl. destruct (build_schema_cases w k rt) as (d & rt' & Hb & [-> | H]).
  - exists rt'. exact Hb.
  - exfalso. destruct H as (tool & tables & Et & Em & Good & _).
    unfold build_fails in Fl. rewrite Et, Em in Fl.
    apply Exists_exists in Fl. destruct Fl as (t & I & N).
    rewrite Forall_forall in Good. exact (N (Good t I)).
Qed.

Lemma memoized_anchored (others : list (option Z)) (b : option Z) (r : SnapshotRef)
      (calls : list (World * option Z)) :
  length others <= 31 ->
  Forall (fun call => snd call = b \/ In (snd call) others) calls ->
  forall p, anchored others b r (schema_cache p) -> memoized b r calls p.
Proof.
  intros L F. induction F as [|[w k] calls Hk F IH]; intros p A; [exact I|].
  cbn [memoized snd] in *.
  destruct (@anchored_step _ _ _ key_eqb 32 key_eqb_eq others b r (build_schema w) k
              (schema_cache p) (runtime p) ltac:(lia) A Hk) as [A' Hit].
  unfold get_table_schema.
  destruct (Functools.lru_cache key_eqb 32 (build_schema w) k (schema_cache p) (runtime p))
    as [[r0 c] rt] eqn:E.
  cbn [fst snd runtime schema_cache] in *. split.
  - intros Eb. specialize (Hit Eb). injection Hit as -> ->. split; reflexivity.
  - apply IH. exact A'.
Qed.

(** C10.  When the build for a bucket not yet in the cache fails, the call
    returns the empty snapshot, and every later call for that bucket returns
    the same object and sends nothing to the store, whatever the store has
    become and whatever calls for other keys come in between, as long as
    those keys are 31 at most; a call for a bucket that differs from it and
    is not in the cache runs the builder again. *)
Theorem failed_build_is_memoized (w : World) (b : option Z) (p : Process)
        (others : list (option Z)) (calls : list (World * option Z)) :
  build_fails w -> ~ In b (cached_buckets p) ->
  length others <= 31 ->
  Forall (fun call => snd call = b \/ In (snd call) others) calls ->
  exists r p1,
    get_table_schema w b p = (Ok r, p1)
    /\ ref_dict r = []
    /\ memoized b r calls p1
    /\ forall w' b', ~ In b' (cached_buckets p1) ->
         fst (get_table_schema w' b' p1) = fst (build_schema w' b' (runtime p1)).
Proof.
  intros Fl New L F.
  destruct (@get_table_schema_miss w _ _ New) as (r & p1 & G & B & _ & _ & _ & En).
  assert (Er : ref_dict r = []).
  { destruct (@failing_build_is_empty w b (runtime p) Fl) as [rt'' Hb'].
    rewrite Hb' in B. injection B as <- _. reflexivity. }
  exists r, p1. split; [exact G|]. split; [exact Er|]. split.
  - apply (@memoized_anchored others b r calls L F).
    destruct (schema_cache p1) as [e h m]. cbn [Functools.entries] in En. subst e.
    apply anchored_first. lia.
  - intros w' b' N'. destruct (@get_table_schema_miss w' _ _ N') as (r' & p' & -> & -> & _).
    reflexivity.
Qed.

(** ** The duplicate guard in the rewriter *)

Section Guard.
Context {db : Unicode}.

Arguments py : simpl never.
Arguments Re.cmatch : simpl never.








End Guard.

(** * Examples

    The witnesses of the theorems above and the texts on which the claims
    fail as they are stated.  None of their texts has a character beyond
    U+00FF, so that no function consults the database; they are stated for
    the database that knows no letter there. *)

#[local] Existing Instance latin1_only.



Lemma rewrite_keeps_guarded_witness :
  rewrite (py "SELECT DISTINCT name FROM purchase_orders")
  = Ok (MkRewrite (py "SELECT DISTINCT name FROM purchase_orders")
                  (py "SELECT DISTINCT name FROM purchase_orders") []).
Proof.
  apply rewrite_keeps_guarded.
  - left. eexists. vm_compute. reflexivity.
  - vm_compute. reflexivity.
Defined.

(** C2, as stated, fails: a statement with DISTINCT and an equality against
    a literal is rewritten by the string-match step. *)
Lemma rewrite_changes_guarded :
  found DISTINCT (py "SELECT DISTINCT name FROM purchase_orders WHERE vendor = 'Medline'") Re.I
  /\ exists r,
       rewrite (py "SELECT DISTINCT name FROM purchase_orders WHERE vendor = 'Medline'") = Ok r
       /\ rewritten_sql r
          = py "SELECT DISTINCT name FROM purchase_orders WHERE LOWER(vendor) = LOWER('Medline')"
       /\ rewritten_sql r
          <> py "SELECT DISTINCT name FROM purchase_orders WHERE vendor = 'Medline'".
Proof.
  split.
  - eexists. vm_compute. reflexivity.
  - eexists. split; [vm_compute; reflexivity|]. split; [reflexivity|].
    intros E. apply (f_equal (@length uchar)) in E. vm_compute in E. discriminate E.
Qed.

Lemma preprocess_idempotent_witness :
  exists r,
    preprocess_user_query (py "  List all   purchase orders from Medline Industries ") = Ok r
    /\ preprocess_user_query r = Ok r.
Proof.
  apply preprocess_idempotent_without_comments.
  split; vm_compute; reflexivity.
Defined.

(** C6, as stated, fails, and would in any order of the steps: the two
    halves of a line comment stand on either side of a block comment, and
    come together when it is taken out; a second pass takes out the line
    comment they make. *)
Lemma preprocess_not_idempotent :
  preprocess_user_query (py "-/**/-x") = Ok (py "--x")
  /\ preprocess_user_query (py "--x") = Ok []
  /\ py "--x" <> [].
Proof.
  repeat split; try (vm_compute; reflexivity). discriminate.
Qed.

Lemma line_comment_swallows_the_rest_witness :
  preprocess_user_query
    (py "Show revenue   " ++ [NL] ++ py "-- comment" ++ [NL] ++ py " this quarter")
  = Ok (py "Show revenue ").
Proof.
  apply (@line_comment_swallows_the_rest latin1_only _ (py "Show revenue ") (py " comment this quarter"));
    vm_compute; reflexivity.
Defined.

Lemma extract_sql_without_fence_witness :
  extract_sql (py "There are 3 purchase orders from Medline Industries.") = Ok None.
Proof. apply extract_sql_without_fence. vm_compute. reflexivity. Defined.

Lemma extract_sql_of_fenced_block_witness :
  extract_sql (py "Here is the query:" ++ py "```sql" ++ [NL]
                  ++ py "SELECT name FROM purchase_orders" ++ [NL] ++ py "```"
                  ++ py " It lists the names.")
  = Ok (Some (py "SELECT name FROM purchase_orders")).
Proof.
  apply (@extract_sql_of_fenced_block latin1_only
           (py "Here is the query:") [NL] (py "SELECT name FROM purchase_orders") [NL]
           (py " It lists the names."));
    try discriminate; try reflexivity.
  - vm_compute. intuition discriminate.
  - vm_compute. intuition discriminate.
Defined.

Lemma improve_lowers_an_equality_witness :
  improve_string_matching (py "SELECT id FROM patients WHERE name  ='Ann Lee' LIMIT 5")
  = Ok (py "SELECT id FROM patients WHERE LOWER(name) = LOWER('Ann Lee') LIMIT 5", None).
Proof.
  apply (@improve_lowers_an_equality latin1_only (py "SELECT id FROM patients WHERE ") (py "name")
           (py "  ") [] SQUOTE (py "Ann Lee") (py " LIMIT 5")).
  - intros I. unfold py in I. cbn in I. intuition discriminate.
  - reflexivity.
  - discriminate.
  - repeat constructor.
  - repeat constructor.
  - constructor.
  - left. reflexivity.
  - intros I. unfold py in I. cbn in I. intuition discriminate.
  - intros I. unfold py in I. cbn in I. intuition discriminate.
  - intros I. unfold py in I. cbn in I. intuition discriminate.
  - intros I. unfold py in I. cbn in I. intuition discriminate.
Defined.

Lemma sql_agent_always_answers_witness :
  exists answer p',
    sql_agent (scenario_world (py "There are 3 purchase orders.")) 1000
              (py "How many purchase orders are there?") start
    = (Ok answer, p')
    /\ cache_complete p'
    /\ (answer = NO_CONNECTION \/ answer = NO_SCHEMA
        \/ exists prompt,
             match fst (agent_run (scenario_world (py "There are 3 purchase orders.")) prompt) with
             | Ok content => answer = add_data_quality_insights content
                             \/ answer = error_answer (re_error "unbalanced parenthesis" 33)
             | Raise e => answer = error_answer e
             end).
Proof.
  apply sql_agent_always_answers. intros k r [].
Defined.

(** Two questions in the bucket 3.  At the second the store is broken and
    the agent runs one statement through its tool: that statement is all
    the store receives. *)
Lemma sql_agent_reads_schema_once_per_bucket_witness :
  allocated
    (runtime
       (snd (sql_agent (MkWorld (Some broken_store) (fun _ => Ok 0%Z)
                                (fun _ => (Ok [], [py "SELECT * FROM purchase_orders"])))
                       1199 (py "And from Medline?")
                       (snd (sql_agent (scenario_world []) 900
                                       (py "List all purchase orders") start)))))
  = allocated
      (runtime (snd (sql_agent (scenario_world []) 900 (py "List all purchase orders") start)))
  /\ exists sent,
       statements
         (runtime
            (snd (sql_agent (MkWorld (Some broken_store) (fun _ => Ok 0%Z)
                                     (fun _ => (Ok [], [py "SELECT * FROM purchase_orders"])))
                            1199 (py "And from Medline?")
                            (snd (sql_agent (scenario_world []) 900
                                            (py "List all purchase orders") start)))))
       = rev sent
         ++ statements
              (runtime (snd (sql_agent (scenario_world []) 900
                                       (py "List all purchase orders") start)))
       /\ (sent = []
           \/ exists prompt,
                sent = snd (agent_run (MkWorld (Some broken_store) (fun _ => Ok 0%Z)
                                               (fun _ => (Ok [], [py "SELECT * FROM purchase_orders"])))
                                      prompt)).
Proof.
  apply (@sql_agent_reads_schema_once_per_bucket latin1_only (scenario_world []));
    [discriminate | reflexivity].
Defined.

(** The page has read the schema without a key (line 555).  Then two calls
    for the bucket 5, the second on a broken store, and one for the bucket
    6: the builder runs for the first and for the third, and the third makes
    a new object. *)
Lemma schema_cache_hit_and_rebuild_witness :
  exists snapshot p1 p2 snapshot' p3,
    get_table_schema (scenario_world []) (Some 5%Z)
                     (snd (get_table_schema (scenario_world []) None start))
    = (Ok snapshot, p1)
    /\ get_table_schema (world_of broken_store) (Some 5%Z) p1 = (Ok snapshot, p2)
    /\ runtime p2 = runtime p1
    /\ Functools.misses (schema_cache p2) = Functools.misses (schema_cache p1)
    /\ get_table_schema (scenario_world []) (Some 6%Z) p2 = (Ok snapshot', p3)
    /\ build_schema (scenario_world []) (Some 6%Z) (runtime p2) = (Ok snapshot', runtime p3)
    /\ ref_id snapshot' = allocated (runtime p2)
    /\ allocated (runtime p3) = S (allocated (runtime p2))
    /\ Functools.misses (schema_cache p3) = S (Functools.misses (schema_cache p2)).
Proof.
  apply schema_cache_hit_and_rebuild.
  - discriminate.
  - intros H. vm_compute in H. destruct H as [E|[]]. discriminate E.
Defined.

(** The page has read the schema without a key.  The store then fails at
    the first statement of a build for the bucket 5; after that it is
    healthy again, and the page (no key) and the agent (the bucket 5) ask
    for the schema in turn. *)
Lemma failed_build_is_memoized_witness :
  exists r p1,
    get_table_schema (world_of broken_store) (Some 5%Z)
                     (snd (get_table_schema (scenario_world []) None start))
    = (Ok r, p1)
    /\ ref_dict r = []
    /\ memoized (Some 5%Z) r
                [(scenario_world [], None); (scenario_world [], Some 5%Z);
                 (scenario_world [], None); (scenario_world [], Some 5%Z)]
                p1
    /\ forall w' b', ~ In b' (cached_buckets p1) ->
         fst (get_table_schema w' b' p1) = fst (build_schema w' b' (runtime p1)).
Proof.
  apply (@failed_build_is_memoized (world_of broken_store) (Some 5%Z)
           (snd (get_table_schema (scenario_world []) None start)) [None]).
  - exact I.
  - intros H. vm_compute in H. destruct H as [E|[]]. discriminate E.
  - cbn [length]. lia.
  - repeat (constructor; [first [left; reflexivity | right; left; reflexivity]|]).
    constructor.
Defined.
